(** * Orca: scheduling and orchestration engine

    A shallow embedding of the dependency analyzer, the execution-graph
    models, the quality-gate aggregation, the agent coordinator and the
    parallel orchestrator, followed by the properties established about
    them.

    Conventions of the embedding:
    - Python [int] is [Z]; Python [float] is an exact rational [Q] (no
      rounding); [str] is [string]; [Optional[T]] is [option T].
    - A [dict] read by key is a [gmap]; a [dict] whose iteration order is
      observable is an association list in insertion order; a [set] is a
      [gset], iterated in the order of [elements].
    - A function that can raise returns a [result]; the exception classes
      are the constructors of [exn].
    - Objects are modelled by the attributes the scheduling code reads from
      them.  Time stamps, log lines and free-text messages that no decision
      depends on are left out. *)

From Stdlib Require Import QArith.
From stdpp Require Import gmap strings list fin_maps relations pretty.

Set Warnings "-clear-no-such-hyp".

Local Open Scope string_scope.
Local Open Scope list_scope.

(* ================================================================== *)
(** * Exceptions and fallible computations                             *)
(* ================================================================== *)

(** The exception classes that occur in the embedded code.  Every
    constructor is a subclass of Python's [Exception];
    [CircularDependencyError] is declared as a subclass of
    [DependencyAnalysisError]. *)
Inductive exn : Type :=
| Exception_ (msg : string)
| KeyError (key : string)
| IndexError (msg : string)
| TypeError (msg : string)
| ValueError (msg : string)
| ZeroDivisionError
| ValidationError (msg : string)
| DependencyAnalysisError (msg : string)
| CircularDependencyError (msg : string)
| QualityGateError (msg : string)
| AgentCoordinationError (msg : string)
| ParallelExecutionError (msg : string).

(** [isinstance(e, CircularDependencyError)] *)
Definition is_CircularDependencyError (e : exn) : bool :=
  match e with CircularDependencyError _ => true | _ => false end.

(** [isinstance(e, DependencyAnalysisError)]: the class and its subclass. *)
Definition is_DependencyAnalysisError (e : exn) : bool :=
  match e with
  | DependencyAnalysisError _ | CircularDependencyError _ => true
  | _ => false
  end.

(** [str(e)] *)
Definition str_exn (e : exn) : string :=
  match e with
  | Exception_ m | IndexError m | TypeError m | ValueError m | ValidationError m
  | DependencyAnalysisError m | CircularDependencyError m
  | QualityGateError m | AgentCoordinationError m | ParallelExecutionError m => m
  | KeyError k => String.append "'" (String.append k "'")
  | ZeroDivisionError => "division by zero"
  end.

(** Outcome of a call: a value, a raised exception, or [OutOfFuel] when the
    iteration bound that stands for a [while] loop is exhausted (shown
    unreachable for the layering loop below). *)
Inductive result (A : Type) : Type :=
| Ok (a : A)
| Raise (e : exn)
| OutOfFuel.
Arguments Ok {A} a.
Arguments Raise {A} e.
Arguments OutOfFuel {A}.

Definition result_bind {A B : Type} (f : A → result B) (c : result A) : result B :=
  match c with
  | Ok a => f a
  | Raise e => Raise e
  | OutOfFuel => OutOfFuel
  end.

#[global] Instance result_mbind : MBind result := @result_bind.
#[global] Instance result_mret : MRet result := @Ok.

(** What a call into a collaborator outside the embedded code does: it
    returns a value or raises. *)
Inductive outcome (A : Type) : Type :=
| Returns (a : A)
| Raises (e : exn).
Arguments Returns {A} a.
Arguments Raises {A} e.

(** [try: c  except Exception as e: h e] *)
Definition try_except {A : Type} (c : result A) (h : exn → result A) : result A :=
  match c with
  | Raise e => h e
  | r => r
  end.

(** [for x in l: body]  over a state [S], stopping at the first exception. *)
Fixpoint for_each {S B : Type} (body : S → B → result S) (s : S) (l : list B) : result S :=
  match l with
  | [] => Ok s
  | x :: l' => s' ← body s x; for_each body s' l'
  end.

(* ================================================================== *)
(** * Python strings: [lower] and the substring test [in]              *)
(* ================================================================== *)

Definition lower_ascii (c : Ascii.ascii) : Ascii.ascii :=
  let n := Ascii.nat_of_ascii c in
  if (65 <=? n)%nat && (n <=? 90)%nat then Ascii.ascii_of_nat (n + 32) else c.

(** [s.lower()] on ASCII text. *)
Fixpoint lower (s : string) : string :=
  match s with
  | EmptyString => EmptyString
  | String c s' => String (lower_ascii c) (lower s')
  end.

(** [needle in hay] *)
Fixpoint str_in (needle hay : string) : bool :=
  String.prefix needle hay ||
  match hay with
  | EmptyString => false
  | String _ hay' => str_in needle hay'
  end.

(** [any(k in s for k in keywords)] *)
Definition any_in (keywords : list string) (s : string) : bool :=
  existsb (λ k, str_in k s) keywords.

(* ================================================================== *)
(** * Dictionaries                                                     *)
(* ================================================================== *)

(** [defaultdict(int)]: a missing key reads as [0]. *)
Definition dd_get (m : gmap string Z) (k : string) : Z := default 0%Z (m !! k).
(** [m[k] += d] on a [defaultdict(int)] *)
Definition dd_add (m : gmap string Z) (k : string) (d : Z) : gmap string Z :=
  <[k := (dd_get m k + d)%Z]> m.

(** [defaultdict(list)]: a missing key reads as [[]]. *)
Definition dl_get (m : gmap string (list string)) (k : string) : list string :=
  default [] (m !! k).
(** [m[k].append(x)] on a [defaultdict(list)] *)
Definition dl_append (m : gmap string (list string)) (k x : string) : gmap string (list string) :=
  <[k := dl_get m k ++ [x]]> m.

(** A plain [dict]: reading a missing key raises [KeyError]. *)
Definition dict_get {V : Type} (m : gmap string V) (k : string) : result V :=
  match m !! k with
  | Some v => Ok v
  | None => Raise (KeyError k)
  end.

(** [d[k] = v] on a dict whose iteration order is observed: the value is
    replaced in place when the key exists and appended otherwise. *)
Fixpoint alist_set {V : Type} (d : list (string * V)) (k : string) (v : V) : list (string * V) :=
  match d with
  | [] => [(k, v)]
  | (k', v') :: d' => if decide (k' = k) then (k, v) :: d' else (k', v') :: alist_set d' k v
  end.

(* ================================================================== *)
(** * models/complete_task.py                                          *)
(* ================================================================== *)

Module TaskContext.
Record t : Type := mk {
  project_background : string;
  (** [Dict[str, str]]: path ↦ description, in insertion order *)
  file_locations : list (string * string)
}.
End TaskContext.

Module CompleteTask.
Record t : Type := mk {
  task_id : string;
  title : string;
  complete_context : TaskContext.t;
  (** declared dependency identifiers *)
  depends_on : list string;
  (** [Optional[int]], default [None] *)
  estimated_duration_minutes : option Z
}.
End CompleteTask.

(* ================================================================== *)
(** * models/execution_graph.py                                        *)
(* ================================================================== *)

(** Provenance of a dependency edge, as the analyzer tags it. *)
Inductive DependencyType : Type := EXPLICIT | FILE | LOGICAL | ARCHITECTURAL.

(** The identifiers put into a [TaskDependency] are task identifiers, which
    match [^[a-zA-Z0-9_-]+$]; on those the validator of the model (reject
    blank, strip white space) is the identity. *)
Module TaskDependency.
Record t : Type := mk {
  from_task_id : string;   (** task that depends on another *)
  to_task_id : string;     (** task that is depended upon *)
  dependency_type : DependencyType;
  is_blocking : bool
}.
End TaskDependency.

Module DependencyGraph.
Record t : Type := mk {
  tasks : list string;
  dependencies : list TaskDependency.t
}.

(** State of the queue loop of [validate_acyclic]. *)
Record kahn_state : Type := mk_kahn {
  k_in_degree : gmap string Z;
  k_queue : list string;
  k_processed : Z
}.

(** [for neighbor in graph[current]: in_degree[neighbor] -= 1; if
    in_degree[neighbor] == 0: queue.append(neighbor)] *)
Definition visit_neighbor (st : kahn_state) (neighbor : string) : result kahn_state :=
  d ← dict_get (k_in_degree st) neighbor;
  let d' := (d - 1)%Z in
  let in_degree := <[neighbor := d']> (k_in_degree st) in
  Ok (mk_kahn in_degree
        (if decide (d' = 0%Z) then k_queue st ++ [neighbor] else k_queue st)
        (k_processed st)).

(** [while queue: current = queue.pop(0); processed_count += 1; ...] *)
Fixpoint kahn_loop (fuel : nat) (graph : gmap string (list string))
    (st : kahn_state) : result kahn_state :=
  match k_queue st with
  | [] => Ok st
  | current :: queue =>
      match fuel with
      | O => OutOfFuel
      | S fuel' =>
          neighbors ← dict_get graph current;
          st' ← for_each visit_neighbor
                  (mk_kahn (k_in_degree st) queue (k_processed st + 1)%Z) neighbors;
          kahn_loop fuel' graph st'
      end
  end.

(** The first loop of [validate_acyclic]: both dicts are plain, so an edge
    end that is no task raises [KeyError]. *)
Definition add_edge (acc : gmap string (list string) * gmap string Z)
    (dep : TaskDependency.t) : result (gmap string (list string) * gmap string Z) :=
  if TaskDependency.is_blocking dep then
    succs ← dict_get acc.1 (TaskDependency.to_task_id dep);
    let graph := <[TaskDependency.to_task_id dep := succs ++ [TaskDependency.from_task_id dep]]> acc.1 in
    d ← dict_get acc.2 (TaskDependency.from_task_id dep);
    Ok (graph, <[TaskDependency.from_task_id dep := (d + 1)%Z]> acc.2)
  else Ok acc.

(** [validate_acyclic]: Kahn's algorithm with a FIFO queue; [True] when
    every task was processed. *)
Definition validate_acyclic (g : t) : result bool :=
  let graph0 : gmap string (list string) := list_to_map ((λ id, (id, [])) <$> tasks g) in
  let in_degree0 : gmap string Z := list_to_map ((λ id, (id, 0%Z)) <$> tasks g) in
  '(graph, in_degree) ← for_each add_edge (graph0, in_degree0) (dependencies g);
  let queue := filter (λ id, dd_get in_degree id = 0%Z) (tasks g) in
  st ← kahn_loop (2 * length (tasks g) + 1) graph (mk_kahn in_degree queue 0%Z);
  Ok (bool_decide (k_processed st = Z.of_nat (length (tasks g)))).

(** [[dep for dep in self.dependencies if dep.from_task_id == task_id]] *)
Definition get_dependencies_for_task (g : t) (task_id : string) : list TaskDependency.t :=
  filter (λ dep, TaskDependency.from_task_id dep = task_id) (dependencies g).

(** [[dep for dep in self.dependencies if dep.to_task_id == task_id]] *)
Definition get_dependents_for_task (g : t) (task_id : string) : list TaskDependency.t :=
  filter (λ dep, TaskDependency.to_task_id dep = task_id) (dependencies g).

(** [get_independent_tasks]: the tasks that are the dependent end of no
    dependency, blocking or not. *)
Definition get_independent_tasks (g : t) : list string :=
  let dependent_tasks : gset string :=
    list_to_set (TaskDependency.from_task_id <$> dependencies g) in
  filter (λ task_id, task_id ∉ dependent_tasks) (tasks g).

(** [get_leaf_tasks]: the tasks that no dependency points to. *)
Definition get_leaf_tasks (g : t) : list string :=
  let dependency_targets : gset string :=
    list_to_set (TaskDependency.to_task_id <$> dependencies g) in
  filter (λ task_id, task_id ∉ dependency_targets) (tasks g).

(** The three sets of the search of [find_cycles] and the cycles found so
    far. *)
Record dfs_state : Type := mk_dfs {
  d_white : gset string;
  d_gray : gset string;
  d_black : gset string;
  d_cycles : list (list string)
}.

(** [path.index(node)]: the first position of [node]; [ValueError] when
    it is not in the list. *)
Fixpoint list_index (path : list string) (node : string) : result nat :=
  match path with
  | [] => Raise (ValueError "x is not in list")
  | x :: path' =>
      if decide (x = node) then Ok 0%nat
      else i ← list_index path' node; Ok (S i)
  end.

(** The inner function [dfs] of [find_cycles].  [white.remove] and
    [gray.remove] raise [KeyError] when the node is not in the set.  The
    recursion is bounded by [fuel]; the recursion limit of the interpreter
    is not modelled. *)
Fixpoint dfs (fuel : nat) (graph : gmap string (list string)) (node : string)
    (path : list string) (st : dfs_state) : result dfs_state :=
  match fuel with
  | O => OutOfFuel
  | S fuel' =>
      if decide (node ∈ d_gray st) then
        cycle_start ← list_index path node;
        Ok (mk_dfs (d_white st) (d_gray st) (d_black st)
              (d_cycles st ++ [drop cycle_start path ++ [node]]))
      else if decide (node ∈ d_black st) then Ok st
      else if decide (node ∈ d_white st) then
        st' ← for_each (λ st neighbor, dfs fuel' graph neighbor (path ++ [node]) st)
                (mk_dfs (d_white st ∖ {[node]}) (d_gray st ∪ {[node]}) (d_black st)
                   (d_cycles st))
                (default [] (graph !! node));
        if decide (node ∈ d_gray st') then
          Ok (mk_dfs (d_white st') (d_gray st' ∖ {[node]}) (d_black st' ∪ {[node]})
                (d_cycles st'))
        else Raise (KeyError node)
      else Raise (KeyError node)
  end.

(** The loop that fills the adjacency dict of [find_cycles]: a plain dict
    with the tasks as keys. *)
Definition add_cycle_edge (graph : gmap string (list string)) (dep : TaskDependency.t)
    : result (gmap string (list string)) :=
  if TaskDependency.is_blocking dep then
    succs ← dict_get graph (TaskDependency.to_task_id dep);
    Ok (<[TaskDependency.to_task_id dep := succs ++ [TaskDependency.from_task_id dep]]> graph)
  else Ok graph.

(** [find_cycles].  [white_list] is [list(white)], the tasks in the order
    in which the set [white] yields them. *)
Definition find_cycles (white_list : list string) (g : t) : result (list (list string)) :=
  is_acyclic ← validate_acyclic g;
  if is_acyclic : bool then Ok []
  else
    graph ← for_each add_cycle_edge (list_to_map ((λ id, (id, [])) <$> tasks g))
               (dependencies g);
    st ← for_each (λ st task_id,
                     if decide (task_id ∈ d_white st)
                     then dfs (S (length (tasks g))) graph task_id [] st
                     else Ok st)
            (mk_dfs (list_to_set (tasks g)) ∅ ∅ []) white_list;
    Ok (d_cycles st).

End DependencyGraph.

Module ExecutionLayer.
Record t : Type := mk {
  layer_number : Z;
  tasks : list CompleteTask.t;
  dependencies_satisfied : list string;
  estimated_duration_minutes : option Z
}.

(** The constructor with the validation of the model: [layer_number >= 0]
    and at least one task. *)
Definition new (layer_number : Z) (tasks : list CompleteTask.t)
    (dependencies_satisfied : list string) (duration : option Z) : result t :=
  if decide (layer_number < 0)%Z then
    Raise (ValidationError "layer_number: ensure this value is greater than or equal to 0")
  else match tasks with
       | [] => Raise (ValidationError "Execution layer must contain at least one task")
       | _ => Ok (mk layer_number tasks dependencies_satisfied duration)
       end.

Definition get_task_ids (l : t) : list string := CompleteTask.task_id <$> tasks l.

(** [d or 60]: a missing duration, and a duration of zero, count as 60. *)
Definition or_60 (d : option Z) : Z :=
  match d with
  | Some v => if decide (v = 0%Z) then 60%Z else v
  | None => 60%Z
  end.

(** [calculate_estimated_duration]: the largest task duration, stored in the
    layer and returned; a layer without tasks returns [0] and is left as it
    is.  The pair is the returned value and the layer afterwards. *)
Definition calculate_estimated_duration (self : t) : Z * t :=
  match tasks self with
  | [] => (0%Z, self)
  | task :: rest =>
      let durations :=
        (λ task, or_60 (CompleteTask.estimated_duration_minutes task)) <$> rest in
      let m := foldl Z.max (or_60 (CompleteTask.estimated_duration_minutes task)) durations in
      (m, mk (layer_number self) (tasks self) (dependencies_satisfied self) (Some m))
  end.

(** [get_parallel_factor]: [float(len(self.tasks))]. *)
Definition get_parallel_factor (self : t) : Q :=
  inject_Z (Z.of_nat (length (tasks self))).

End ExecutionLayer.

Module ExecutionGraph.
Record t : Type := mk {
  dependency_graph : DependencyGraph.t;
  execution_layers : list ExecutionLayer.t;
  total_tasks : Z;
  parallelization_factor : Q;
  total_estimated_duration_minutes : option Z
}.
End ExecutionGraph.

(** The methods of [ExecutionGraph] that compute its metrics and its
    schedule. *)
Module ExecutionGraphMetrics.
(** The attributes of the graph that only these methods touch. *)
Record metrics : Type := mk_metrics {
  parallel_tasks : Z;
  sequential_tasks : Z;
  estimated_total_duration_minutes : option Z
}.

(** [sum(len(layer.tasks) for layer in layers if p(len(layer.tasks)))] *)
Definition sum_task_counts (p : Z → bool) (layers : list ExecutionLayer.t) : Z :=
  foldl (λ acc layer,
           let n := Z.of_nat (length (ExecutionLayer.tasks layer)) in
           if p n then (acc + n)%Z else acc) 0%Z layers.

(** [calculate_parallelization_metrics]: the graph and its metrics
    afterwards.  Nothing changes on a graph without layers. *)
Definition calculate_parallelization_metrics (self : ExecutionGraph.t) (m : metrics)
    : ExecutionGraph.t * metrics :=
  match ExecutionGraph.execution_layers self with
  | [] => (self, m)
  | _ =>
      let parallel := sum_task_counts (λ n, bool_decide (1 < n)%Z)
                        (ExecutionGraph.execution_layers self) in
      let sequential := sum_task_counts (λ n, bool_decide (n = 1)%Z)
                          (ExecutionGraph.execution_layers self) in
      let factor :=
        if decide (0 < ExecutionGraph.total_tasks self)%Z
        then (inject_Z parallel / inject_Z (ExecutionGraph.total_tasks self))%Q
        else ExecutionGraph.parallelization_factor self in
      let computed :=
        ExecutionLayer.calculate_estimated_duration <$> ExecutionGraph.execution_layers self in
      (ExecutionGraph.mk (ExecutionGraph.dependency_graph self) (computed.*2)
         (ExecutionGraph.total_tasks self) factor
         (ExecutionGraph.total_estimated_duration_minutes self),
       mk_metrics parallel sequential (Some (foldl Z.add 0%Z (computed.*1))))
  end.

(** One entry of the ["layers"] list of the schedule. *)
Record layer_info : Type := mk_layer_info {
  layer_number : Z;
  task_count : Z;
  task_ids : list string;
  parallel_factor : Q;
  estimated_duration_minutes : Z;
  start_time_minutes : Z;
  end_time_minutes : Z;
  dependencies_satisfied : list string
}.

Record schedule : Type := mk_schedule {
  total_layers : Z;
  total_tasks : Z;
  parallelization_factor : Q;
  (** the stored [estimated_total_duration_minutes] *)
  schedule_estimated_duration_minutes : option Z;
  layers : list layer_info
}.

(** The body of the loop of [get_execution_schedule]: the running time, the
    entries so far and the layers with their durations stored. *)
Definition schedule_layer (acc : Z * list layer_info * list ExecutionLayer.t)
    (layer : ExecutionLayer.t) : Z * list layer_info * list ExecutionLayer.t :=
  let '(cumulative_time, infos, visited) := acc in
  let '(layer_duration, layer') := ExecutionLayer.calculate_estimated_duration layer in
  ((cumulative_time + layer_duration)%Z,
   infos ++ [mk_layer_info (ExecutionLayer.layer_number layer')
               (Z.of_nat (length (ExecutionLayer.tasks layer')))
               (ExecutionLayer.get_task_ids layer')
               (ExecutionLayer.get_parallel_factor layer')
               layer_duration cumulative_time (cumulative_time + layer_duration)%Z
               (ExecutionLayer.dependencies_satisfied layer')],
   visited ++ [layer']).

(** [get_execution_schedule]: the schedule and the graph afterwards. *)
Definition get_execution_schedule (self : ExecutionGraph.t) (m : metrics)
    : schedule * ExecutionGraph.t :=
  let '(_, infos, visited) :=
    foldl schedule_layer (0%Z, [], []) (ExecutionGraph.execution_layers self) in
  (mk_schedule (Z.of_nat (length (ExecutionGraph.execution_layers self)))
     (ExecutionGraph.total_tasks self) (ExecutionGraph.parallelization_factor self)
     (estimated_total_duration_minutes m) infos,
   ExecutionGraph.mk (ExecutionGraph.dependency_graph self) visited
     (ExecutionGraph.total_tasks self) (ExecutionGraph.parallelization_factor self)
     (ExecutionGraph.total_estimated_duration_minutes self)).
End ExecutionGraphMetrics.

(** [validate_execution_graph]: the report it returns.  The messages are
    kept as data: an issue names the task, the cycle or the set of tasks
    that its text prints, a warning or recommendation the factor. *)
Module ExecutionGraphValidation.

Inductive issue : Type :=
| Contains_cycles
| Cycle_detected (cycle : list string)
| In_multiple_layers (task_id : string)
| Missing_from_layers (missing_tasks : gset string)
| Extra_in_layers (extra_tasks : gset string).

Inductive remark : Type :=
| Low_parallelization (factor : Q)
| Excellent_parallelization (factor : Q).

Record validation : Type := mk_validation {
  is_valid : bool;
  issues : list issue;
  warnings : list remark;
  recommendations : list remark
}.

(** The body of the loop over the tasks of the layers. *)
Definition scan_task (acc : gset string * list issue) (task_id : string)
    : gset string * list issue :=
  (acc.1 ∪ {[task_id]},
   if decide (task_id ∈ acc.1) then acc.2 ++ [In_multiple_layers task_id] else acc.2).

Definition validate_execution_graph (white_list : list string) (self : ExecutionGraph.t)
    : result validation :=
  is_acyclic ← DependencyGraph.validate_acyclic (ExecutionGraph.dependency_graph self);
  issues ← (if is_acyclic : bool then Ok []
            else cycles ← DependencyGraph.find_cycles white_list
                            (ExecutionGraph.dependency_graph self);
                 Ok (Contains_cycles :: (Cycle_detected <$> cycles)));
  let factor := ExecutionGraph.parallelization_factor self in
  let warnings :=
    if Qle_bool (1 # 2) factor then [] else [Low_parallelization factor] in
  let recommendations :=
    if Qle_bool (1 # 2) factor && negb (Qle_bool factor (8 # 10))
    then [Excellent_parallelization factor] else [] in
  let '(task_ids_in_layers, issues) :=
    foldl scan_task (∅, issues)
      (concat (ExecutionLayer.get_task_ids <$> ExecutionGraph.execution_layers self)) in
  let all_task_ids : gset string :=
    list_to_set (DependencyGraph.tasks (ExecutionGraph.dependency_graph self)) in
  let issues :=
    if decide (task_ids_in_layers = all_task_ids) then issues
    else
      let missing_tasks := all_task_ids ∖ task_ids_in_layers in
      let extra_tasks := task_ids_in_layers ∖ all_task_ids in
      issues
        ++ (if decide (missing_tasks = ∅) then [] else [Missing_from_layers missing_tasks])
        ++ (if decide (extra_tasks = ∅) then [] else [Extra_in_layers extra_tasks]) in
  Ok (mk_validation is_acyclic issues warnings recommendations).

End ExecutionGraphValidation.

(** The constructor of [ExecutionGraph] with the validator of the model:
    layers are numbered [0, 1, ...] in order. *)
Definition ExecutionGraph_new (dependency_graph : DependencyGraph.t)
    (execution_layers : list ExecutionLayer.t) (parallelization_factor : Q)
    (total_estimated_duration_minutes : option Z) (total_tasks : Z)
    : result ExecutionGraph.t :=
  if bool_decide (Forall (λ p : nat * ExecutionLayer.t,
                       ExecutionLayer.layer_number p.2 = Z.of_nat p.1)
                    (imap (λ i l, (i, l)) execution_layers))
  then Ok (ExecutionGraph.mk dependency_graph execution_layers total_tasks
             parallelization_factor total_estimated_duration_minutes)
  else Raise (ValidationError "Layer has incorrect layer_number").

(* ================================================================== *)
(** * analysis/dependency_analyzer.py                                  *)
(* ================================================================== *)

(** [[f(x) for x in l]] where [f] can raise. *)
Fixpoint list_comp {A B : Type} (f : A → result B) (l : list A) : result (list B) :=
  match l with
  | [] => Ok []
  | x :: l' => y ← f x; ys ← list_comp f l'; Ok (y :: ys)
  end.

(** [a > b] on [Optional[int]]: comparing with [None] raises [TypeError]. *)
Definition py_gt (a b : option Z) : result bool :=
  match a, b with
  | Some x, Some y => Ok (bool_decide (y < x)%Z)
  | _, _ => Raise (TypeError "'>' not supported between these instances")
  end.

(** [max(iterable)]: the first item is the candidate and every later item
    is compared with it by [>]; a single item is returned uncompared. *)
Definition py_max (l : list (option Z)) : result (option Z) :=
  match l with
  | [] => Raise (ValueError "max() arg is an empty sequence")
  | x :: l' => for_each (λ m y, b ← py_gt y m; Ok (if b : bool then y else m)) x l'
  end.

(** [sum(iterable)] starting from [0]: adding [None] raises [TypeError]. *)
Definition py_sum (l : list (option Z)) : result Z :=
  for_each (λ acc y, match y with
                     | Some v => Ok (acc + v)%Z
                     | None => Raise (TypeError "unsupported operand type(s) for +")
                     end) 0%Z l.



(** [d[k].append(x)] on a [defaultdict(list)] whose iteration order is
    observed: a new key goes to the end. *)
Fixpoint alist_append (d : list (string * list string)) (k x : string)
    : list (string * list string) :=
  match d with
  | [] => [(k, [x])]
  | (k', v') :: d' =>
      if decide (k' = k) then (k', v' ++ [x]) :: d' else (k', v') :: alist_append d' k x
  end.


Module DependencyAnalyzer.

Definition _extract_explicit_dependencies (tasks : list CompleteTask.t)
    : list TaskDependency.t :=
  flat_map (λ task,
    flat_map (λ dep_id,
      if existsb (λ t, bool_decide (CompleteTask.task_id t = dep_id)) tasks
      then [TaskDependency.mk (CompleteTask.task_id task) dep_id EXPLICIT true]
      else [])
    (CompleteTask.depends_on task))
  tasks.

(** ["creat" in description.lower() or "implement" in description.lower()] *)
Definition creates_file (description : string) : bool :=
  str_in "creat" (lower description) || str_in "implement" (lower description).

(** One step of the first loop of [_analyze_file_dependencies]:
    [file_creators] is a dict iterated later, [file_consumers] a
    [defaultdict(list)]. *)
Definition record_file (task_id : string)
    (acc : list (string * string) * gmap string (list string))
    (entry : string * string) : list (string * string) * gmap string (list string) :=
  if creates_file entry.2
  then (alist_set acc.1 entry.1 task_id, acc.2)
  else (acc.1, dl_append acc.2 entry.1 task_id).

Definition _analyze_file_dependencies (tasks : list CompleteTask.t)
    : list TaskDependency.t :=
  let '(file_creators, file_consumers) :=
    foldl (λ acc task,
             foldl (record_file (CompleteTask.task_id task)) acc
               (TaskContext.file_locations (CompleteTask.complete_context task)))
          ([], ∅) tasks in
  flat_map (λ '(file_path, creator_id),
    flat_map (λ consumer_id,
      if decide (creator_id ≠ consumer_id)
      then [TaskDependency.mk consumer_id creator_id FILE true]
      else [])
    (dl_get file_consumers file_path))
  file_creators.

Definition dependency_keywords : list (string * list string) :=
  [ ("model", ["api"; "service"; "test"]);
    ("database", ["model"; "api"]);
    ("test", []);
    ("config", ["model"; "api"; "service"]) ].

Definition _analyze_context_dependencies (tasks : list CompleteTask.t)
    : list TaskDependency.t :=
  let tasks_by_type : gmap string (list string) :=
    foldl (λ acc task,
      let title_lower := lower (CompleteTask.title task) in
      let background_lower :=
        lower (TaskContext.project_background (CompleteTask.complete_context task)) in
      foldl (λ acc' keyword,
               if str_in keyword title_lower || str_in keyword background_lower
               then dl_append acc' keyword (CompleteTask.task_id task)
               else acc')
            acc (dependency_keywords.*1))
    ∅ tasks in
  flat_map (λ '(dependent_type, prereq_types),
    let dependent_tasks := dl_get tasks_by_type dependent_type in
    flat_map (λ prereq_type,
      let prereq_tasks := dl_get tasks_by_type prereq_type in
      flat_map (λ dependent_id,
        flat_map (λ prereq_id,
          if decide (dependent_id ≠ prereq_id)
          then [TaskDependency.mk dependent_id prereq_id LOGICAL false]
          else [])
        prereq_tasks)
      dependent_tasks)
    prereq_types)
  dependency_keywords.

(** The three lists built by the first loop of
    [_analyze_architectural_dependencies]. *)
Definition classify (tasks : list CompleteTask.t)
    : list string * list string * list string :=
  foldl (λ '(foundation_tasks, implementation_tasks, integration_tasks) task,
    let title_lower := lower (CompleteTask.title task) in
    let id := CompleteTask.task_id task in
    if any_in ["setup"; "config"; "foundation"; "basic"] title_lower
    then (foundation_tasks ++ [id], implementation_tasks, integration_tasks)
    else if any_in ["implement"; "create"; "build"] title_lower
    then (foundation_tasks, implementation_tasks ++ [id], integration_tasks)
    else if any_in ["integrat"; "connect"; "coordin"] title_lower
    then (foundation_tasks, implementation_tasks, integration_tasks ++ [id])
    else (foundation_tasks, implementation_tasks, integration_tasks))
  ([], [], []) tasks.

Definition _analyze_architectural_dependencies (tasks : list CompleteTask.t)
    : list TaskDependency.t :=
  let '(foundation_tasks, implementation_tasks, integration_tasks) := classify tasks in
  flat_map (λ impl_id,
    (λ found_id, TaskDependency.mk impl_id found_id ARCHITECTURAL true) <$> foundation_tasks)
    implementation_tasks
  ++
  flat_map (λ integ_id,
    (λ impl_id, TaskDependency.mk integ_id impl_id ARCHITECTURAL true) <$> implementation_tasks)
    integration_tasks.

Definition _analyze_implicit_dependencies (tasks : list CompleteTask.t)
    : list TaskDependency.t :=
  _analyze_file_dependencies tasks
  ++ _analyze_context_dependencies tasks
  ++ _analyze_architectural_dependencies tasks.

Definition _validate_dependency_graph (dependency_graph : DependencyGraph.t)
    (valid_task_ids : list string) : result unit :=
  _ ← for_each (λ (_ : unit) dependency,
         if decide (TaskDependency.from_task_id dependency ∉ valid_task_ids) then
           Raise (DependencyAnalysisError
                    (String.append "Invalid dependency: "
                       (String.append (TaskDependency.from_task_id dependency) " not in task list")))
         else if decide (TaskDependency.to_task_id dependency ∉ valid_task_ids) then
           Raise (DependencyAnalysisError
                    (String.append "Invalid dependency: "
                       (String.append (TaskDependency.to_task_id dependency) " not in task list")))
         else Ok ())
       () (DependencyGraph.dependencies dependency_graph);
  acyclic ← DependencyGraph.validate_acyclic dependency_graph;
  if acyclic : bool then Ok ()
  else Raise (CircularDependencyError "Circular dependencies detected in task graph").

(** The body of [analyze_task_dependencies] runs in [try]; the handler
    [except Exception as e] re-raises every exception as
    [DependencyAnalysisError(f"Failed to analyze dependencies: {str(e)}")]. *)
Definition analyze_task_dependencies (tasks : list CompleteTask.t)
    : result DependencyGraph.t :=
  try_except
    (let task_ids := CompleteTask.task_id <$> tasks in
     let explicit_dependencies := _extract_explicit_dependencies tasks in
     let implicit_dependencies := _analyze_implicit_dependencies tasks in
     let all_dependencies := explicit_dependencies ++ implicit_dependencies in
     let dependency_graph := DependencyGraph.mk task_ids all_dependencies in
     _ ← _validate_dependency_graph dependency_graph task_ids;
     Ok dependency_graph)
    (λ e, Raise (DependencyAnalysisError
                   (String.append "Failed to analyze dependencies: " (str_exn e)))).

(** The "build graph" loop of [_generate_execution_layers]: only blocking
    dependencies are counted; [adj_list] is a [defaultdict(list)] and
    [in_degree] a [defaultdict(int)]. *)
Definition build_edge (acc : gmap string (list string) * gmap string Z)
    (dependency : TaskDependency.t) : gmap string (list string) * gmap string Z :=
  if TaskDependency.is_blocking dependency then
    (dl_append acc.1 (TaskDependency.to_task_id dependency)
                     (TaskDependency.from_task_id dependency),
     dd_add acc.2 (TaskDependency.from_task_id dependency) 1)
  else acc.

(** [for dependent_id in adj_list[task_id]: in_degree[dependent_id] -= 1] *)
Definition decrement_dependents (in_degree : gmap string Z) (dependents : list string)
    : gmap string Z :=
  foldl (λ m dependent_id, dd_add m dependent_id (-1)) in_degree dependents.

(** Body of [for task_id in current_layer_tasks]; [set.remove] raises
    [KeyError] on a missing element. *)
Definition remove_layer_task (adj_list : gmap string (list string))
    (st : gset string * gmap string Z) (task_id : string)
    : result (gset string * gmap string Z) :=
  if decide (task_id ∈ st.1)
  then Ok (st.1 ∖ {[task_id]}, decrement_dependents st.2 (dl_get adj_list task_id))
  else Raise (KeyError task_id).

Record layering_state : Type := mk_layering {
  remaining_tasks : gset string;
  in_degree : gmap string Z;
  layers : list ExecutionLayer.t;
  layer_number : Z
}.

(** [current_layer_tasks = [task_id for task_id in remaining_tasks
                           if in_degree[task_id] == 0]] *)
Definition ready_tasks (remaining : gset string) (in_degree : gmap string Z)
    : list string :=
  filter (λ task_id, dd_get in_degree task_id = 0%Z) (elements remaining).

(** One pass of the body of [while remaining_tasks]. *)
Definition layering_step (adj_list : gmap string (list string))
    (task_lookup : gmap string CompleteTask.t) (st : layering_state)
    : result layering_state :=
  let current_layer_tasks := ready_tasks (remaining_tasks st) (in_degree st) in
  match current_layer_tasks with
  | [] => Raise (DependencyAnalysisError
                   "Cannot create execution layers - possible circular dependency")
  | _ =>
      layer_tasks ← list_comp (dict_get task_lookup) current_layer_tasks;
      max_duration ← match layer_tasks with
                     | [] => Ok (Some 0%Z)
                     | _ => py_max (CompleteTask.estimated_duration_minutes <$> layer_tasks)
                     end;
      execution_layer ← ExecutionLayer.new (layer_number st) layer_tasks [] max_duration;
      '(remaining, in_degree) ←
         for_each (remove_layer_task adj_list)
            (remaining_tasks st, in_degree st) current_layer_tasks;
      Ok (mk_layering remaining in_degree (layers st ++ [execution_layer])
            (layer_number st + 1)%Z)
  end.

Fixpoint layering_loop (fuel : nat) (adj_list : gmap string (list string))
    (task_lookup : gmap string CompleteTask.t) (st : layering_state)
    : result (list ExecutionLayer.t) :=
  if decide (remaining_tasks st = ∅) then Ok (layers st)
  else match fuel with
       | O => OutOfFuel
       | S fuel' =>
           st' ← layering_step adj_list task_lookup st;
           layering_loop fuel' adj_list task_lookup st'
       end.

(** [_generate_execution_layers]: Kahn's algorithm, one layer per pass.
    Every pass either raises or removes at least one task, so as many
    passes as there are tasks are enough. *)
Definition _generate_execution_layers (dependency_graph : DependencyGraph.t)
    (task_lookup : gmap string CompleteTask.t) : result (list ExecutionLayer.t) :=
  let in_degree0 : gmap string Z :=
    foldl (λ m task_id, <[task_id := 0%Z]> m) ∅ (DependencyGraph.tasks dependency_graph) in
  let '(adj_list, in_degree) :=
    foldl build_edge (∅, in_degree0) (DependencyGraph.dependencies dependency_graph) in
  let remaining_tasks : gset string := list_to_set (DependencyGraph.tasks dependency_graph) in
  layering_loop (size remaining_tasks) adj_list task_lookup
    (mk_layering remaining_tasks in_degree [] 0%Z).

Definition _calculate_parallelization_factor (execution_layers : list ExecutionLayer.t)
    (total_tasks : Z) : Q :=
  match execution_layers with
  | [] => 0%Q
  | _ =>
      if decide (total_tasks = 0%Z) then 0%Q
      else
        let total_layer_tasks :=
          foldl (λ acc layer, (acc + Z.of_nat (length (ExecutionLayer.tasks layer)))%Z)
                0%Z execution_layers in
        let avg_tasks_per_layer :=
          (inject_Z total_layer_tasks / inject_Z (Z.of_nat (length execution_layers)))%Q in
        if Qle_bool avg_tasks_per_layer (inject_Z total_tasks)
        then avg_tasks_per_layer else inject_Z total_tasks
  end.

Definition _calculate_total_duration (execution_layers : list ExecutionLayer.t) : result Z :=
  py_sum (ExecutionLayer.estimated_duration_minutes <$> execution_layers).

(** [task_lookup = {task.task_id: task for task in tasks}]: a later task
    with the same identifier replaces an earlier one. *)
Definition make_task_lookup (tasks : list CompleteTask.t) : gmap string CompleteTask.t :=
  foldl (λ m task, <[CompleteTask.task_id task := task]> m) ∅ tasks.

Definition create_execution_graph (tasks : list CompleteTask.t)
    (dependency_graph : DependencyGraph.t) : result ExecutionGraph.t :=
  try_except
    (let task_lookup := make_task_lookup tasks in
     execution_layers ← _generate_execution_layers dependency_graph task_lookup;
     let parallelization_factor :=
       _calculate_parallelization_factor execution_layers (Z.of_nat (length tasks)) in
     total_duration ← _calculate_total_duration execution_layers;
     ExecutionGraph_new dependency_graph execution_layers parallelization_factor
       (Some total_duration) (Z.of_nat (length tasks)))
    (λ e, Raise (DependencyAnalysisError
                   (String.append "Failed to create execution graph: " (str_exn e)))).





(** [any(keyword in description.lower() for keyword in ["creat", "writ",
    "implement"])] *)
Definition writes_file (description : string) : bool :=
  any_in ["creat"; "writ"; "implement"] (lower description).

(** An entry of the list that [detect_potential_conflicts] returns; the
    description names [file_path]. *)
Record conflict : Type := mk_conflict {
  conflict_type : string;
  file_path : string;
  conflict_tasks : list string;
  severity : string;
  resolution : string
}.

(** The first loop of [detect_potential_conflicts]: [file_writers]. *)
Definition record_writers (tasks : list CompleteTask.t) : list (string * list string) :=
  foldl (λ file_writers task,
           foldl (λ file_writers entry,
                    if writes_file entry.2
                    then alist_append file_writers entry.1 (CompleteTask.task_id task)
                    else file_writers)
                 file_writers
                 (TaskContext.file_locations (CompleteTask.complete_context task)))
        [] tasks.

Definition detect_potential_conflicts (tasks : list CompleteTask.t) : list conflict :=
  omap (λ '(file_path, writers),
          if decide (1 < length writers)%nat
          then Some (mk_conflict "file_conflict" file_path writers "high"
                       "Add dependency or merge tasks")
          else None)
       (record_writers tasks).


End DependencyAnalyzer.

(* ================================================================== *)
(** * analysis/parallel_optimizer.py                                   *)
(* ================================================================== *)


(** The strategies of the optimizer.  They return the optimized graph with
    a list of log lines, which is left out.  [max_parallel_tasks] is
    [self.constraints["max_parallel_tasks"]]. *)
Module ParallelOptimizer.

(** [_calculate_parallelization_factor]: the mean number of tasks of a
    layer. *)
Definition _calculate_parallelization_factor (layers : list ExecutionLayer.t)
    (total_tasks : Z) : Q :=
  match layers with
  | [] => 0%Q
  | _ =>
      if decide (total_tasks = 0%Z) then 0%Q
      else
        let total_layer_tasks :=
          foldl (λ acc layer, (acc + Z.of_nat (length (ExecutionLayer.tasks layer)))%Z)
                0%Z layers in
        (inject_Z total_layer_tasks / inject_Z (Z.of_nat (length layers)))%Q
  end.


(** [for i, layer in enumerate(layers): layer.layer_number = i] *)
Definition renumber (layers : list ExecutionLayer.t) : list ExecutionLayer.t :=
  imap (λ i layer,
          ExecutionLayer.mk (Z.of_nat i) (ExecutionLayer.tasks layer)
            (ExecutionLayer.dependencies_satisfied layer)
            (ExecutionLayer.estimated_duration_minutes layer)) layers.



(** [_can_merge_layers] answers [True] whatever the layers and the
    dependency graph. *)
Definition _can_merge_layers (layer1 layer2 : ExecutionLayer.t)
    (dependency_graph : DependencyGraph.t) : bool := true.

(** The [while] loop of [_optimize_for_throughput]; [layers] are the layers
    from index [i] on.  An entry of the result is a layer of the input,
    given with its index, or a new merged layer. *)
Fixpoint merge_small_layers (dependency_graph : DependencyGraph.t) (i : nat)
    (layers : list ExecutionLayer.t) : result (list (option nat * ExecutionLayer.t)) :=
  match layers with
  | [] => Ok []
  | current_layer :: rest =>
      match rest with
      | next_layer :: rest' =>
          if bool_decide (length (ExecutionLayer.tasks current_layer) < 3)%nat
             && bool_decide (length (ExecutionLayer.tasks next_layer) < 3)%nat then
            if _can_merge_layers current_layer next_layer dependency_graph then
              let merged_tasks :=
                ExecutionLayer.tasks current_layer ++ ExecutionLayer.tasks next_layer in
              duration1 ← py_max (CompleteTask.estimated_duration_minutes <$>
                                    ExecutionLayer.tasks current_layer);
              duration2 ← py_max (CompleteTask.estimated_duration_minutes <$>
                                    ExecutionLayer.tasks next_layer);
              merged_duration ← py_max [duration1; duration2];
              merged_layer ←
                ExecutionLayer.new (ExecutionLayer.layer_number current_layer) merged_tasks
                  (ExecutionLayer.dependencies_satisfied current_layer ++
                   ExecutionLayer.dependencies_satisfied next_layer) merged_duration;
              merged ← merge_small_layers dependency_graph (S (S i)) rest';
              Ok ((None, merged_layer) :: merged)
            else
              merged ← merge_small_layers dependency_graph (S i) rest;
              Ok ((Some i, current_layer) :: merged)
          else
            merged ← merge_small_layers dependency_graph (S i) rest;
            Ok ((Some i, current_layer) :: merged)
      | [] => Ok [(Some i, current_layer)]
      end
  end.

(** The renumbering loop of [_optimize_for_throughput] writes to the layer
    objects; a layer that was not merged is an object of the input graph,
    which thereby gets the new number as well. *)
Definition renumber_input (merged : list (option nat * ExecutionLayer.t))
    (layers : list ExecutionLayer.t) : list ExecutionLayer.t :=
  foldl (λ layers (p : nat * (option nat * ExecutionLayer.t)),
           match p.2.1 with
           | Some i =>
               alter (λ layer,
                        ExecutionLayer.mk (Z.of_nat p.1) (ExecutionLayer.tasks layer)
                          (ExecutionLayer.dependencies_satisfied layer)
                          (ExecutionLayer.estimated_duration_minutes layer)) i layers
           | None => layers
           end)
        layers (imap (λ position entry, (position, entry)) merged).

(** [_optimize_for_throughput]: what the call returns or raises, and the
    input graph afterwards. *)
Definition _optimize_for_throughput (execution_graph : ExecutionGraph.t)
    : result ExecutionGraph.t * ExecutionGraph.t :=
  match merge_small_layers (ExecutionGraph.dependency_graph execution_graph) 0
          (ExecutionGraph.execution_layers execution_graph) with
  | Ok merged =>
      let merged_layers := renumber merged.*2 in
      let execution_graph' :=
        ExecutionGraph.mk (ExecutionGraph.dependency_graph execution_graph)
          (renumber_input merged (ExecutionGraph.execution_layers execution_graph))
          (ExecutionGraph.total_tasks execution_graph)
          (ExecutionGraph.parallelization_factor execution_graph)
          (ExecutionGraph.total_estimated_duration_minutes execution_graph) in
      let factor :=
        _calculate_parallelization_factor merged_layers
          (ExecutionGraph.total_tasks execution_graph) in
      (total ← py_sum (ExecutionLayer.estimated_duration_minutes <$> merged_layers);
       ExecutionGraph_new (ExecutionGraph.dependency_graph execution_graph) merged_layers
         factor (Some total) (ExecutionGraph.total_tasks execution_graph),
       execution_graph')
  | Raise ex => (Raise ex, execution_graph)
  | OutOfFuel => (OutOfFuel, execution_graph)
  end.
End ParallelOptimizer.

(* ================================================================== *)
(** * models/quality_models.py                                         *)
(* ================================================================== *)

Module QualityGateStatus.
Inductive t : Type := PASSED | FAILED | WARNING | SKIPPED | ERROR.
#[global] Instance eq_dec : EqDecision t.
Proof. solve_decision. Defined.
End QualityGateStatus.

Module TDDValidation.
Record t : Type := mk {
  status : QualityGateStatus.t;
  test_coverage_percentage : Q;
  minimum_coverage_required : Q;   (** default [95.0] *)
  test_count : Z;
  passing_tests : Z;
  failing_tests : Z;
  red_green_refactor_cycle_followed : bool
}.

Definition meets_requirements (self : t) : bool :=
  Qle_bool (minimum_coverage_required self) (test_coverage_percentage self)
  && bool_decide (failing_tests self = 0%Z)
  && bool_decide (0 < test_count self)%Z
  && red_green_refactor_cycle_followed self.
End TDDValidation.

Module SecurityValidation.
Record t : Type := mk {
  status : QualityGateStatus.t;
  vulnerability_scan_passed : bool;
  input_validation_implemented : bool;
  secure_coding_practices_followed : bool;
  high_severity_vulnerabilities : Z;
  medium_severity_vulnerabilities : Z;
  low_severity_vulnerabilities : Z
}.

Definition meets_security_requirements (self : t) : bool :=
  bool_decide (high_severity_vulnerabilities self = 0%Z)
  && vulnerability_scan_passed self
  && input_validation_implemented self
  && secure_coding_practices_followed self.
End SecurityValidation.

(** [sum(l) / len(l)] over rationals, for a non-empty list. *)
Definition Qmean (l : list Q) : Q :=
  (foldl Qplus 0 l / inject_Z (Z.of_nat (length l)))%Q.

Module PerformanceValidation.
Record t : Type := mk {
  status : QualityGateStatus.t;
  benchmark_executed : bool;
  execution_time_seconds : option Q;
  memory_usage_mb : option Q;
  performance_requirements_met : bool
}.

Definition calculate_performance_score (self : t) : Q :=
  let score_factors : list Q :=
    match execution_time_seconds self with
    | Some time =>
        [ if Qle_bool time 1 then 1
          else if Qle_bool time 10 then 8 # 10
          else if Qle_bool time 60 then 6 # 10
          else 4 # 10 ]%Q
    | None => []
    end
    ++
    match memory_usage_mb self with
    | Some mem =>
        [ if Qle_bool mem 100 then 1
          else if Qle_bool mem 500 then 8 # 10
          else if Qle_bool mem 1000 then 6 # 10
          else 4 # 10 ]%Q
    | None => []
    end
    ++
    [ if performance_requirements_met self then 1 else 5 # 10 ]%Q in
  match score_factors with
  | [] => (5 # 10)%Q
  | _ => Qmean score_factors
  end.
End PerformanceValidation.

Module CodeQualityValidation.
Record t : Type := mk {
  status : QualityGateStatus.t;
  static_analysis_passed : bool;
  type_checking_passed : bool;
  linting_passed : bool;
  complexity_score : option Q;
  documentation_coverage_percentage : option Q;
  code_style_violations : Z
}.

Definition calculate_quality_score (self : t) : Q :=
  let score := 0%Q in
  let max_score := 5%Q in
  let score := if static_analysis_passed self then (score + 1)%Q else score in
  let score := if type_checking_passed self then (score + 1)%Q else score in
  let score := if linting_passed self then (score + 1)%Q else score in
  let score :=
    match complexity_score self with
    | Some c =>
        if Qle_bool c 5 then (score + 1)%Q
        else if Qle_bool c 10 then (score + (7 # 10))%Q
        else if Qle_bool c 20 then (score + (4 # 10))%Q
        else (score + (1 # 10))%Q
    | None => score
    end in
  let score :=
    match documentation_coverage_percentage self with
    | Some c =>
        if Qle_bool 80 c then (score + 1)%Q
        else if Qle_bool 60 c then (score + (7 # 10))%Q
        else if Qle_bool 40 c then (score + (4 # 10))%Q
        else (score + (1 # 10))%Q
    | None => score
    end in
  (score / max_score)%Q.

Definition meets_quality_standards (self : t) : bool :=
  static_analysis_passed self
  && type_checking_passed self
  && linting_passed self
  && bool_decide (code_style_violations self = 0%Z).
End CodeQualityValidation.

Module QualityResult.
Record t : Type := mk {
  task_id : string;
  overall_status : QualityGateStatus.t;
  tdd_validation : TDDValidation.t;
  security_validation : SecurityValidation.t;
  performance_validation : PerformanceValidation.t;
  code_quality_validation : CodeQualityValidation.t;
  quality_score : option Q
}.

(** The four component scores of [calculate_overall_quality_score]. *)
Definition tdd_score (self : t) : Q :=
  if TDDValidation.meets_requirements (tdd_validation self) then 1
  else if Qle_bool 80 (TDDValidation.test_coverage_percentage (tdd_validation self))
  then 8 # 10
  else if Qle_bool 60 (TDDValidation.test_coverage_percentage (tdd_validation self))
  then 6 # 10
  else 3 # 10.

Definition security_score (self : t) : Q :=
  if SecurityValidation.meets_security_requirements (security_validation self) then 1
  else if bool_decide
            (SecurityValidation.high_severity_vulnerabilities (security_validation self) = 0%Z)
  then 7 # 10
  else 3 # 10.

Definition performance_score (self : t) : Q :=
  PerformanceValidation.calculate_performance_score (performance_validation self).

Definition code_quality_score (self : t) : Q :=
  CodeQualityValidation.calculate_quality_score (code_quality_validation self).

(** [calculate_overall_quality_score]: stores the score in the object and
    returns it; the pair is the returned value and the object afterwards. *)
Definition calculate_overall_quality_score (self : t) : Q * t :=
  let scores :=
    [tdd_score self; security_score self; performance_score self; code_quality_score self] in
  let score := Qmean scores in
  (score,
   mk (task_id self) (overall_status self) (tdd_validation self) (security_validation self)
      (performance_validation self) (code_quality_validation self) (Some score)).

Definition all_quality_gates_passed (self : t) : bool :=
  TDDValidation.meets_requirements (tdd_validation self)
  && SecurityValidation.meets_security_requirements (security_validation self)
  && PerformanceValidation.performance_requirements_met (performance_validation self)
  && CodeQualityValidation.meets_quality_standards (code_quality_validation self).
End QualityResult.

(* ================================================================== *)
(** * models/result_models.py                                          *)
(* ================================================================== *)

Module TaskExecutionStatus.
Inductive t : Type := PENDING | IN_PROGRESS | COMPLETED | FAILED | CANCELLED | RETRYING.
#[global] Instance eq_dec : EqDecision t.
Proof. solve_decision. Defined.
End TaskExecutionStatus.

(** The two shapes of [TaskResult.error_details] that the orchestrator
    writes: [{"error": str(e)}] and
    [{"type": "quality_gate_failure", "failed_gates": [...]}]. *)
Inductive error_details : Type :=
| error_dict (error : string)
| gate_failure_dict (type : string) (failed_gates : list string).

Module TaskResult.
Record t : Type := mk {
  task_id : string;
  status : TaskExecutionStatus.t;
  agent_id : option string;
  implementation_artifacts : list string;
  test_artifacts : list string;
  documentation_artifacts : list string;
  implementation_summary : option string;
  quality_validation : option QualityResult.t;
  error_details : option error_details
}.

Definition is_successful (self : t) : bool :=
  bool_decide (status self = TaskExecutionStatus.COMPLETED)
  && match quality_validation self with
     | None => true
     | Some q => QualityResult.all_quality_gates_passed q
     end.
End TaskResult.

Module ValidationResult.
Record t : Type := mk {
  validation_type : string;
  success : bool;
  issues : list string
}.

End ValidationResult.

Module ExecutionResult.
(** [parallel_execution_stats] as [_create_execution_result] fills it. *)
Record stats : Type := mk_stats {
  total_layers : Z;
  stats_parallelization_factor : Q;
  average_tasks_per_layer : Q
}.

Record t : Type := mk {
  execution_id : string;
  total_tasks : Z;
  successful_tasks : Z;
  failed_tasks : Z;
  cancelled_tasks : Z;
  task_results : list TaskResult.t;
  parallel_execution_stats : option stats;
  error_summary : list string
}.

(** The constructor with the validation of the model: [total_tasks > 0];
    each count is [>= 0] and does not exceed [total_tasks]. *)
Definition new (execution_id : string) (total_tasks successful_tasks failed_tasks
    cancelled_tasks : Z) (task_results : list TaskResult.t)
    (parallel_execution_stats : option stats) (error_summary : list string) : result t :=
  if decide (total_tasks ≤ 0)%Z then
    Raise (ValidationError "total_tasks: ensure this value is greater than 0")
  else if decide (successful_tasks < 0 ∨ failed_tasks < 0 ∨ cancelled_tasks < 0)%Z then
    Raise (ValidationError "ensure this value is greater than or equal to 0")
  else if decide (total_tasks < successful_tasks ∨ total_tasks < failed_tasks ∨
                  total_tasks < cancelled_tasks)%Z then
    Raise (ValidationError "Task count cannot exceed total tasks")
  else Ok (mk execution_id total_tasks successful_tasks failed_tasks cancelled_tasks
              task_results parallel_execution_stats error_summary).

(** [sum(1 for x in l if p(x))] *)
Definition count_if {A : Type} (p : A → bool) (l : list A) : Z :=
  Z.of_nat (length (List.filter p l)).


Definition is_successful (self : t) : bool :=
  bool_decide (failed_tasks self = 0%Z)
  && bool_decide (successful_tasks self = total_tasks self)
  && bool_decide (length (error_summary self) = 0%nat).


(** The dict under the key ["quality_distribution"]. *)
Record quality_distribution : Type := mk_quality_distribution {
  excellent : Z;
  good : Z;
  fair : Z;
  poor : Z
}.

(** The dict that [generate_quality_summary] stores and returns. *)
Record quality_summary : Type := mk_quality_summary {
  total_tasks_with_quality_validation : Z;
  average_quality_score : Q;
  all_quality_gates_pass_rate : Q;
  tdd_pass_rate : Q;
  security_pass_rate : Q;
  tasks_with_all_gates_passed : Z;
  distribution : quality_distribution
}.

(** [qr.calculate_overall_quality_score()] as a value. *)
Definition overall_score (qr : QualityResult.t) : Q :=
  (QualityResult.calculate_overall_quality_score qr).1.

(** [generate_quality_summary]; [round3 x] stands for [round(x, 3)].  The
    first component is [None] for the dict
    [{"message": "No quality validation results available"}]; the second is
    the object afterwards, in which every quality result has its score
    stored. *)
Definition generate_quality_summary (round3 : Q → Q) (self : t)
    : option quality_summary * t :=
  let quality_results := omap TaskResult.quality_validation (task_results self) in
  match quality_results with
  | [] => (None, self)
  | _ =>
      let n := inject_Z (Z.of_nat (length quality_results)) in
      let total_quality_score := foldl Qplus 0%Q (overall_score <$> quality_results) in
      let avg_quality_score := (total_quality_score / n)%Q in
      let tdd_pass_rate :=
        (inject_Z (count_if (λ qr, TDDValidation.meets_requirements
                                     (QualityResult.tdd_validation qr)) quality_results) / n)%Q in
      let security_pass_rate :=
        (inject_Z (count_if (λ qr, SecurityValidation.meets_security_requirements
                                     (QualityResult.security_validation qr))
                     quality_results) / n)%Q in
      let all_gates_passed :=
        count_if QualityResult.all_quality_gates_passed quality_results in
      let all_gates_pass_rate := (inject_Z all_gates_passed / n)%Q in
      (Some (mk_quality_summary (Z.of_nat (length quality_results))
               (round3 avg_quality_score) (round3 all_gates_pass_rate)
               (round3 tdd_pass_rate) (round3 security_pass_rate) all_gates_passed
               (mk_quality_distribution
                  (count_if (λ qr, Qle_bool (9 # 10) (overall_score qr)) quality_results)
                  (count_if (λ qr, Qle_bool (7 # 10) (overall_score qr)
                                   && negb (Qle_bool (9 # 10) (overall_score qr)))
                     quality_results)
                  (count_if (λ qr, Qle_bool (5 # 10) (overall_score qr)
                                   && negb (Qle_bool (7 # 10) (overall_score qr)))
                     quality_results)
                  (count_if (λ qr, negb (Qle_bool (5 # 10) (overall_score qr)))
                     quality_results))),
       mk (execution_id self) (total_tasks self) (successful_tasks self) (failed_tasks self)
          (cancelled_tasks self)
          ((λ task,
              TaskResult.mk (TaskResult.task_id task) (TaskResult.status task)
                (TaskResult.agent_id task) (TaskResult.implementation_artifacts task)
                (TaskResult.test_artifacts task) (TaskResult.documentation_artifacts task)
                (TaskResult.implementation_summary task)
                ((λ qr, (QualityResult.calculate_overall_quality_score qr).2) <$>
                   TaskResult.quality_validation task)
                (TaskResult.error_details task)) <$> task_results self)
          (parallel_execution_stats self) (error_summary self))
  end.

End ExecutionResult.

(* ================================================================== *)
(** * execution/quality_gate_engine.py                                 *)
(* ================================================================== *)

(** What a worker returns from [execute_task]: the keys of the dict that
    the orchestrator and the validators read, with the defaults of their
    [.get] calls for a missing key. *)
Module ExecutionReport.
Record t : Type := mk {
  success : bool;                      (** [.get("success", False)] *)
  error : option string;               (** [.get("error", "Unknown error")] *)
  implementation : list string;        (** [artifacts.implementation] *)
  tests : list string;                 (** [artifacts.tests] *)
  documentation : list string;         (** [artifacts.documentation] *)
  summary : string                     (** [.get("summary", "")] *)
}.
End ExecutionReport.

Module QualityGateEngine.
(** The four validators run external tools (test runner, scanners,
    benchmarks) and catch their own exceptions; what they report for a task
    is given. *)
Record validators : Type := mk_validators {
  _validate_tdd_compliance :
    CompleteTask.t → TaskResult.t → ExecutionReport.t → TDDValidation.t;
  _validate_security_requirements :
    CompleteTask.t → TaskResult.t → ExecutionReport.t → SecurityValidation.t;
  _validate_performance_requirements :
    CompleteTask.t → TaskResult.t → ExecutionReport.t → PerformanceValidation.t;
  _validate_code_quality_standards :
    CompleteTask.t → TaskResult.t → ExecutionReport.t → CodeQualityValidation.t
}.

Definition validate_task_quality (v : validators) (task : CompleteTask.t)
    (task_result : TaskResult.t) (execution_result : ExecutionReport.t)
    : result QualityResult.t :=
  try_except
    (let overall_status := QualityGateStatus.PASSED in
     let tdd_validation := _validate_tdd_compliance v task task_result execution_result in
     let overall_status :=
       if decide (TDDValidation.status tdd_validation = QualityGateStatus.FAILED)
       then QualityGateStatus.FAILED else overall_status in
     let security_validation :=
       _validate_security_requirements v task task_result execution_result in
     let overall_status :=
       if decide (SecurityValidation.status security_validation = QualityGateStatus.FAILED)
       then QualityGateStatus.FAILED else overall_status in
     let performance_validation :=
       _validate_performance_requirements v task task_result execution_result in
     let overall_status :=
       if decide (PerformanceValidation.status performance_validation = QualityGateStatus.FAILED)
       then QualityGateStatus.FAILED else overall_status in
     let code_quality_validation :=
       _validate_code_quality_standards v task task_result execution_result in
     let overall_status :=
       if decide (CodeQualityValidation.status code_quality_validation = QualityGateStatus.FAILED)
       then QualityGateStatus.FAILED else overall_status in
     let quality_result :=
       QualityResult.mk (CompleteTask.task_id task) overall_status tdd_validation
         security_validation performance_validation code_quality_validation None in
     Ok (QualityResult.calculate_overall_quality_score quality_result).2)
    (λ e, Raise (QualityGateError
                   (String.append "Quality validation failed: " (str_exn e)))).
End QualityGateEngine.

(** ** The TDD validator and the critical issues

    [_validate_tdd_compliance] as the engine implements it, with the helper
    methods it calls. *)
Module QualityGateChecks.
(** The keys of the dict of [_run_pytest] that the validator reads, with the
    defaults of its [.get] calls. *)
Record test_results : Type := mk_test_results {
  total_tests : Z;
  passing_tests : Z;
  failing_tests : Z
}.

(** [_run_pytest]: whatever the subprocess reports, the returned figures are
    10 tests, 8 passing, 2 failing; when starting or awaiting the subprocess
    raises, the dict is [{"error": str(e)}], in which every key the
    validator reads is missing.  [subprocess] is the outcome of the
    subprocess calls. *)
Definition _run_pytest (subprocess : outcome unit) : test_results :=
  match subprocess with
  | Returns _ => mk_test_results 10 8 2
  | Raises _ => mk_test_results 0 0 0
  end.

Definition _run_tests (test_files : list string) (framework : string)
    (subprocess : outcome unit) : option test_results :=
  match test_files with
  | [] => None
  | _ =>
      if decide (lower framework = "pytest") then Some (_run_pytest subprocess)
      else None
  end.

Record coverage_results : Type := mk_coverage_results {
  coverage_percentage : Q;
  total_lines : Z;
  covered_lines : Z
}.

Definition _analyze_test_coverage (implementation_files test_files : list string)
    : option coverage_results :=
  Some (mk_coverage_results (855 # 10) 200 171).

Definition _validate_tdd_process (task : CompleteTask.t)
    (execution_result : ExecutionReport.t) : bool := true.

(** What the validator reads from the task besides the modelled
    attributes.  [tdd_requirements] is a [Dict[str, Any]]: the two entries
    are given by what the constructor of [TDDValidation] receives for them,
    a value of the field's type or the exception raised on the way. *)
Record tdd_inputs : Type := mk_tdd_inputs {
  (** [tdd_requirements.get("minimum_coverage", 0.95) * 100] as a float *)
  minimum_coverage : outcome Q;
  (** [tdd_requirements.get("red_green_refactor", True)] as a bool *)
  red_green_refactor : outcome bool;
  (** [tdd_specifications.test_framework] *)
  test_framework : string;
  (** the subprocess calls of [_run_pytest] *)
  subprocess : outcome unit
}.

Definition returned {A : Type} (o : outcome A) : result A :=
  match o with
  | Returns a => Ok a
  | Raises e => Raise e
  end.

(** [_validate_tdd_compliance].  Every exception of the body yields the
    validation with status [ERROR], in which all other fields have their
    defaults. *)
Definition _validate_tdd_compliance (inputs : tdd_inputs) (task : CompleteTask.t)
    (task_result : TaskResult.t) (execution_result : ExecutionReport.t) : TDDValidation.t :=
  let body : result TDDValidation.t :=
    minimum_coverage_required ← returned (minimum_coverage inputs);
    red_green_refactor ← returned (red_green_refactor inputs);
    if negb (Qle_bool 0 minimum_coverage_required && Qle_bool minimum_coverage_required 100)
    then Raise (ValidationError "minimum_coverage_required")
    else
      let test_files := TaskResult.test_artifacts task_result in
      match test_files with
      | [] =>
          Ok (TDDValidation.mk QualityGateStatus.FAILED 0 minimum_coverage_required 0 0 0
                red_green_refactor)
      | _ =>
          let tdd_validation :=
            TDDValidation.mk QualityGateStatus.PASSED 0 minimum_coverage_required 0 0 0
              red_green_refactor in
          let tdd_validation :=
            match _run_tests test_files (test_framework inputs) (subprocess inputs) with
            | Some r =>
                TDDValidation.mk
                  (if decide (0 < failing_tests r)%Z then QualityGateStatus.FAILED
                   else TDDValidation.status tdd_validation)
                  (TDDValidation.test_coverage_percentage tdd_validation)
                  (TDDValidation.minimum_coverage_required tdd_validation)
                  (total_tests r) (passing_tests r) (failing_tests r)
                  (TDDValidation.red_green_refactor_cycle_followed tdd_validation)
            | None => tdd_validation
            end in
          let tdd_validation :=
            match _analyze_test_coverage (TaskResult.implementation_artifacts task_result)
                    test_files with
            | Some c =>
                TDDValidation.mk
                  (if Qle_bool (TDDValidation.minimum_coverage_required tdd_validation)
                        (coverage_percentage c)
                   then TDDValidation.status tdd_validation
                   else QualityGateStatus.FAILED)
                  (coverage_percentage c)
                  (TDDValidation.minimum_coverage_required tdd_validation)
                  (TDDValidation.test_count tdd_validation)
                  (TDDValidation.passing_tests tdd_validation)
                  (TDDValidation.failing_tests tdd_validation)
                  (TDDValidation.red_green_refactor_cycle_followed tdd_validation)
            | None => tdd_validation
            end in
          let tdd_validation :=
            if negb (_validate_tdd_process task execution_result) then
              TDDValidation.mk (TDDValidation.status tdd_validation)
                (TDDValidation.test_coverage_percentage tdd_validation)
                (TDDValidation.minimum_coverage_required tdd_validation)
                (TDDValidation.test_count tdd_validation)
                (TDDValidation.passing_tests tdd_validation)
                (TDDValidation.failing_tests tdd_validation) false
            else tdd_validation in
          Ok tdd_validation
      end in
  match body with
  | Ok tdd_validation => tdd_validation
  | _ => TDDValidation.mk QualityGateStatus.ERROR 0 95 0 0 0 false
  end.

(** [_identify_critical_issues] *)
Definition _identify_critical_issues (tdd : TDDValidation.t) (security : SecurityValidation.t)
    (performance : PerformanceValidation.t) (code_quality : CodeQualityValidation.t)
    : list string :=
  (if decide (0 < TDDValidation.failing_tests tdd)%Z
   then [String.append (pretty (TDDValidation.failing_tests tdd)) " tests are failing"]
   else []) ++
  (if decide (0 < SecurityValidation.high_severity_vulnerabilities security)%Z
   then [String.append (pretty (SecurityValidation.high_severity_vulnerabilities security))
           " high-severity security vulnerabilities"]
   else []) ++
  (if negb (PerformanceValidation.performance_requirements_met performance)
   then ["Performance requirements not met"] else []) ++
  (if negb (CodeQualityValidation.static_analysis_passed code_quality)
   then ["Static analysis failed"] else []).
End QualityGateChecks.

(* ================================================================== *)
(** * execution/agent_coordinator.py                                   *)
(* ================================================================== *)

Module AgentState.
Inductive t : Type := INITIALIZING | IDLE | BUSY | PAUSED | ERROR | SHUTDOWN.
#[global] Instance eq_dec : EqDecision t.
Proof. solve_decision. Defined.
End AgentState.

Module ExecutionAgent.
Record t : Type := mk {
  agent_id : string;
  state : AgentState.t;
  current_tasks : gset string;
  (** [capabilities.max_concurrent_tasks] *)
  max_concurrent_tasks : Z
}.

Definition is_available (self : t) : bool :=
  bool_decide (state self = AgentState.IDLE)
  && bool_decide (Z.of_nat (size (current_tasks self)) < max_concurrent_tasks self)%Z.

Definition get_load_factor (self : t) : Q :=
  if decide (max_concurrent_tasks self = 0%Z) then 1%Q
  else (inject_Z (Z.of_nat (size (current_tasks self)))
        / inject_Z (max_concurrent_tasks self))%Q.
End ExecutionAgent.

Module DevelopmentAgent.
(** [DevelopmentAgent(agent_id, mcp_manager)] followed by [initialize()]:
    capacity one, state [IDLE], no task. *)
Definition new (agent_id : string) : ExecutionAgent.t :=
  ExecutionAgent.mk agent_id AgentState.IDLE ∅ 1.

Definition validate_task_compatibility (task : CompleteTask.t) : bool :=
  let title_lower := lower (CompleteTask.title task) in
  let background_lower :=
    lower (TaskContext.project_background (CompleteTask.complete_context task)) in
  existsb (λ keyword, str_in keyword title_lower || str_in keyword background_lower)
    ["implement"; "develop"; "create"; "build"; "code"; "model"; "api"].

(** [execute_task] up to its first suspension point: the compatibility
    check, then [state = BUSY] and [current_tasks.add(task_id)]. *)
Definition execute_task_begin (self : ExecutionAgent.t) (task : CompleteTask.t)
    : result ExecutionAgent.t :=
  if validate_task_compatibility task then
    Ok (ExecutionAgent.mk (ExecutionAgent.agent_id self) AgentState.BUSY
          (ExecutionAgent.current_tasks self ∪ {[CompleteTask.task_id task]})
          (ExecutionAgent.max_concurrent_tasks self))
  else Raise (ValueError "Task not compatible with development agent").

(** The [finally] block of [execute_task]: [state = IDLE] and
    [current_tasks.discard(task_id)]. *)
Definition execute_task_end (self : ExecutionAgent.t) (task_id : string)
    : ExecutionAgent.t :=
  ExecutionAgent.mk (ExecutionAgent.agent_id self) AgentState.IDLE
    (ExecutionAgent.current_tasks self ∖ {[task_id]})
    (ExecutionAgent.max_concurrent_tasks self).
End DevelopmentAgent.

(** [min(l, key=key)] on a non-empty list: the first item with the least
    key. *)
Definition py_min_by {A : Type} (key : A → Q) (first : A) (rest : list A) : A :=
  foldl (λ best a, if Qlt_le_dec (key a) (key best) then a else best) first rest.

Module AgentCoordinator.
Record t : Type := mk {
  (** [Dict[str, ExecutionAgent]] in insertion order *)
  agents : list (string * ExecutionAgent.t);
  (** session_id ↦ agent_id *)
  agent_assignment : gmap string string;
  (** agent_id ↦ set of session ids *)
  agent_sessions : gmap string (gset string)
}.

(** [initialize_agent_pool]: agents [dev_agent_0 .. dev_agent_{n-1}]. *)
Definition initialize_agent_pool (max_agents : nat) : t :=
  foldl (λ self i,
           let agent_id := String.append "dev_agent_" (pretty i) in
           mk (alist_set (agents self) agent_id (DevelopmentAgent.new agent_id))
              (agent_assignment self)
              (<[agent_id := ∅]> (agent_sessions self)))
        (mk [] ∅ ∅) (seq 0 max_agents).

Definition _find_best_agent (self : t) : option ExecutionAgent.t :=
  let available_agents := List.filter ExecutionAgent.is_available ((agents self).*2) in
  match available_agents with
  | [] => None
  | first :: rest => Some (py_min_by ExecutionAgent.get_load_factor first rest)
  end.

(** [acquire_agent], the body of its [async with self._coordination_lock]
    block as one step on the coordinator: the returned value or raised
    exception, and the coordinator afterwards. *)
Definition acquire_agent (self : t) (session_id : string) : result ExecutionAgent.t * t :=
  match _find_best_agent self with
  | None => (Raise (AgentCoordinationError "No agents available for task execution"), self)
  | Some best_agent =>
      let assignment := <[session_id := ExecutionAgent.agent_id best_agent]> (agent_assignment self) in
      match agent_sessions self !! ExecutionAgent.agent_id best_agent with
      | None => (Raise (KeyError (ExecutionAgent.agent_id best_agent)),
                 mk (agents self) assignment (agent_sessions self))
      | Some sessions =>
          (Ok best_agent,
           mk (agents self) assignment
              (<[ExecutionAgent.agent_id best_agent := sessions ∪ {[session_id]}]>
                 (agent_sessions self)))
      end
  end.

Definition release_agent (self : t) (agent_id session_id : string) : t :=
  mk (agents self)
     (delete session_id (agent_assignment self))
     (match agent_sessions self !! agent_id with
      | Some sessions => <[agent_id := sessions ∖ {[session_id]}]> (agent_sessions self)
      | None => agent_sessions self
      end).

(** Apply [f] to the agent object stored under [agent_id]. *)
Definition update_agent (self : t) (agent_id : string)
    (f : ExecutionAgent.t → ExecutionAgent.t) : t :=
  mk ((λ '(id, a), (id, if decide (id = agent_id) then f a else a)) <$> agents self)
     (agent_assignment self) (agent_sessions self).

Definition get_agent (self : t) (agent_id : string) : option ExecutionAgent.t :=
  snd <$> List.find (λ p, bool_decide (p.1 = agent_id)) (agents self).

(** [pause_all_tasks]: the agent assigned to the session becomes [PAUSED],
    when the session has an assignment and the agent is in the pool. *)
Definition pause_all_tasks (self : t) (session_id : string) : t :=
  match agent_assignment self !! session_id with
  | Some agent_id =>
      update_agent self agent_id
        (λ agent, ExecutionAgent.mk (ExecutionAgent.agent_id agent) AgentState.PAUSED
                    (ExecutionAgent.current_tasks agent)
                    (ExecutionAgent.max_concurrent_tasks agent))
  | None => self
  end.

(** [cancel_all_tasks]: [current_tasks.clear()] and [state = IDLE] on the
    agent assigned to the session. *)
Definition cancel_all_tasks (self : t) (session_id : string) : t :=
  match agent_assignment self !! session_id with
  | Some agent_id =>
      update_agent self agent_id
        (λ agent, ExecutionAgent.mk (ExecutionAgent.agent_id agent) AgentState.IDLE ∅
                    (ExecutionAgent.max_concurrent_tasks agent))
  | None => self
  end.

(** [cleanup_session] *)
Definition cleanup_session (self : t) (session_id : string) : t :=
  match agent_assignment self !! session_id with
  | Some agent_id =>
      mk (agents self)
         (delete session_id (agent_assignment self))
         (match agent_sessions self !! agent_id with
          | Some sessions => <[agent_id := sessions ∖ {[session_id]}]> (agent_sessions self)
          | None => agent_sessions self
          end)
  | None => self
  end.

(** [shutdown_all_agents]: the exceptions of [agent.shutdown()] are collected
    by [gather] and dropped; the three dicts are cleared. *)
Definition shutdown_all_agents (self : t) : t := mk [] ∅ ∅.

End AgentCoordinator.

(** ** Operations on the worker pool

    The events that change the pool while sessions run: an acquisition, the
    start of [execute_task] on an agent (up to its first suspension point),
    its end (the [finally] block), and a release. *)
Inductive pool_op : Type :=
| op_acquire (session_id : string)
| op_execute_begin (agent_id : string) (task : CompleteTask.t)
| op_execute_end (agent_id : string) (task_id : string)
| op_release (agent_id session_id : string)
(** [_execute_single_task] from [acquire_agent] to the first suspension
    point of [execute_task]: no [await] in between yields control, so the
    acquired agent starts the task in the same step; when the task is not
    compatible, [execute_task] raises and the agent is released. *)
| op_acquire_and_start (session_id : string) (task : CompleteTask.t).

Definition pool_step (pool : AgentCoordinator.t) (op : pool_op) : AgentCoordinator.t :=
  match op with
  | op_acquire session_id => (AgentCoordinator.acquire_agent pool session_id).2
  | op_execute_begin agent_id task =>
      AgentCoordinator.update_agent pool agent_id
        (λ a, match DevelopmentAgent.execute_task_begin a task with
              | Ok a' => a'
              | _ => a
              end)
  | op_execute_end agent_id task_id =>
      AgentCoordinator.update_agent pool agent_id
        (λ a, DevelopmentAgent.execute_task_end a task_id)
  | op_release agent_id session_id => AgentCoordinator.release_agent pool agent_id session_id
  | op_acquire_and_start session_id task =>
      match AgentCoordinator.acquire_agent pool session_id with
      | (Ok agent, pool') =>
          match DevelopmentAgent.execute_task_begin agent task with
          | Ok _ =>
              AgentCoordinator.update_agent pool' (ExecutionAgent.agent_id agent)
                (λ a, match DevelopmentAgent.execute_task_begin a task with
                      | Ok a' => a'
                      | _ => a
                      end)
          | _ => AgentCoordinator.release_agent pool' (ExecutionAgent.agent_id agent) session_id
          end
      | (_, pool') => pool'
      end
  end.

(** An operation of the orchestrator's discipline: a worker starts a task
    only in the step in which it was acquired. *)
Definition disciplined (op : pool_op) : bool :=
  match op with
  | op_acquire_and_start _ _ | op_execute_end _ _ | op_release _ _ => true
  | op_acquire _ | op_execute_begin _ _ => false
  end.

Definition run_pool (pool : AgentCoordinator.t) (ops : list pool_op) : AgentCoordinator.t :=
  foldl pool_step pool ops.

(* ================================================================== *)
(** * execution/parallel_orchestrator.py                               *)
(* ================================================================== *)

Module OrchestrationState.
Inductive t : Type :=
  INITIALIZING | READY | EXECUTING | PAUSED | COMPLETED | FAILED | CANCELLED.
#[global] Instance eq_dec : EqDecision t.
Proof. solve_decision. Defined.
End OrchestrationState.

(** The calls of [_fire_event], recorded in order.  The callbacks
    themselves are external and their exceptions are swallowed. *)
Inductive event : Type :=
| session_started
| layer_started (layer_number : Z)
| task_started (task_id : string)
| task_completed (task_id : string)
| task_failed (task_id : string)
| layer_completed (layer_number : Z)
| session_completed
| session_failed.

Module ExecutionSession.
Record t : Type := mk {
  session_id : string;
  execution_graph : ExecutionGraph.t;
  current_layer : Z;
  state : OrchestrationState.t;
  completed_tasks : gset string;
  failed_tasks : gset string;
  running_tasks : gset string;
  task_results : gmap string TaskResult.t;
  (** the events fired so far, oldest first *)
  events : list event
}.

Definition set_state (s : t) (st : OrchestrationState.t) : t :=
  mk (session_id s) (execution_graph s) (current_layer s) st (completed_tasks s)
     (failed_tasks s) (running_tasks s) (task_results s) (events s).

Definition set_current_layer (s : t) (i : Z) : t :=
  mk (session_id s) (execution_graph s) i (state s) (completed_tasks s)
     (failed_tasks s) (running_tasks s) (task_results s) (events s).

Definition fire (s : t) (e : event) : t :=
  mk (session_id s) (execution_graph s) (current_layer s) (state s) (completed_tasks s)
     (failed_tasks s) (running_tasks s) (task_results s) (events s ++ [e]).

(** [running_tasks.add(task_id)] *)
Definition mark_running (s : t) (task_id : string) : t :=
  mk (session_id s) (execution_graph s) (current_layer s) (state s) (completed_tasks s)
     (failed_tasks s) (running_tasks s ∪ {[task_id]}) (task_results s) (events s).

(** [running_tasks.discard(id)]; [completed_tasks.add(id)] or
    [failed_tasks.add(id)]; [task_results[id] = r] *)
Definition record (s : t) (task_id : string) (successful : bool) (r : TaskResult.t) : t :=
  mk (session_id s) (execution_graph s) (current_layer s) (state s)
     (if successful then completed_tasks s ∪ {[task_id]} else completed_tasks s)
     (if successful then failed_tasks s else failed_tasks s ∪ {[task_id]})
     (running_tasks s ∖ {[task_id]})
     (<[task_id := r]> (task_results s))
     (events s).
End ExecutionSession.

Module Orchestrator.
(** The collaborators of the orchestrator.  A layer's coroutines interleave
    only at the awaits of these external calls, and each coroutine touches
    only the session entries of its own task; what the pool and the worker
    answer to a task is therefore given per task, and a layer is run in
    list order. *)
Record env : Type := mk_env {
  (** the constructor flag [quality_enforcement] *)
  quality_enforcement : bool;
  (** outcome of [agent_coordinator.acquire_agent(session_id)] when the
      task asks for a worker: the agent's id, or the exception *)
  acquire_agent : CompleteTask.t → outcome string;
  (** outcome of [agent.execute_task(task)] on that agent *)
  execute_task : string → CompleteTask.t → outcome ExecutionReport.t;
  validators : QualityGateEngine.validators;
  (** outcome of [execution_monitor.start_session_monitoring(session)] *)
  start_session_monitoring : outcome unit
}.

(** The names of the gates that did not pass, in the order of the dict
    literal [{"tdd": .., "security": .., "performance": ..,
    "code_quality": ..}]. *)
Definition failed_gates (quality_result : QualityResult.t) : list string :=
  (λ p : string * bool, p.1) <$>
  List.filter (λ p : string * bool, negb p.2)
    [ ("tdd", TDDValidation.meets_requirements (QualityResult.tdd_validation quality_result));
      ("security", SecurityValidation.meets_security_requirements
                     (QualityResult.security_validation quality_result));
      ("performance", PerformanceValidation.performance_requirements_met
                        (QualityResult.performance_validation quality_result));
      ("code_quality", CodeQualityValidation.meets_quality_standards
                         (QualityResult.code_quality_validation quality_result)) ].

(** The [TaskResult] created after the worker reported success. *)
Definition completed_task_result (task : CompleteTask.t) (agent_id : string)
    (execution_result : ExecutionReport.t) : TaskResult.t :=
  TaskResult.mk (CompleteTask.task_id task) TaskExecutionStatus.COMPLETED
    (Some agent_id)
    (ExecutionReport.implementation execution_result)
    (ExecutionReport.tests execution_result)
    (ExecutionReport.documentation execution_result)
    (Some (ExecutionReport.summary execution_result)) None None.

(** The [try] block of [_execute_single_task].  An exception can only
    leave it before the session is updated (the [task_started] event
    apart); the [finally] that releases the agent does not touch the
    session. *)
Definition _execute_single_task_body (e : env) (session : ExecutionSession.t)
    (task : CompleteTask.t) : result TaskResult.t * ExecutionSession.t :=
  let session := ExecutionSession.fire session (task_started (CompleteTask.task_id task)) in
  match acquire_agent e task with
  | Raises ex => (Raise ex, session)
  | Returns agent_id =>
      match execute_task e agent_id task with
      | Raises ex => (Raise ex, session)
      | Returns execution_result =>
          if negb (ExecutionReport.success execution_result) then
            (Raise (Exception_
                      (String.append "Task execution failed: "
                         (default "Unknown error" (ExecutionReport.error execution_result)))),
             session)
          else
            let task_result := completed_task_result task agent_id execution_result in
            let checked : result TaskResult.t :=
              if quality_enforcement e then
                quality_result ← QualityGateEngine.validate_task_quality (validators e)
                                   task task_result execution_result;
                let task_result :=
                  TaskResult.mk (TaskResult.task_id task_result) (TaskResult.status task_result)
                    (TaskResult.agent_id task_result)
                    (TaskResult.implementation_artifacts task_result)
                    (TaskResult.test_artifacts task_result)
                    (TaskResult.documentation_artifacts task_result)
                    (TaskResult.implementation_summary task_result)
                    (Some quality_result) None in
                if negb (QualityResult.all_quality_gates_passed quality_result) then
                  Ok (TaskResult.mk (TaskResult.task_id task_result) TaskExecutionStatus.FAILED
                        (TaskResult.agent_id task_result)
                        (TaskResult.implementation_artifacts task_result)
                        (TaskResult.test_artifacts task_result)
                        (TaskResult.documentation_artifacts task_result)
                        (TaskResult.implementation_summary task_result)
                        (Some quality_result)
                        (Some (gate_failure_dict "quality_gate_failure"
                                 (failed_gates quality_result))))
                else Ok task_result
              else Ok task_result in
            match checked with
            | Raise ex => (Raise ex, session)
            | OutOfFuel => (OutOfFuel, session)
            | Ok task_result =>
                let successful := TaskResult.is_successful task_result in
                let session :=
                  ExecutionSession.record session (CompleteTask.task_id task) successful
                    task_result in
                let session :=
                  ExecutionSession.fire session
                    (if successful then task_completed (CompleteTask.task_id task)
                     else task_failed (CompleteTask.task_id task)) in
                (Ok task_result, session)
            end
      end
  end.

(** [_execute_single_task]: the handler [except Exception as e] turns every
    exception of the body into a failed result of this task. *)
Definition _execute_single_task (e : env) (session : ExecutionSession.t)
    (task : CompleteTask.t) : result TaskResult.t * ExecutionSession.t :=
  match _execute_single_task_body e session task with
  | (Raise ex, session) =>
      let failed_result :=
        TaskResult.mk (CompleteTask.task_id task) TaskExecutionStatus.FAILED
          (Some "unknown") [] [] [] None None (Some (error_dict (str_exn ex))) in
      let session :=
        ExecutionSession.record session (CompleteTask.task_id task) false failed_result in
      let session := ExecutionSession.fire session (task_failed (CompleteTask.task_id task)) in
      (Ok failed_result, session)
  | r => r
  end.

Definition _verify_layer_dependencies (session : ExecutionSession.t)
    (layer : ExecutionLayer.t) : result unit :=
  for_each (λ (_ : unit) task,
    for_each (λ (_ : unit) dep_id,
      if decide (dep_id ∉ ExecutionSession.completed_tasks session) then
        Raise (ParallelExecutionError
                 (String.append "Dependency not satisfied: task "
                    (String.append (CompleteTask.task_id task)
                       (String.append " depends on "
                          (String.append dep_id " which has not completed successfully")))))
      else Ok ())
    () (CompleteTask.depends_on task))
  () (ExecutionLayer.tasks layer).

(** [asyncio.gather] with [return_exceptions=True]: every
    coroutine is run; an exception it raises becomes its entry of the
    result list. *)
Fixpoint gather (e : env) (session : ExecutionSession.t) (launched : list CompleteTask.t)
    : list (result TaskResult.t) * ExecutionSession.t :=
  match launched with
  | [] => ([], session)
  | task :: launched' =>
      let '(r, session) := _execute_single_task e session task in
      let '(rs, session) := gather e session launched' in
      (r :: rs, session)
  end.

(** The tasks of a layer that get a coroutine. *)
Definition launched_tasks (session : ExecutionSession.t) (layer : ExecutionLayer.t)
    : list CompleteTask.t :=
  List.filter (λ task, bool_decide (CompleteTask.task_id task ∉
                                     ExecutionSession.completed_tasks session))
    (ExecutionLayer.tasks layer).

Definition _execute_layer (e : env) (session : ExecutionSession.t)
    (layer : ExecutionLayer.t) : result (list TaskResult.t) * ExecutionSession.t :=
  match _verify_layer_dependencies session layer with
  | Raise ex => (Raise ex, session)
  | OutOfFuel => (OutOfFuel, session)
  | Ok _ =>
      let launched := launched_tasks session layer in
      let session :=
        foldl (λ s task, ExecutionSession.mark_running s (CompleteTask.task_id task))
              session launched in
      let '(layer_results, session) := gather e session launched in
      (list_comp (λ '(i, r),
         match r with
         | Ok task_result => Ok task_result
         | Raise ex =>
             match ExecutionLayer.tasks layer !! i with
             | Some task =>
                 Ok (TaskResult.mk (CompleteTask.task_id task) TaskExecutionStatus.FAILED
                       (Some "unknown") [] [] [] None None (Some (error_dict (str_exn ex))))
             | None => Raise (IndexError "list index out of range")
             end
         | OutOfFuel => OutOfFuel
         end) (imap (λ i r, (i, r)) layer_results),
       session)
  end.

(** The layer's success rate and the verdict [success_rate >= 0.8]. *)
Definition success_rate (results : list TaskResult.t) : Q :=
  let successful_tasks := ExecutionResult.count_if TaskResult.is_successful results in
  let total_tasks := Z.of_nat (length results) in
  if decide (0 < total_tasks)%Z then (inject_Z successful_tasks / inject_Z total_tasks)%Q
  else 0%Q.

Definition _process_layer_results (results : list TaskResult.t) : bool :=
  Qle_bool (8 # 10) (success_rate results).


(** The [for layer_index, layer in enumerate(execution_layers)] loop of
    [_execute_session]; [layers] are the layers still to run, starting at
    [layer_index].  The result is [Raise] when the loop was left by an
    exception. *)
Fixpoint layer_loop (e : env) (layer_index : nat) (layers : list ExecutionLayer.t)
    (session : ExecutionSession.t) : result unit * ExecutionSession.t :=
  match layers with
  | [] => (Ok (), session)
  | layer :: layers' =>
      let session := ExecutionSession.set_current_layer session (Z.of_nat layer_index) in
      let session :=
        ExecutionSession.fire session (layer_started (ExecutionLayer.layer_number layer)) in
      match _execute_layer e session layer with
      | (Raise ex, session) => (Raise ex, session)
      | (OutOfFuel, session) => (OutOfFuel, session)
      | (Ok layer_results, session) =>
          let layer_success := _process_layer_results layer_results in
          if negb layer_success &&
             bool_decide (drop layer_index
                            (ExecutionGraph.execution_layers
                               (ExecutionSession.execution_graph session)) = [])
          then (Ok (), session)   (* break *)
          else
            let session :=
              ExecutionSession.fire session
                (layer_completed (ExecutionLayer.layer_number layer)) in
            layer_loop e (S layer_index) layers' session
      end
  end.


(** [_create_execution_session]: a fresh session over the graph.  The
    session id is derived from the clock and the object identity, so it is
    a parameter here. *)
Definition _create_execution_session (session_id : string)
    (execution_graph : ExecutionGraph.t) : ExecutionSession.t :=
  ExecutionSession.fire
    (ExecutionSession.mk session_id execution_graph 0 OrchestrationState.INITIALIZING
       ∅ ∅ ∅ ∅ [])
    session_started.

End Orchestrator.

(** ** Pausing, resuming and cancelling a session *)
Module OrchestratorControl.
(** The state that the control methods of the orchestrator work on. *)
Record t : Type := mk {
  active_sessions : gmap string ExecutionSession.t;
  agent_coordinator : AgentCoordinator.t;
  monitoring_enabled : bool
}.

(** [pause_execution]: the returned value and the orchestrator afterwards. *)
Definition pause_execution (self : t) (session_id : string) : bool * t :=
  match active_sessions self !! session_id with
  | None => (false, self)
  | Some session =>
      if decide (ExecutionSession.state session = OrchestrationState.EXECUTING) then
        (true,
         mk (<[session_id := ExecutionSession.set_state session OrchestrationState.PAUSED]>
               (active_sessions self))
            (AgentCoordinator.pause_all_tasks (agent_coordinator self) session_id)
            (monitoring_enabled self))
      else (false, self)
  end.

(** [resume_execution]; [_resume_session_execution] has an empty body. *)
Definition resume_execution (self : t) (session_id : string) : bool * t :=
  match active_sessions self !! session_id with
  | None => (false, self)
  | Some session =>
      if decide (ExecutionSession.state session = OrchestrationState.PAUSED) then
        (true,
         mk (<[session_id := ExecutionSession.set_state session OrchestrationState.EXECUTING]>
               (active_sessions self))
            (agent_coordinator self) (monitoring_enabled self))
      else (false, self)
  end.

(** [_cleanup_session]; [stop_session_monitoring] is the outcome of the call
    of that name on the monitor. *)
Definition _cleanup_session (stop_session_monitoring : string → outcome unit) (self : t)
    (session : ExecutionSession.t) : result unit * t :=
  match (if monitoring_enabled self
         then stop_session_monitoring (ExecutionSession.session_id session)
         else Returns ()) with
  | Raises ex => (Raise ex, self)
  | Returns _ =>
      (Ok (),
       mk (delete (ExecutionSession.session_id session) (active_sessions self))
          (AgentCoordinator.cleanup_session (agent_coordinator self)
             (ExecutionSession.session_id session))
          (monitoring_enabled self))
  end.

(** [cancel_execution] *)
Definition cancel_execution (stop_session_monitoring : string → outcome unit) (self : t)
    (session_id : string) : result bool * t :=
  match active_sessions self !! session_id with
  | None => (Ok false, self)
  | Some session =>
      let session := ExecutionSession.set_state session OrchestrationState.CANCELLED in
      let self :=
        mk (<[session_id := session]> (active_sessions self))
           (AgentCoordinator.cancel_all_tasks (agent_coordinator self) session_id)
           (monitoring_enabled self) in
      match _cleanup_session stop_session_monitoring self session with
      | (Ok _, self) => (Ok true, self)
      | (Raise ex, self) => (Raise ex, self)
      | (OutOfFuel, self) => (OutOfFuel, self)
      end
  end.
End OrchestratorControl.

(* ================================================================== *)
(** * Notions used to state the properties                             *)
(* ================================================================== *)

(** [u] blocking-depends on [v]: the graph has a blocking dependency from
    [u] (the dependent) to [v] (the task depended upon). *)
Definition blocking_dep (g : DependencyGraph.t) (u v : string) : Prop :=
  ∃ d, d ∈ DependencyGraph.dependencies g ∧ TaskDependency.is_blocking d = true ∧
       TaskDependency.from_task_id d = u ∧ TaskDependency.to_task_id d = v.

(** The blocking-edge graph has no cycle. *)
Definition acyclic (g : DependencyGraph.t) : Prop :=
  ∀ x, ¬ tc (blocking_dep g) x x.

(** Every blocking dependency points to a task of the graph, as
    [_validate_dependency_graph] checks. *)
Definition edges_resolve (g : DependencyGraph.t) : Prop :=
  ∀ d, d ∈ DependencyGraph.dependencies g → TaskDependency.is_blocking d = true →
       TaskDependency.to_task_id d ∈ DependencyGraph.tasks g.

(** [task_lookup] maps every task identifier of the graph to a task that
    carries this identifier, as [{task.task_id: task for task in tasks}]
    does. *)
Definition lookup_covers (g : DependencyGraph.t)
    (task_lookup : gmap string CompleteTask.t) : Prop :=
  ∀ id, id ∈ DependencyGraph.tasks g →
        ∃ task, task_lookup !! id = Some task ∧ CompleteTask.task_id task = id.

(** Every task of the graph has an estimated duration. *)
Definition durations_specified (g : DependencyGraph.t)
    (task_lookup : gmap string CompleteTask.t) : Prop :=
  ∀ id task, id ∈ DependencyGraph.tasks g → task_lookup !! id = Some task →
             is_Some (CompleteTask.estimated_duration_minutes task).

(** The task [id] is in the layer at position [i]. *)
Definition in_layer (layers : list ExecutionLayer.t) (i : nat) (id : string) : Prop :=
  ∃ l, layers !! i = Some l ∧ id ∈ ExecutionLayer.get_task_ids l.

(** Number of blocking dependencies of [t] on tasks in [remaining]. *)
Definition pending (deps : list TaskDependency.t) (remaining : gset string)
    (t : string) : nat :=
  length (filter (λ d, TaskDependency.is_blocking d = true ∧
                       TaskDependency.from_task_id d = t ∧
                       TaskDependency.to_task_id d ∈ remaining) deps).

(** The invariant of the layering loop: [in_degree] of a task is the
    number of its blocking dependencies on tasks not yet placed. *)
Definition layering_inv (deps : list TaskDependency.t) (remaining : gset string)
    (in_degree : gmap string Z) : Prop :=
  ∀ t, dd_get in_degree t = Z.of_nat (pending deps remaining t).

(** What the layering loop needs from [task_lookup] for the tasks not yet
    placed: the identifier resolves to a task with an estimated duration. *)
Definition resolves (task_lookup : gmap string CompleteTask.t)
    (remaining : gset string) : Prop :=
  ∀ id, id ∈ remaining → ∃ task, task_lookup !! id = Some task ∧
       CompleteTask.task_id task = id ∧
       is_Some (CompleteTask.estimated_duration_minutes task).

(** Both ends of every blocking dependency are tasks of the graph. *)
Definition ends_resolve (g : DependencyGraph.t) : Prop :=
  ∀ d, d ∈ DependencyGraph.dependencies g → TaskDependency.is_blocking d = true →
       TaskDependency.from_task_id d ∈ DependencyGraph.tasks g ∧
       TaskDependency.to_task_id d ∈ DependencyGraph.tasks g.

(** The processed tasks [order], oldest first, are a topological order:
    every blocking dependency of a processed task was processed before. *)
Definition topological (deps : list TaskDependency.t) (order : list string) : Prop :=
  ∀ i d, d ∈ deps → TaskDependency.is_blocking d = true →
         order !! i = Some (TaskDependency.from_task_id d) →
         ∃ j, (j < i)%nat ∧ order !! j = Some (TaskDependency.to_task_id d).

(** The invariant of the queue loop of [validate_acyclic]. *)
Definition kahn_inv (g : DependencyGraph.t) (order : list string)
    (in_degree : gmap string Z) (queue : list string) : Prop :=
  let remaining : gset string :=
    list_to_set (DependencyGraph.tasks g) ∖ list_to_set order in
  NoDup (order ++ queue) ∧
  (∀ t, t ∈ order ++ queue → t ∈ DependencyGraph.tasks g) ∧
  layering_inv (DependencyGraph.dependencies g) remaining in_degree ∧
  (∀ t, t ∈ DependencyGraph.tasks g → is_Some (in_degree !! t)) ∧
  (∀ t, t ∈ DependencyGraph.tasks g →
        t ∈ order ++ queue ↔ pending (DependencyGraph.dependencies g) remaining t = 0%nat) ∧
  topological (DependencyGraph.dependencies g) order.

(** The dependencies that [analyze_task_dependencies] puts into the graph. *)
Definition all_dependencies (tasks : list CompleteTask.t) : list TaskDependency.t :=
  DependencyAnalyzer._extract_explicit_dependencies tasks ++
  DependencyAnalyzer._analyze_implicit_dependencies tasks.




(** A layer as one pass of the layering loop builds it: its tasks are
    values of [task_lookup], there is at least one, and the estimated
    duration is what [max] returns on the durations of the tasks. *)
Definition layer_built (task_lookup : gmap string CompleteTask.t)
    (l : ExecutionLayer.t) : Prop :=
  ExecutionLayer.tasks l ≠ [] ∧
  Forall (λ task, ∃ id, task_lookup !! id = Some task) (ExecutionLayer.tasks l) ∧
  py_max (CompleteTask.estimated_duration_minutes <$> ExecutionLayer.tasks l)
    = Ok (ExecutionLayer.estimated_duration_minutes l) ∧
  ExecutionLayer.dependencies_satisfied l = [].

(** Every task of a layer after the first has a blocking dependency in the
    layer just before. *)
Definition tight (g : DependencyGraph.t) (layers : list ExecutionLayer.t) : Prop :=
  ∀ i id, in_layer layers (S i) id →
    ∃ v, blocking_dep g id v ∧ in_layer layers i v.

(** A chain of [n] blocking dependencies that starts at the task [id]. *)
Fixpoint dependency_chain (g : DependencyGraph.t) (n : nat) (id : string) : Prop :=
  match n with
  | O => id ∈ DependencyGraph.tasks g
  | S n => ∃ v, blocking_dep g id v ∧ dependency_chain g n v
  end.









(** The task identifiers that [detect_potential_conflicts] collects for
    [path]: one for every task and every entry of its file locations for
    [path] whose description speaks of creating, writing or implementing,
    in the order of the tasks. *)
Definition writers_of (tasks : list CompleteTask.t) (path : string) : list string :=
  flat_map (λ task,
    flat_map (λ entry : string * string,
      if decide (entry.1 = path)
      then (if DependencyAnalyzer.writes_file entry.2 then [CompleteTask.task_id task] else [])
      else [])
      (TaskContext.file_locations (CompleteTask.complete_context task))) tasks.

(** [cycle] is a closed chain of blocking dependencies: it ends where it
    starts, and every entry after the first blocking-depends on the entry
    before it. *)
Definition dependency_cycle (g : DependencyGraph.t) (cycle : list string) : Prop :=
  (∃ first rest, cycle = first :: rest ++ [first]) ∧
  ∀ (i : nat) a b, cycle !! i = Some a → cycle !! S i = Some b → blocking_dep g b a.

(** [id] stands at two positions of [ids]. *)
Definition occurs_twice (ids : list string) (id : string) : Prop :=
  ∃ i j : nat, (i < j)%nat ∧ ids !! i = Some id ∧ ids !! j = Some id.


(** Every entry of [l] after the first is listed in the adjacency dict
    [graph] under the entry before it. *)
Definition adjacent_chain (graph : gmap string (list string)) (l : list string) : Prop :=
  ∀ (i : nat) a b, l !! i = Some a → l !! S i = Some b → b ∈ dl_get graph a.

(** A chain of [graph] that ends where it starts. *)
Definition closed_chain (graph : gmap string (list string)) (cycle : list string) : Prop :=
  (∃ first rest, cycle = first :: rest ++ [first]) ∧ adjacent_chain graph cycle.

(** The invariant of the search of [find_cycles] while the tasks of [path]
    are being processed: the three sets cover the tasks [all], the gray
    tasks are those of [path], no gray task is black, and as long as no
    cycle was reported the black tasks are closed under [graph] and lie on
    no cycle of it. *)
Definition dfs_inv (graph : gmap string (list string)) (all : gset string)
    (path : list string) (st : DependencyGraph.dfs_state) : Prop :=
  DependencyGraph.d_white st ∪ DependencyGraph.d_gray st ∪ DependencyGraph.d_black st = all ∧
  DependencyGraph.d_gray st = list_to_set path ∧
  DependencyGraph.d_gray st ## DependencyGraph.d_black st ∧
  (DependencyGraph.d_cycles st = [] →
     (∀ b n, b ∈ DependencyGraph.d_black st → n ∈ dl_get graph b →
             n ∈ DependencyGraph.d_black st) ∧
     (∀ x, x ∈ DependencyGraph.d_black st → ¬ tc (λ a b, b ∈ dl_get graph a) x x)).

(** What a call of [dfs] or a run of calls does to the state: white only
    shrinks, black only grows, and the cycles appended are closed chains of
    [graph]. *)
Definition dfs_extends (graph : gmap string (list string))
    (st st' : DependencyGraph.dfs_state) : Prop :=
  DependencyGraph.d_white st' ⊆ DependencyGraph.d_white st ∧
  DependencyGraph.d_black st ⊆ DependencyGraph.d_black st' ∧
  ∃ new, DependencyGraph.d_cycles st' = DependencyGraph.d_cycles st ++ new ∧
         Forall (closed_chain graph) new.

(* ================================================================== *)
(** * Concrete inputs used in the statements below                     *)
(* ================================================================== *)

Module Samples.
Definition context : TaskContext.t :=
  TaskContext.mk "Command line utility that converts input records into reports." [].

(** Two independent tasks that leave [estimated_duration_minutes] at its
    default [None]. *)
Definition parse_input : CompleteTask.t :=
  CompleteTask.mk "parse_input" "Parse input records" context [] None.


(** The scenario of four tasks: B depends on A, D on B and C. *)
Definition four_tasks : list CompleteTask.t :=
  [ CompleteTask.mk "A" "Parse input records" context [] (Some 10%Z);
    CompleteTask.mk "B" "Render final report" context ["A"] (Some 20%Z);
    CompleteTask.mk "C" "Collect usage numbers" context [] (Some 5%Z);
    CompleteTask.mk "D" "Publish the reports" context ["B"; "C"] (Some 15%Z) ].

(** Sub-validations that pass every gate, and a test-compliance result with
    80% coverage against a 95% requirement. *)
Definition tdd_pass : TDDValidation.t :=
  TDDValidation.mk QualityGateStatus.PASSED 96 95 10 10 0 true.
Definition tdd_low_coverage : TDDValidation.t :=
  TDDValidation.mk QualityGateStatus.FAILED 80 95 10 10 0 true.
Definition security_pass : SecurityValidation.t :=
  SecurityValidation.mk QualityGateStatus.PASSED true true true 0 1 2.
Definition performance_pass : PerformanceValidation.t :=
  PerformanceValidation.mk QualityGateStatus.PASSED false None None true.
Definition code_quality_pass : CodeQualityValidation.t :=
  CodeQualityValidation.mk QualityGateStatus.PASSED true true true
    (Some (42 # 10)%Q) (Some 88%Q) 0.

Definition validators_with (tdd : TDDValidation.t) : QualityGateEngine.validators :=
  QualityGateEngine.mk_validators
    (λ _ _ _, tdd) (λ _ _ _, security_pass) (λ _ _ _, performance_pass)
    (λ _ _ _, code_quality_pass).

Definition report_ok : ExecutionReport.t :=
  ExecutionReport.mk true None ["src/out.py"] ["tests/test_out.py"] [] "done".



(** Quality enforcement on; the test-compliance validator reports 80%
    coverage against the 95% requirement. *)
Definition env_low_coverage : Orchestrator.env :=
  Orchestrator.mk_env true (λ _, Returns "dev_agent_0") (λ _ _, Returns report_ok)
    (validators_with tdd_low_coverage) (Returns ()).

Definition layer_of (n : Z) (tasks : list CompleteTask.t) : ExecutionLayer.t :=
  ExecutionLayer.mk n tasks [] (Some 10%Z).


(** Layer 0 holds A and C, layer 1 holds B, which depends on C only. *)
Definition layer_A_C : ExecutionLayer.t :=
  layer_of 0 [ CompleteTask.mk "A" "Parse input records" context [] (Some 10%Z);
               CompleteTask.mk "C" "Collect usage numbers" context [] (Some 10%Z) ].
Definition layer_B : ExecutionLayer.t :=
  layer_of 1 [ CompleteTask.mk "B" "Render final report" context ["C"] (Some 10%Z) ].
Definition graph_two_layers : ExecutionGraph.t :=
  ExecutionGraph.mk
    (DependencyGraph.mk ["A"; "C"; "B"] [TaskDependency.mk "B" "C" EXPLICIT true])
    [layer_A_C; layer_B] 3 (3 # 2) (Some 20%Z).

(** Two tasks a development agent accepts (their titles name "implement"
    and "build"). *)
Definition implement_parser : CompleteTask.t :=
  CompleteTask.mk "implement_parser" "Implement the record parser" context [] (Some 30%Z).
Definition build_renderer : CompleteTask.t :=
  CompleteTask.mk "build_renderer" "Build the report renderer" context [] (Some 30%Z).


(** The dependency graph of [four_tasks]: B on A, D on B and on C. *)
Definition four_tasks_graph : DependencyGraph.t :=
  DependencyGraph.mk ["A"; "B"; "C"; "D"]
    [ TaskDependency.mk "B" "A" EXPLICIT true;
      TaskDependency.mk "D" "B" EXPLICIT true;
      TaskDependency.mk "D" "C" EXPLICIT true ].

(** A graph whose only dependency points to a task that does not exist. *)
Definition graph_dangling : DependencyGraph.t :=
  DependencyGraph.mk ["A"] [TaskDependency.mk "A" "ghost" EXPLICIT true].



(** The layers of [graph_two_layers] over a dependency graph in which B
    and C depend on each other and which has a task D that no layer
    holds. *)
Definition graph_with_cycle : ExecutionGraph.t :=
  ExecutionGraph.mk
    (DependencyGraph.mk ["A"; "C"; "B"; "D"]
       [ TaskDependency.mk "B" "C" EXPLICIT true;
         TaskDependency.mk "C" "B" EXPLICIT true ])
    [layer_A_C; layer_B] 4 (1 # 2) (Some 20%Z).
End Samples.


(** The agent holds no more tasks than its capacity. *)
Definition within_capacity (a : ExecutionAgent.t) : Prop :=
  (Z.of_nat (size (ExecutionAgent.current_tasks a))
     ≤ ExecutionAgent.max_concurrent_tasks a)%Z.

(** Every agent of the pool is within its capacity and has a load factor
    in [0, 1]. *)
Definition pool_bounded (pool : AgentCoordinator.t) : Prop :=
  ∀ id a, (id, a) ∈ AgentCoordinator.agents pool →
    within_capacity a ∧ (0 <= ExecutionAgent.get_load_factor a <= 1)%Q.

(** The capacity bound as the specification words it: it holds after every
    sequence of pool operations on an initialised pool. *)
Definition bounded_after_every_sequence : Prop :=
  ∀ (max_agents : nat) (ops : list pool_op),
    pool_bounded (run_pool (AgentCoordinator.initialize_agent_pool max_agents) ops).

(** The keys of the agent dict are distinct and are the ids of the agents
    stored under them; capacities are not negative; every agent is within
    its capacity. *)
Definition pool_inv (pool : AgentCoordinator.t) : Prop :=
  NoDup (AgentCoordinator.agents pool).*1 ∧
  ∀ id a, (id, a) ∈ AgentCoordinator.agents pool →
    ExecutionAgent.agent_id a = id ∧
    (0 ≤ ExecutionAgent.max_concurrent_tasks a)%Z ∧
    within_capacity a.

(* ================================================================== *)
(** * Properties of the layering engine                                *)
(* ================================================================== *)

Lemma bind_Ok {A B : Type} (f : A → result B) (a : A) : (Ok a ≫= f) = f a.
Proof. reflexivity. Qed.

Lemma bind_Raise {A B : Type} (f : A → result B) (e : exn) : (Raise e ≫= f) = Raise e.
Proof. reflexivity. Qed.

Lemma for_each_cons {S B : Type} (body : S → B → result S) s x l :
  for_each body s (x :: l) = (body s x ≫= λ s', for_each body s' l).
Proof. reflexivity. Qed.

Lemma list_comp_cons {A B : Type} (f : A → result B) x l :
  list_comp f (x :: l) = (f x ≫= λ y, list_comp f l ≫= λ ys, Ok (y :: ys)).
Proof. reflexivity. Qed.

Section ListFacts.
Context {A : Type}.

Lemma length_filter_split (P Q R : A → Prop)
    `{!∀ x, Decision (P x)} `{!∀ x, Decision (Q x)} `{!∀ x, Decision (R x)} (l : list A) :
  (∀ x, R x ↔ P x ∨ Q x) → (∀ x, P x → Q x → False) →
  length (filter R l) = length (filter P l) + length (filter Q l).
Proof.
  intros HR Hdisj. induction l as [|x l IH]; [done|].
  rewrite !filter_cons.
  destruct (decide (R x)) as [Hr|Hr], (decide (P x)) as [Hp|Hp], (decide (Q x)) as [Hq|Hq];
    simpl; rewrite IH; try lia.
  - exfalso; eauto.
  - exfalso. apply HR in Hr. tauto.
  - exfalso. apply Hr, HR. tauto.
  - exfalso. apply Hr, HR. tauto.
  - exfalso. apply Hr, HR. tauto.
Qed.

Lemma length_filter_none (P : A → Prop) `{!∀ x, Decision (P x)} (l : list A) :
  (∀ x, ¬ P x) → length (filter P l) = 0.
Proof.
  intros HP. induction l as [|x l IH]; [done|].
  by rewrite filter_cons_False.
Qed.

Lemma length_filter_pos (P : A → Prop) `{!∀ x, Decision (P x)} (l : list A) :
  length (filter P l) ≠ 0 → ∃ x, x ∈ l ∧ P x.
Proof.
  intros Hlen. destruct (filter P l) as [|x k] eqn:E; [done|].
  assert (x ∈ filter P l) as Hx by (rewrite E; left).
  apply list_elem_of_filter in Hx as [HP Hx]. eauto.
Qed.

Lemma length_filter_zero (P : A → Prop) `{!∀ x, Decision (P x)} (l : list A) x :
  length (filter P l) = 0 → x ∈ l → ¬ P x.
Proof.
  intros Hlen Hx HP.
  assert (x ∈ filter P l) as Hin by (apply list_elem_of_filter; done).
  destruct (filter P l); [by apply elem_of_nil in Hin | done].
Qed.

Lemma elem_of_concat (ls : list (list A)) x :
  x ∈ concat ls ↔ ∃ l, l ∈ ls ∧ x ∈ l.
Proof.
  rewrite list_elem_of_In, in_concat. by setoid_rewrite list_elem_of_In.
Qed.

Lemma NoDup_concat_unique (ls : list (list A)) i j a b x :
  NoDup (concat ls) → ls !! i = Some a → ls !! j = Some b →
  x ∈ a → x ∈ b → i = j.
Proof.
  revert i j. induction ls as [|l ls IH]; intros i j Hnd Hi Hj Ha Hb; [done|].
  simpl in Hnd. apply NoDup_app in Hnd as (Hl & Hdisj & Hrest).
  destruct i as [|i], j as [|j]; simplify_eq/=; try done.
  - exfalso. apply (Hdisj x Ha). apply elem_of_concat. exists b; split; [|done].
    eapply list_elem_of_lookup_2, Hj.
  - exfalso. apply (Hdisj x Hb). apply elem_of_concat. exists a; split; [|done].
    eapply list_elem_of_lookup_2, Hi.
  - f_equal. by apply IH.
Qed.
End ListFacts.

Lemma dd_get_add m k d k' :
  dd_get (dd_add m k d) k' = if decide (k = k') then (dd_get m k + d)%Z else dd_get m k'.
Proof.
  unfold dd_add, dd_get at 1. rewrite lookup_insert.
  destruct (decide (k = k')); done.
Qed.

Lemma dl_get_append m k x k' :
  dl_get (dl_append m k x) k' = if decide (k = k') then dl_get m k ++ [x] else dl_get m k'.
Proof.
  unfold dl_append, dl_get at 1. rewrite lookup_insert.
  destruct (decide (k = k')); done.
Qed.

Lemma in_degree0_zero (tasks : list string) (m : gmap string Z) t :
  dd_get m t = 0%Z →
  dd_get (foldl (λ m task_id, <[task_id := 0%Z]> m) m tasks) t = 0%Z.
Proof.
  revert m. induction tasks as [|x tasks IH]; intros m Hm; [done|].
  simpl. apply IH. unfold dd_get. rewrite lookup_insert.
  destruct (decide (x = t)); done.
Qed.

Section BuildGraph.
Import TaskDependency DependencyAnalyzer.

Lemma build_edge_adj (deps : list TaskDependency.t) acc u :
  dl_get (foldl build_edge acc deps).1 u =
  dl_get acc.1 u ++
    (from_task_id <$> filter (λ d, is_blocking d = true ∧ to_task_id d = u) deps).
Proof.
  revert acc. induction deps as [|d deps IH]; intros acc.
  { simpl. by rewrite app_nil_r. }
  simpl. rewrite IH, filter_cons. unfold build_edge.
  destruct (is_blocking d) eqn:Hb; simpl.
  - rewrite dl_get_append. destruct (decide (to_task_id d = u)) as [->|Hne].
    + rewrite decide_True by done. by rewrite <- app_assoc.
    + rewrite decide_False by tauto. done.
  - done.
Qed.

Lemma build_edge_in_degree (deps : list TaskDependency.t) acc t :
  dd_get (foldl build_edge acc deps).2 t =
  (dd_get acc.2 t +
     Z.of_nat (length (filter (λ d, is_blocking d = true ∧ from_task_id d = t) deps)))%Z.
Proof.
  revert acc. induction deps as [|d deps IH]; intros acc.
  { simpl. lia. }
  simpl. rewrite IH, filter_cons. unfold build_edge.
  destruct (is_blocking d) eqn:Hb; simpl.
  - rewrite dd_get_add. destruct (decide (from_task_id d = t)) as [->|Hne].
    + rewrite decide_True by done. simpl. lia.
    + rewrite decide_False by tauto. done.
  - done.
Qed.

Lemma decrement_dependents_get (l : list string) m t :
  dd_get (decrement_dependents m l) t =
  (dd_get m t - Z.of_nat (length (filter (λ x, x = t) l)))%Z.
Proof.
  unfold decrement_dependents. revert m. induction l as [|x l IH]; intros m.
  { simpl. lia. }
  simpl. rewrite IH, dd_get_add, filter_cons.
  destruct (decide (x = t)) as [->|Hne]; simpl; lia.
Qed.

Lemma length_filter_fmap {A B : Type} (f : A → B) (P : B → Prop)
    `{!∀ y, Decision (P y)} (l : list A) :
  length (filter P (f <$> l)) = length (filter (λ x, P (f x)) l).
Proof.
  induction l as [|x l IH]; [done|].
  rewrite fmap_cons, !filter_cons. destruct (decide (P (f x))); simpl; by rewrite IH.
Qed.
End BuildGraph.

Section Layering.
Import TaskDependency DependencyAnalyzer.

Variable g : DependencyGraph.t.
Variable adj_list : gmap string (list string).
Variable task_lookup : gmap string CompleteTask.t.

#[local] Abbreviation deps := (DependencyGraph.dependencies g).

(** [adj_list] lists, for every task, the tasks that blocking-depend on it. *)
Hypothesis adj_spec : ∀ u,
  dl_get adj_list u =
  from_task_id <$> filter (λ d, is_blocking d = true ∧ to_task_id d = u) deps.

Lemma remove_layer_fold (current : list string) (remaining : gset string)
    (in_degree : gmap string Z) :
  NoDup current → (∀ x, x ∈ current → x ∈ remaining) →
  ∃ in_degree',
    for_each (remove_layer_task adj_list) (remaining, in_degree) current
      = Ok (remaining ∖ list_to_set current, in_degree') ∧
    ∀ t, dd_get in_degree' t =
         (dd_get in_degree t -
          Z.of_nat (length (filter (λ d, is_blocking d = true ∧ from_task_id d = t ∧
                                         to_task_id d ∈ current) deps)))%Z.
Proof.
  revert remaining in_degree.
  induction current as [|x current IH]; intros remaining in_degree Hnd Hsub.
  { exists in_degree. split.
    - simpl. f_equal. f_equal. set_solver.
    - intros t. rewrite length_filter_none; [lia|].
      intros d (_ & _ & Hin). by apply elem_of_nil in Hin. }
  apply NoDup_cons in Hnd as [Hx Hnd].
  destruct (IH (remaining ∖ {[x]})
              (decrement_dependents in_degree (dl_get adj_list x)) Hnd)
    as (in_degree' & Hfold & Hget).
  { intros y Hy. apply elem_of_difference. split; [apply Hsub; by right|].
    intros ->%elem_of_singleton. done. }
  exists in_degree'. split.
  - assert (remove_layer_task adj_list (remaining, in_degree) x =
            Ok (remaining ∖ {[x]}, decrement_dependents in_degree (dl_get adj_list x)))
      as Hstep.
    { unfold remove_layer_task. simpl. by rewrite decide_True by (apply Hsub; left). }
    rewrite for_each_cons, Hstep, bind_Ok, Hfold.
    f_equal. f_equal. set_solver.
  - intros t. rewrite Hget, decrement_dependents_get, adj_spec.
    rewrite length_filter_fmap, list_filter_filter.
    rewrite (length_filter_split
               (λ d, from_task_id d = t ∧ is_blocking d = true ∧ to_task_id d = x)
               (λ d, is_blocking d = true ∧ from_task_id d = t ∧ to_task_id d ∈ current)
               (λ d, is_blocking d = true ∧ from_task_id d = t ∧ to_task_id d ∈ x :: current)).
    + lia.
    + intros d. rewrite elem_of_cons. tauto.
    + intros d (_ & _ & ->) (_ & _ & Hin). done.
Qed.

Lemma pending_difference (current : list string) (remaining : gset string) t :
  (∀ x, x ∈ current → x ∈ remaining) →
  pending deps remaining t =
  pending deps (remaining ∖ list_to_set current) t +
  length (filter (λ d, is_blocking d = true ∧ from_task_id d = t ∧
                       to_task_id d ∈ current) deps).
Proof.
  intros Hsub. unfold pending. apply length_filter_split.
  - intros d. rewrite elem_of_difference, elem_of_list_to_set.
    destruct (decide (to_task_id d ∈ current)); naive_solver.
  - intros d (_ & _ & Hin) (_ & _ & Hcur).
    apply elem_of_difference in Hin as [_ Hin]. apply Hin.
    by apply elem_of_list_to_set.
Qed.

(** In an acyclic graph, a task all of whose descendants have a further
    blocking dependency inside [remaining] would reach arbitrarily many
    distinct tasks of [remaining]. *)
Lemma reach_many (remaining : gset string) :
  acyclic g →
  (∀ x, x ∈ remaining → ∃ y, y ∈ remaining ∧ blocking_dep g x y) →
  ∀ n x, x ∈ remaining →
    ∃ l : list string, length l = n ∧ NoDup l ∧
      ∀ y, y ∈ l → y ∈ remaining ∧ tc (blocking_dep g) x y.
Proof.
  intros Hacyc Hnext n. induction n as [|n IH]; intros x Hx.
  { exists []. split_and!; [done|constructor|]. intros y Hy. by apply elem_of_nil in Hy. }
  destruct (Hnext x Hx) as (y & Hy & Hxy).
  destruct (IH y Hy) as (l & Hlen & Hnd & Hl).
  exists (y :: l). split_and!.
  - simpl. by rewrite Hlen.
  - apply NoDup_cons. split; [|done]. intros Hin.
    apply (Hacyc y). by apply Hl.
  - intros z [->|Hz]%elem_of_cons.
    + split; [done|]. by apply tc_once.
    + destruct (Hl z Hz) as [Hzr Htc]. split; [done|]. by eapply tc_l.
Qed.

(** Progress: while tasks remain in an acyclic graph, some task is ready. *)
Lemma exists_ready (remaining : gset string) (in_degree : gmap string Z) :
  acyclic g → layering_inv deps remaining in_degree → remaining ≠ ∅ →
  ready_tasks remaining in_degree ≠ [].
Proof.
  intros Hacyc Hinv Hne Hready.
  assert (∀ x, x ∈ remaining → ∃ y, y ∈ remaining ∧ blocking_dep g x y) as Hnext.
  { intros x Hx.
    assert (dd_get in_degree x ≠ 0%Z) as Hdeg.
    { intros Hz.
      assert (x ∈ ready_tasks remaining in_degree) as Hin.
      { apply list_elem_of_filter. split; [done|]. by apply elem_of_elements. }
      rewrite Hready in Hin. by apply elem_of_nil in Hin. }
    rewrite Hinv in Hdeg.
    unfold pending in Hdeg.
    assert (length (filter (λ d, is_blocking d = true ∧ from_task_id d = x ∧
                                 to_task_id d ∈ remaining) deps) ≠ 0) as Hdeg' by lia.
    apply length_filter_pos in Hdeg' as (d & Hd & Hb & Hfrom & Hto).
    exists (to_task_id d). split; [done|]. exists d. done. }
  apply set_choose_L in Hne as [x Hx].
  destruct (reach_many remaining Hacyc Hnext (S (size remaining)) x Hx)
    as (l & Hlen & Hnd & Hl).
  assert (l ⊆+ elements remaining) as Hsub.
  { apply NoDup_submseteq; [done|]. intros y Hy. apply elem_of_elements. by apply Hl. }
  apply submseteq_length in Hsub. unfold size, set_size in Hlen. simpl in *. lia.
Qed.

Lemma list_comp_lookup (ids : list string) :
  (∀ id, id ∈ ids → ∃ task, task_lookup !! id = Some task ∧
       CompleteTask.task_id task = id ∧
       is_Some (CompleteTask.estimated_duration_minutes task)) →
  ∃ ts, list_comp (dict_get task_lookup) ids = Ok ts ∧
        CompleteTask.task_id <$> ts = ids ∧
        Forall (λ d : option Z, is_Some d) (CompleteTask.estimated_duration_minutes <$> ts).
Proof.
  induction ids as [|id ids IH]; intros Hall.
  { exists []. by split_and!. }
  destruct (Hall id) as (task & Hlk & Hid & Hdur); [left|].
  destruct IH as (ts & Hts & Hids & Hdurs).
  { intros id' Hin. apply Hall. by right. }
  exists (task :: ts). split_and!.
  - assert (dict_get task_lookup id = Ok task) as Hget
      by (unfold dict_get; by rewrite Hlk).
    by rewrite list_comp_cons, Hget, bind_Ok, Hts.
  - rewrite fmap_cons. by rewrite Hid, Hids.
  - rewrite fmap_cons. by constructor.
Qed.

Lemma py_max_loop_specified (l : list (option Z)) (x : Z) :
  Forall (λ d : option Z, is_Some d) l →
  ∃ m, for_each (λ m y, b ← py_gt y m; Ok (if b : bool then y else m)) (Some x) l
       = Ok (Some m).
Proof.
  revert x. induction l as [|y l IH]; intros x Hall.
  { by exists x. }
  apply Forall_cons in Hall as [[v ->] Hall].
  rewrite for_each_cons. simpl py_gt. rewrite bind_Ok, bind_Ok.
  destruct (bool_decide (x < v)%Z); apply IH, Hall.
Qed.

Lemma py_max_specified (l : list (option Z)) :
  l ≠ [] → Forall (λ d : option Z, is_Some d) l → ∃ m, py_max l = Ok (Some m).
Proof.
  destruct l as [|x l]; [done|]. intros _ Hall.
  apply Forall_cons in Hall as [[v ->] Hall]. by apply py_max_loop_specified.
Qed.

Lemma ready_tasks_NoDup remaining in_degree : NoDup (ready_tasks remaining in_degree).
Proof. apply NoDup_filter, NoDup_elements. Qed.

Lemma ready_tasks_elem remaining in_degree x :
  x ∈ ready_tasks remaining in_degree ↔ dd_get in_degree x = 0%Z ∧ x ∈ remaining.
Proof. unfold ready_tasks. by rewrite list_elem_of_filter, elem_of_elements. Qed.

Lemma layering_step_ok (st : layering_state) :
  acyclic g →
  layering_inv deps (remaining_tasks st) (in_degree st) →
  remaining_tasks st ≠ ∅ →
  (0 ≤ layer_number st)%Z →
  resolves task_lookup (remaining_tasks st) →
  let current := ready_tasks (remaining_tasks st) (in_degree st) in
  ∃ layer in_degree',
    layering_step adj_list task_lookup st =
      Ok (mk_layering (remaining_tasks st ∖ list_to_set current) in_degree'
            (layers st ++ [layer]) (layer_number st + 1)%Z) ∧
    ExecutionLayer.get_task_ids layer = current ∧
    ExecutionLayer.layer_number layer = layer_number st ∧
    layering_inv deps (remaining_tasks st ∖ list_to_set current) in_degree' ∧
    current ≠ [].
Proof.
  intros Hacyc Hinv Hne Hnum Hres current.
  pose proof (exists_ready _ _ Hacyc Hinv Hne) as Hready. fold current in Hready.
  assert (∀ x, x ∈ current → x ∈ remaining_tasks st) as Hsub.
  { intros x Hx. by apply ready_tasks_elem in Hx as [_ ?]. }
  destruct (list_comp_lookup current) as (ts & Hts & Hids & Hdurs).
  { intros id Hid. apply Hres, Hsub, Hid. }
  assert (ts ≠ []) as Hts_ne.
  { intros ->. simpl in Hids. by rewrite <- Hids in Hready. }
  destruct (py_max_specified (CompleteTask.estimated_duration_minutes <$> ts))
    as (m & Hmax); [by destruct ts|done|].
  destruct (remove_layer_fold current (remaining_tasks st) (in_degree st))
    as (in_degree' & Hfold & Hget);
    [apply ready_tasks_NoDup|done|].
  exists (ExecutionLayer.mk (layer_number st) ts [] (Some m)), in_degree'.
  split_and!; [|done|done| |done].
  - unfold layering_step. fold current.
    destruct current as [|c0 current'] eqn:Hcur; [done|].
    rewrite Hts, bind_Ok.
    destruct ts as [|t0 ts']; [done|].
    rewrite Hmax, bind_Ok. unfold ExecutionLayer.new.
    rewrite decide_False by lia. rewrite bind_Ok, Hfold, bind_Ok. done.
  - intros t. rewrite Hget, Hinv.
    rewrite (pending_difference current (remaining_tasks st) t Hsub). lia.
Qed.

Lemma in_layer_cons (l : ExecutionLayer.t) ls i id :
  in_layer (l :: ls) i id ↔
  (i = 0 ∧ id ∈ ExecutionLayer.get_task_ids l) ∨ (∃ i', i = S i' ∧ in_layer ls i' id).
Proof.
  unfold in_layer. destruct i as [|i]; simpl.
  - split.
    + intros (l' & [= <-] & Hin). by left.
    + intros [[_ Hin]|(i' & Hi & _)]; [|done]. by exists l.
  - split.
    + intros H. right. by exists i.
    + intros [[Hi _]|(i' & [= <-] & H)]; done.
Qed.

(** The loop places every remaining task once, numbers the layers in order
    and puts every remaining blocking dependency of a task strictly before
    the task. *)
Lemma layering_loop_ok (fuel : nat) : ∀ st : layering_state,
  acyclic g →
  layering_inv deps (remaining_tasks st) (in_degree st) →
  (0 ≤ layer_number st)%Z →
  resolves task_lookup (remaining_tasks st) →
  (size (remaining_tasks st) ≤ fuel)%nat →
  ∃ ls, layering_loop fuel adj_list task_lookup st = Ok (layers st ++ ls) ∧
    NoDup (concat (ExecutionLayer.get_task_ids <$> ls)) ∧
    (∀ id, id ∈ concat (ExecutionLayer.get_task_ids <$> ls) ↔ id ∈ remaining_tasks st) ∧
    (∀ i l, ls !! i = Some l →
            ExecutionLayer.layer_number l = (layer_number st + Z.of_nat i)%Z) ∧
    (∀ d i, d ∈ deps → is_blocking d = true →
            in_layer ls i (from_task_id d) → to_task_id d ∈ remaining_tasks st →
            ∃ j, (j < i)%nat ∧ in_layer ls j (to_task_id d)).
Proof.
  induction fuel as [|fuel IH]; intros st Hacyc Hinv Hnum Hres Hsize.
  - assert (remaining_tasks st = ∅) as Hempty
      by (apply leibniz_equiv, size_empty_inv; lia).
    exists []. split_and!.
    + simpl. rewrite decide_True by done. by rewrite app_nil_r.
    + constructor.
    + intros id. rewrite Hempty. simpl. split; [by intros ?%elem_of_nil|set_solver].
    + intros i l Hl. done.
    + intros d i _ _ (l & Hl & _). done.
  - destruct (decide (remaining_tasks st = ∅)) as [Hempty|Hne].
    { exists []. split_and!.
      + simpl. rewrite decide_True by done. by rewrite app_nil_r.
      + constructor.
      + intros id. rewrite Hempty. simpl. split; [by intros ?%elem_of_nil|set_solver].
      + intros i l Hl. done.
      + intros d i _ _ (l & Hl & _). done. }
    destruct (layering_step_ok st Hacyc Hinv Hne Hnum Hres)
      as (layer & in_degree' & Hstep & Hids & Hln & Hinv' & Hcur_ne).
    set (current := ready_tasks (remaining_tasks st) (in_degree st)) in *.
    assert (∀ x, x ∈ current → x ∈ remaining_tasks st) as Hsub.
    { intros x Hx. by apply ready_tasks_elem in Hx as [_ ?]. }
    assert (NoDup current) as Hnd by apply ready_tasks_NoDup.
    set (st' := mk_layering (remaining_tasks st ∖ list_to_set current) in_degree'
                  (layers st ++ [layer]) (layer_number st + 1)%Z) in *.
    destruct (IH st') as (ls & Hloop & Hnd' & Hmem & Hnums & Hord);
      [done|done|simpl; lia| | |].
    { intros id Hid. apply Hres. simpl in Hid. set_solver. }
    { simpl.
      assert (size (list_to_set current : gset string) = length current) as Hsz
        by by apply size_list_to_set.
      assert (list_to_set current ⊆ remaining_tasks st) as Hsubset.
      { intros x Hx. apply Hsub. by apply elem_of_list_to_set in Hx. }
      pose proof (size_difference _ _ Hsubset) as Hdiff.
      assert (length current ≠ 0) as Hlen by (by destruct current).
      rewrite Hsz in Hdiff. lia. }
    exists (layer :: ls). split_and!.
    + simpl. rewrite decide_False by done. rewrite Hstep, bind_Ok, Hloop.
      simpl. by rewrite <- app_assoc.
    + rewrite fmap_cons. simpl. rewrite Hids. apply NoDup_app. split_and!; [done| |done].
      intros x Hx Hin. apply Hmem in Hin. simpl in Hin.
      apply elem_of_difference in Hin as [_ Hin]. apply Hin.
      by apply elem_of_list_to_set.
    + intros id. rewrite fmap_cons. simpl. rewrite Hids, elem_of_app, Hmem. simpl.
      rewrite elem_of_difference, elem_of_list_to_set.
      destruct (decide (id ∈ current)); naive_solver.
    + intros i l Hl. destruct i as [|i]; simpl in Hl.
      * injection Hl as <-. rewrite Hln. lia.
      * rewrite (Hnums i l Hl). simpl. lia.
    + intros d i Hd Hb Hfrom Hto.
      apply in_layer_cons in Hfrom as [[-> Hfrom]|(i' & -> & Hfrom)].
      * exfalso. rewrite Hids in Hfrom.
        apply ready_tasks_elem in Hfrom as [Hzero _].
        rewrite Hinv in Hzero.
        apply (length_filter_zero
                 (λ d', is_blocking d' = true ∧ from_task_id d' = from_task_id d ∧
                        to_task_id d' ∈ remaining_tasks st) deps d);
          [unfold pending in Hzero; lia|done|done].
      * destruct (decide (to_task_id d ∈ current)) as [Hin|Hnin].
        -- exists 0. split; [lia|]. apply in_layer_cons. left. by rewrite Hids.
        -- destruct (Hord d i' Hd Hb Hfrom) as (j & Hj & Hjl).
           { simpl. apply elem_of_difference. split; [done|].
             by rewrite elem_of_list_to_set. }
           exists (S j). split; [lia|]. apply in_layer_cons. right. by exists j.
Qed.
End Layering.

Lemma length_filter_ext_in {A : Type} (P Q : A → Prop)
    `{!∀ x, Decision (P x)} `{!∀ x, Decision (Q x)} (l : list A) :
  (∀ x, x ∈ l → P x ↔ Q x) → length (filter P l) = length (filter Q l).
Proof.
  induction l as [|x l IH]; intros Hext; [done|].
  rewrite !filter_cons.
  assert (P x ↔ Q x) as Hx by (apply Hext; left).
  assert (length (filter P l) = length (filter Q l)) as Hl
    by (apply IH; intros y Hy; apply Hext; by right).
  destruct (decide (P x)), (decide (Q x)); simpl; try tauto; by rewrite Hl.
Qed.

Lemma NoDup_concat_elem {A : Type} (ls : list (list A)) (l : list A) :
  NoDup (concat ls) → l ∈ ls → NoDup l.
Proof.
  induction ls as [|l' ls IH]; intros Hnd Hin; [by apply elem_of_nil in Hin|].
  simpl in Hnd. apply NoDup_app in Hnd as (Hl' & _ & Hrest).
  apply elem_of_cons in Hin as [->|Hin]; [done|by apply IH].
Qed.

Lemma in_layer_concat (layers : list ExecutionLayer.t) (id : string) :
  id ∈ concat (ExecutionLayer.get_task_ids <$> layers) ↔ ∃ i, in_layer layers i id.
Proof.
  rewrite elem_of_concat. unfold in_layer. split.
  - intros (ids & Hids & Hid).
    apply list_elem_of_fmap in Hids as (l & -> & Hl).
    apply list_elem_of_lookup in Hl as (i & Hi). by exists i, l.
  - intros (i & l & Hi & Hid). exists (ExecutionLayer.get_task_ids l).
    split; [|done]. apply list_elem_of_fmap. exists l. split; [done|].
    by eapply list_elem_of_lookup_2.
Qed.

(** Kahn layering is correct on every acyclic graph whose blocking edges
    point to tasks of the graph, when [task_lookup] resolves the tasks and
    every task has an estimated duration: the call returns layers numbered
    in order, every task is in exactly one layer (once), and every blocking
    dependency is placed in a strictly earlier layer than its dependent. *)
Lemma generate_execution_layers_correct (g : DependencyGraph.t)
    (task_lookup : gmap string CompleteTask.t) :
  acyclic g → edges_resolve g → lookup_covers g task_lookup →
  durations_specified g task_lookup →
  ∃ layers,
    DependencyAnalyzer._generate_execution_layers g task_lookup = Ok layers ∧
    (∀ id, id ∈ DependencyGraph.tasks g →
           ∃ i, in_layer layers i id ∧ ∀ j, in_layer layers j id → j = i) ∧
    (∀ i id, in_layer layers i id → id ∈ DependencyGraph.tasks g) ∧
    (∀ i l, layers !! i = Some l →
            ExecutionLayer.layer_number l = Z.of_nat i ∧
            NoDup (ExecutionLayer.get_task_ids l)) ∧
    (∀ d i j, d ∈ DependencyGraph.dependencies g →
              TaskDependency.is_blocking d = true →
              in_layer layers i (TaskDependency.from_task_id d) →
              in_layer layers j (TaskDependency.to_task_id d) → (j < i)%nat).
Proof.
  intros Hacyc Hedges Hcov Hdur.
  unfold DependencyAnalyzer._generate_execution_layers.
  set (in_degree0 := foldl (λ m task_id, <[task_id := 0%Z]> m) ∅ (DependencyGraph.tasks g)).
  destruct (foldl DependencyAnalyzer.build_edge (∅, in_degree0)
              (DependencyGraph.dependencies g)) as [adj_list in_degree] eqn:Hbuild.
  set (st := DependencyAnalyzer.mk_layering
               (list_to_set (DependencyGraph.tasks g)) in_degree [] 0%Z).
  destruct (layering_loop_ok g adj_list task_lookup) with
    (fuel := size (list_to_set (DependencyGraph.tasks g) : gset string)) (st := st)
    as (ls & Hloop & Hnd & Hmem & Hnums & Hord).
  - intros u.
    pose proof (build_edge_adj (DependencyGraph.dependencies g) (∅, in_degree0) u) as H.
    rewrite Hbuild in H. simpl in H. rewrite H. unfold dl_get at 1.
    by rewrite lookup_empty.
  - done.
  - intros t. simpl.
    pose proof (build_edge_in_degree (DependencyGraph.dependencies g) (∅, in_degree0) t) as H.
    rewrite Hbuild in H. simpl in H. rewrite H.
    unfold in_degree0. rewrite in_degree0_zero
      by (unfold dd_get; by rewrite lookup_empty).
    unfold pending. rewrite Z.add_0_l. f_equal.
    apply length_filter_ext_in. intros d Hd. split.
    + intros [Hb Hfrom]. split_and!; [done|done|].
      apply elem_of_list_to_set. by apply Hedges.
    + intros (Hb & Hfrom & _). done.
  - simpl. lia.
  - intros id Hid. simpl in Hid. apply elem_of_list_to_set in Hid.
    destruct (Hcov id Hid) as (task & Hlk & Htid).
    exists task. split_and!; [done|done|]. by eapply Hdur.
  - done.
  - simpl in Hloop, Hmem, Hnums, Hord. exists ls.
    assert (∀ i j id, in_layer ls i id → in_layer ls j id → i = j) as Huniq.
    { intros i j id (li & Hi & Hini) (lj & Hj & Hinj).
      apply (NoDup_concat_unique (ExecutionLayer.get_task_ids <$> ls) i j
               (ExecutionLayer.get_task_ids li) (ExecutionLayer.get_task_ids lj) id);
        [done| | |done|done].
      - by rewrite list_lookup_fmap, Hi.
      - by rewrite list_lookup_fmap, Hj. }
    split_and!.
    + done.
    + intros id Hid.
      assert (id ∈ concat (ExecutionLayer.get_task_ids <$> ls)) as Hin
        by (apply Hmem; by apply elem_of_list_to_set).
      apply in_layer_concat in Hin as [i Hi]. exists i. split; [done|].
      intros j Hj. by eapply Huniq.
    + intros i id Hi.
      assert (id ∈ concat (ExecutionLayer.get_task_ids <$> ls)) as Hin
        by (apply in_layer_concat; by exists i).
      apply Hmem in Hin. by apply elem_of_list_to_set in Hin.
    + intros i l Hl. split; [rewrite (Hnums i l Hl); lia|].
      eapply NoDup_concat_elem; [done|].
      apply list_elem_of_fmap. exists l. split; [done|]. by eapply list_elem_of_lookup_2.
    + intros d i j Hd Hb Hi Hj.
      destruct (Hord d i Hd Hb Hi) as (j' & Hlt & Hj').
      { apply elem_of_list_to_set. by apply Hedges. }
      by rewrite (Huniq j j' _ Hj Hj').
Qed.


(** The scenario of the four tasks A, B (on A), C, D (on B and C): the
    layers are {A, C}, {B}, {D} and the parallelization factor is 4/3. *)
Example four_tasks_layers :
  (g ← DependencyAnalyzer.analyze_task_dependencies Samples.four_tasks;
   x ← DependencyAnalyzer.create_execution_graph Samples.four_tasks g;
   Ok (ExecutionLayer.get_task_ids <$> ExecutionGraph.execution_layers x,
       ExecutionGraph.parallelization_factor x))
  = Ok ([["C"; "A"]; ["B"]; ["D"]], (4 # 3)%Q).
Proof. vm_compute. reflexivity. Qed.


(** [analyze_task_dependencies] never raises [CircularDependencyError]:
    whatever its body raises leaves it as a plain
    [DependencyAnalysisError]. *)
Lemma analyze_task_dependencies_error_class (tasks : list CompleteTask.t) (e : exn) :
  DependencyAnalyzer.analyze_task_dependencies tasks = Raise e →
  is_CircularDependencyError e = false ∧ is_DependencyAnalysisError e = true.
Proof.
  unfold DependencyAnalyzer.analyze_task_dependencies, try_except.
  destruct (_ ≫= _) as [g|e'|]; intros H; simplify_eq; done.
Qed.


(* ================================================================== *)
(** * Properties of the quality gate pipeline                          *)
(* ================================================================== *)

(** Case analysis on every boolean test of the goal. *)
Ltac destruct_ifs :=
  repeat match goal with
         | |- context [if ?b then _ else _] =>
             match type of b with bool => destruct b end
         end.

(** Closes a comparison of two rational constants. *)
Ltac Qconst := unfold Qle, Qlt; simpl; lia.

Lemma Qmean4 (a b c d : Q) : (Qmean [a; b; c; d] == (a + b + c + d) / 4)%Q.
Proof. unfold Qmean. simpl. field. Qed.

Lemma mean4_bounds (a b c d : Q) :
  (0 <= a <= 1 → 0 <= b <= 1 → 0 <= c <= 1 → 0 <= d <= 1 →
   0 <= (a + b + c + d) / 4 <= 1)%Q.
Proof.
  intros [Ha0 Ha1] [Hb0 Hb1] [Hc0 Hc1] [Hd0 Hd1]. split.
  - apply Qle_shift_div_l; [reflexivity|].
    apply Qle_trans with (0 + 0 + 0 + 0)%Q; [Qconst|].
    repeat apply Qplus_le_compat; done.
  - apply Qle_shift_div_r; [reflexivity|].
    apply Qle_trans with (1 + 1 + 1 + 1)%Q; [|Qconst].
    repeat apply Qplus_le_compat; done.
Qed.

Lemma tdd_score_bounds (q : QualityResult.t) :
  (0 <= QualityResult.tdd_score q <= 1)%Q.
Proof.
  unfold QualityResult.tdd_score.
  destruct_ifs; split; Qconst.
Qed.

Lemma security_score_bounds (q : QualityResult.t) :
  (0 <= QualityResult.security_score q <= 1)%Q.
Proof.
  unfold QualityResult.security_score.
  destruct_ifs; split; Qconst.
Qed.

Lemma performance_score_bounds (q : QualityResult.t) :
  (0 <= QualityResult.performance_score q <= 1)%Q.
Proof.
  unfold QualityResult.performance_score, PerformanceValidation.calculate_performance_score.
  destruct (PerformanceValidation.execution_time_seconds _),
           (PerformanceValidation.memory_usage_mb _);
  destruct_ifs;
  split; vm_compute; intros H; discriminate H.
Qed.

Lemma code_quality_score_bounds (q : QualityResult.t) :
  (0 <= QualityResult.code_quality_score q <= 1)%Q.
Proof.
  unfold QualityResult.code_quality_score, CodeQualityValidation.calculate_quality_score.
  destruct (CodeQualityValidation.complexity_score _),
           (CodeQualityValidation.documentation_coverage_percentage _);
  destruct_ifs;
  split; vm_compute; intros H; discriminate H.
Qed.

(** C6.  [validate_task_quality] always returns a quality result, built
    from the four sub-validations; its overall status is [FAILED] exactly
    when at least one sub-validation has status [FAILED]; its quality score
    is the arithmetic mean of the four component scores, and every
    component score (hence the mean) lies in [0, 1]. *)
Theorem validate_task_quality_aggregate (v : QualityGateEngine.validators)
    (task : CompleteTask.t) (task_result : TaskResult.t)
    (execution_result : ExecutionReport.t) :
  ∃ q : QualityResult.t,
    QualityGateEngine.validate_task_quality v task task_result execution_result = Ok q ∧
    QualityResult.tdd_validation q =
      QualityGateEngine._validate_tdd_compliance v task task_result execution_result ∧
    QualityResult.security_validation q =
      QualityGateEngine._validate_security_requirements v task task_result execution_result ∧
    QualityResult.performance_validation q =
      QualityGateEngine._validate_performance_requirements v task task_result execution_result ∧
    QualityResult.code_quality_validation q =
      QualityGateEngine._validate_code_quality_standards v task task_result execution_result ∧
    (QualityResult.overall_status q = QualityGateStatus.FAILED ↔
       TDDValidation.status (QualityResult.tdd_validation q) = QualityGateStatus.FAILED ∨
       SecurityValidation.status (QualityResult.security_validation q)
         = QualityGateStatus.FAILED ∨
       PerformanceValidation.status (QualityResult.performance_validation q)
         = QualityGateStatus.FAILED ∨
       CodeQualityValidation.status (QualityResult.code_quality_validation q)
         = QualityGateStatus.FAILED) ∧
    (∃ score : Q,
       QualityResult.quality_score q = Some score ∧
       (score == (QualityResult.tdd_score q + QualityResult.security_score q +
                  QualityResult.performance_score q + QualityResult.code_quality_score q) / 4
        ∧ 0 <= score <= 1)%Q) ∧
    (0 <= QualityResult.tdd_score q <= 1)%Q ∧
    (0 <= QualityResult.security_score q <= 1)%Q ∧
    (0 <= QualityResult.performance_score q <= 1)%Q ∧
    (0 <= QualityResult.code_quality_score q <= 1)%Q.
Proof.
  eexists. split; [reflexivity|]. simpl.
  split_and!; try reflexivity;
    try apply tdd_score_bounds; try apply security_score_bounds;
    try apply performance_score_bounds; try apply code_quality_score_bounds.
  - repeat case_decide; naive_solver.
  - eexists. split; [reflexivity|].
    match goal with |- (Qmean [?a; ?b; ?c; ?d] == _ ∧ _)%Q =>
      pose proof (Qmean4 a b c d) as Hmean;
      assert (0 <= a <= 1)%Q as Ha by apply tdd_score_bounds;
      assert (0 <= b <= 1)%Q as Hb by apply security_score_bounds;
      assert (0 <= c <= 1)%Q as Hc by apply performance_score_bounds;
      assert (0 <= d <= 1)%Q as Hd by apply code_quality_score_bounds
    end.
    split; [exact Hmean|]. rewrite Hmean. by apply mean4_bounds.
Qed.

(* ================================================================== *)
(** * Properties of the session orchestrator                           *)
(* ================================================================== *)

Lemma validate_task_quality_returns (v : QualityGateEngine.validators)
    (task : CompleteTask.t) (task_result : TaskResult.t) (report : ExecutionReport.t) :
  ∃ q, QualityGateEngine.validate_task_quality v task task_result report = Ok q.
Proof. eexists. reflexivity. Qed.

Lemma elem_of_failed_gates (q : QualityResult.t) (gate : string) :
  gate ∈ Orchestrator.failed_gates q ↔
  (gate = "tdd" ∧
     TDDValidation.meets_requirements (QualityResult.tdd_validation q) = false) ∨
  (gate = "security" ∧
     SecurityValidation.meets_security_requirements (QualityResult.security_validation q)
       = false) ∨
  (gate = "performance" ∧
     PerformanceValidation.performance_requirements_met
       (QualityResult.performance_validation q) = false) ∨
  (gate = "code_quality" ∧
     CodeQualityValidation.meets_quality_standards (QualityResult.code_quality_validation q)
       = false).
Proof.
  unfold Orchestrator.failed_gates.
  destruct (TDDValidation.meets_requirements _),
           (SecurityValidation.meets_security_requirements _),
           (PerformanceValidation.performance_requirements_met _),
           (CodeQualityValidation.meets_quality_standards _);
    simpl; rewrite ?elem_of_cons, ?elem_of_nil; naive_solver.
Qed.

Lemma failed_gates_nonempty (q : QualityResult.t) :
  QualityResult.all_quality_gates_passed q = false → Orchestrator.failed_gates q ≠ [].
Proof.
  unfold QualityResult.all_quality_gates_passed, Orchestrator.failed_gates.
  destruct (TDDValidation.meets_requirements _),
           (SecurityValidation.meets_security_requirements _),
           (PerformanceValidation.performance_requirements_met _),
           (CodeQualityValidation.meets_quality_standards _); simpl; done.
Qed.

Lemma low_coverage_fails_tdd (tdd : TDDValidation.t) :
  (TDDValidation.test_coverage_percentage tdd < TDDValidation.minimum_coverage_required tdd)%Q →
  TDDValidation.meets_requirements tdd = false.
Proof.
  intros Hlt. unfold TDDValidation.meets_requirements.
  destruct (Qle_bool _ _) eqn:Hle; [|done].
  apply Qle_bool_iff in Hle. exfalso. by eapply Qlt_not_le.
Qed.

(** C5.  When quality enforcement is on and the worker reports success, the
    recorded result of the task carries the quality result of
    [validate_task_quality]; if that result does not pass all four gates,
    the recorded status is [FAILED] and the error detail has type
    ["quality_gate_failure"] and lists exactly the gates among tdd,
    security, performance and code_quality that did not pass.  In
    particular, with test coverage 80% against a required 95% the task ends
    failed and ["tdd"] is among the listed gates. *)
Theorem quality_gate_failure_downgrades (e : Orchestrator.env)
    (session : ExecutionSession.t) (task : CompleteTask.t) (agent_id : string)
    (report : ExecutionReport.t) :
  Orchestrator.quality_enforcement e = true →
  Orchestrator.acquire_agent e task = Returns agent_id →
  Orchestrator.execute_task e agent_id task = Returns report →
  ExecutionReport.success report = true →
  ∃ (r : TaskResult.t) (session' : ExecutionSession.t) (q : QualityResult.t),
    Orchestrator._execute_single_task e session task = (Ok r, session') ∧
    QualityGateEngine.validate_task_quality (Orchestrator.validators e) task
      (Orchestrator.completed_task_result task agent_id report) report = Ok q ∧
    TaskResult.quality_validation r = Some q ∧
    ExecutionSession.task_results session' !! CompleteTask.task_id task = Some r ∧
    (QualityResult.all_quality_gates_passed q = false →
       TaskResult.status r = TaskExecutionStatus.FAILED ∧
       CompleteTask.task_id task ∈ ExecutionSession.failed_tasks session' ∧
       ∃ gates,
         TaskResult.error_details r = Some (gate_failure_dict "quality_gate_failure" gates) ∧
         gates ≠ [] ∧
         ∀ gate, gate ∈ gates ↔
           (gate = "tdd" ∧
              TDDValidation.meets_requirements (QualityResult.tdd_validation q) = false) ∨
           (gate = "security" ∧
              SecurityValidation.meets_security_requirements
                (QualityResult.security_validation q) = false) ∨
           (gate = "performance" ∧
              PerformanceValidation.performance_requirements_met
                (QualityResult.performance_validation q) = false) ∨
           (gate = "code_quality" ∧
              CodeQualityValidation.meets_quality_standards
                (QualityResult.code_quality_validation q) = false)) ∧
    ((TDDValidation.test_coverage_percentage (QualityResult.tdd_validation q) == 80)%Q →
     (TDDValidation.minimum_coverage_required (QualityResult.tdd_validation q) == 95)%Q →
       TaskResult.status r = TaskExecutionStatus.FAILED ∧
       ∃ gates,
         TaskResult.error_details r = Some (gate_failure_dict "quality_gate_failure" gates) ∧
         "tdd" ∈ gates).
Proof.
  intros Hq Hacq Hexec Hsucc.
  destruct (validate_task_quality_returns (Orchestrator.validators e) task
              (Orchestrator.completed_task_result task agent_id report) report)
    as [q Hval].
  assert (∀ s, QualityResult.all_quality_gates_passed q = false →
    Orchestrator._execute_single_task e s task =
      (Ok (TaskResult.mk (CompleteTask.task_id task) TaskExecutionStatus.FAILED
             (Some agent_id) (ExecutionReport.implementation report)
             (ExecutionReport.tests report) (ExecutionReport.documentation report)
             (Some (ExecutionReport.summary report)) (Some q)
             (Some (gate_failure_dict "quality_gate_failure" (Orchestrator.failed_gates q)))),
       ExecutionSession.fire
         (ExecutionSession.record
            (ExecutionSession.fire s (task_started (CompleteTask.task_id task)))
            (CompleteTask.task_id task) false
            (TaskResult.mk (CompleteTask.task_id task) TaskExecutionStatus.FAILED
               (Some agent_id) (ExecutionReport.implementation report)
               (ExecutionReport.tests report) (ExecutionReport.documentation report)
               (Some (ExecutionReport.summary report)) (Some q)
               (Some (gate_failure_dict "quality_gate_failure"
                        (Orchestrator.failed_gates q)))))
         (task_failed (CompleteTask.task_id task)))) as Hfail.
  { intros s Hgates.
    unfold Orchestrator._execute_single_task, Orchestrator._execute_single_task_body.
    rewrite Hacq, Hexec, Hsucc, Hq. simpl negb. cbv iota.
    rewrite Hval, bind_Ok, Hgates. reflexivity. }
  assert (∀ s, QualityResult.all_quality_gates_passed q = true →
    Orchestrator._execute_single_task e s task =
      (Ok (TaskResult.mk (CompleteTask.task_id task) TaskExecutionStatus.COMPLETED
             (Some agent_id) (ExecutionReport.implementation report)
             (ExecutionReport.tests report) (ExecutionReport.documentation report)
             (Some (ExecutionReport.summary report)) (Some q) None),
       ExecutionSession.fire
         (ExecutionSession.record
            (ExecutionSession.fire s (task_started (CompleteTask.task_id task)))
            (CompleteTask.task_id task) true
            (TaskResult.mk (CompleteTask.task_id task) TaskExecutionStatus.COMPLETED
               (Some agent_id) (ExecutionReport.implementation report)
               (ExecutionReport.tests report) (ExecutionReport.documentation report)
               (Some (ExecutionReport.summary report)) (Some q) None))
         (task_completed (CompleteTask.task_id task)))) as Hpass.
  { intros s Hgates.
    unfold Orchestrator._execute_single_task, Orchestrator._execute_single_task_body.
    rewrite Hacq, Hexec, Hsucc, Hq. simpl negb. cbv iota.
    rewrite Hval, bind_Ok, Hgates. simpl.
    unfold TaskResult.is_successful. simpl. rewrite Hgates. reflexivity. }
  destruct (QualityResult.all_quality_gates_passed q) eqn:Hgates.
  - eexists _, _, q. split; [apply Hpass; reflexivity|].
    split_and!.
    + done.
    + done.
    + simpl. by rewrite lookup_insert_eq.
    + intros Hno. congruence.
    + intros H80 H95. exfalso.
      assert (TDDValidation.meets_requirements (QualityResult.tdd_validation q) = false)
        as Htdd.
      { apply low_coverage_fails_tdd. rewrite H80, H95. reflexivity. }
      unfold QualityResult.all_quality_gates_passed in Hgates.
      rewrite Htdd in Hgates. done.
  - eexists _, _, q. split; [apply Hfail; reflexivity|].
    split_and!; [done|done| | |].
    + simpl. by rewrite lookup_insert_eq.
    + intros _. split_and!; [done| |].
      * simpl. set_solver.
      * exists (Orchestrator.failed_gates q). split_and!; [done| |].
        -- by apply failed_gates_nonempty.
        -- apply elem_of_failed_gates.
    + intros H80 H95. split; [done|].
      exists (Orchestrator.failed_gates q). split; [done|].
      apply elem_of_failed_gates. left. split; [done|].
      apply low_coverage_fails_tdd. rewrite H80, H95. reflexivity.
Qed.

Lemma quality_gate_failure_downgrades_witness :
  ∃ r session',
    Orchestrator._execute_single_task Samples.env_low_coverage
      (Orchestrator._create_execution_session "session" Samples.graph_two_layers)
      Samples.parse_input = (Ok r, session') ∧
    TaskResult.status r = TaskExecutionStatus.FAILED ∧
    TaskResult.error_details r = Some (gate_failure_dict "quality_gate_failure" ["tdd"]).
Proof.
  destruct (quality_gate_failure_downgrades Samples.env_low_coverage
              (Orchestrator._create_execution_session "session" Samples.graph_two_layers)
              Samples.parse_input "dev_agent_0" Samples.report_ok)
    as (r & session' & q & Hrun & Hval & Hq & Hrec & Hfail & H80);
    [reflexivity|reflexivity|reflexivity|reflexivity|].
  exists r, session'. split; [exact Hrun|].
  vm_compute in Hrun. injection Hrun as <- _. split; reflexivity.
Defined.

(** Whatever the collaborators do, [_execute_single_task] returns a result
    of its task and records it; when the [try] block raised, the result is
    the failed result built by the handler. *)
Lemma execute_single_task_shape (e : Orchestrator.env) (session : ExecutionSession.t)
    (task : CompleteTask.t) :
  ∃ (r : TaskResult.t) (successful : bool) (ev : event),
    Orchestrator._execute_single_task e session task =
      (Ok r,
       ExecutionSession.fire
         (ExecutionSession.record
            (ExecutionSession.fire session (task_started (CompleteTask.task_id task)))
            (CompleteTask.task_id task) successful r) ev) ∧
    TaskResult.task_id r = CompleteTask.task_id task ∧
    ∀ ex s1,
      Orchestrator._execute_single_task_body e session task = (Raise ex, s1) →
      successful = false ∧
      r = TaskResult.mk (CompleteTask.task_id task) TaskExecutionStatus.FAILED
            (Some "unknown") [] [] [] None None (Some (error_dict (str_exn ex))).
Proof.
  unfold Orchestrator._execute_single_task, Orchestrator._execute_single_task_body.
  destruct (Orchestrator.acquire_agent e task) as [agent_id|ex0].
  2: { eexists _, false, _. split_and!; [reflexivity|reflexivity|].
       intros ex s1 [= <- <-]. done. }
  destruct (Orchestrator.execute_task e agent_id task) as [report|ex0].
  2: { eexists _, false, _. split_and!; [reflexivity|reflexivity|].
       intros ex s1 [= <- <-]. done. }
  destruct (ExecutionReport.success report); simpl negb; cbv iota.
  2: { eexists _, false, _. split_and!; [reflexivity|reflexivity|].
       intros ex s1 [= <- <-]. done. }
  destruct (Orchestrator.quality_enforcement e).
  - destruct (validate_task_quality_returns (Orchestrator.validators e) task
                (Orchestrator.completed_task_result task agent_id report) report)
      as [q Hq].
    rewrite Hq, bind_Ok.
    destruct (QualityResult.all_quality_gates_passed q) eqn:Hgates; simpl negb; cbv iota.
    + eexists _, _, _. split_and!; [reflexivity|reflexivity|]. intros ex s1 H. done.
    + eexists _, _, _. split_and!; [reflexivity|reflexivity|]. intros ex s1 H. done.
  - eexists _, _, _. split_and!; [reflexivity|reflexivity|]. intros ex s1 H. done.
Qed.











(** The guard of the [break] can never hold while the loop runs. *)
Lemma halt_guard_never_holds {A : Type} (layers : list A) (layer_index : nat) :
  (layer_index < length layers)%nat → drop layer_index layers ≠ [].
Proof.
  intros Hlt Hnil. apply (f_equal length) in Hnil.
  rewrite length_drop in Hnil. simpl in Hnil. lia.
Qed.

(** What running tasks leaves untouched in a session: the graph; events are
    only appended. *)
Lemma gather_frame (e : Orchestrator.env) (launched : list CompleteTask.t) :
  ∀ session : ExecutionSession.t,
    ExecutionSession.execution_graph (Orchestrator.gather e session launched).2
      = ExecutionSession.execution_graph session ∧
    ∃ evs, ExecutionSession.events (Orchestrator.gather e session launched).2
           = ExecutionSession.events session ++ evs.
Proof.
  induction launched as [|task launched IH]; intros session.
  { simpl. split; [done|]. exists []. by rewrite app_nil_r. }
  destruct (execute_single_task_shape e session task) as (r & ok & ev & Hrun & _).
  simpl. rewrite Hrun.
  match goal with |- context [Orchestrator.gather e ?s launched] =>
    destruct (IH s) as (Hgraph & evs & Hevs);
    destruct (Orchestrator.gather e s launched) as [rs s']
  end.
  simpl in *. split; [done|].
  exists ([task_started (CompleteTask.task_id task)] ++ [ev] ++ evs).
  rewrite Hevs. by rewrite <- !app_assoc.
Qed.

Lemma mark_running_frame (launched : list CompleteTask.t) :
  ∀ session : ExecutionSession.t,
    let session' :=
      foldl (λ s task, ExecutionSession.mark_running s (CompleteTask.task_id task))
            session launched in
    ExecutionSession.execution_graph session' = ExecutionSession.execution_graph session ∧
    ExecutionSession.events session' = ExecutionSession.events session.
Proof.
  induction launched as [|task launched IH]; intros session; [done|].
  simpl. destruct (IH (ExecutionSession.mark_running session (CompleteTask.task_id task)))
    as [Hgraph Hevents]. by rewrite Hgraph, Hevents.
Qed.

Lemma execute_layer_frame (e : Orchestrator.env) (session : ExecutionSession.t)
    (layer : ExecutionLayer.t) :
  ExecutionSession.execution_graph (Orchestrator._execute_layer e session layer).2
    = ExecutionSession.execution_graph session ∧
  ∃ evs, ExecutionSession.events (Orchestrator._execute_layer e session layer).2
         = ExecutionSession.events session ++ evs.
Proof.
  unfold Orchestrator._execute_layer.
  destruct (Orchestrator._verify_layer_dependencies session layer);
    try (simpl; split; [done|]; exists []; by rewrite app_nil_r).
  set (launched := Orchestrator.launched_tasks session layer).
  destruct (mark_running_frame launched session) as [Hgraph Hevents].
  match goal with |- context [Orchestrator.gather e ?s launched] =>
    destruct (gather_frame e launched s) as (Hgraph' & evs & Hevs);
    destruct (Orchestrator.gather e s launched) as [rs s']
  end.
  simpl in *. split; [congruence|]. exists evs. congruence.
Qed.

(** The layer loop has no early exit: unless an exception leaves it, every
    layer of the graph is started, whatever the success rates were. *)
Lemma layer_loop_starts_every_layer (e : Orchestrator.env) (layers : list ExecutionLayer.t) :
  ∀ (layer_index : nat) (session session' : ExecutionSession.t),
    (layer_index + length layers =
       length (ExecutionGraph.execution_layers
                 (ExecutionSession.execution_graph session)))%nat →
    Orchestrator.layer_loop e layer_index layers session = (Ok (), session') →
    ExecutionSession.execution_graph session' = ExecutionSession.execution_graph session ∧
    ∃ evs, ExecutionSession.events session' = ExecutionSession.events session ++ evs ∧
           ∀ layer, layer ∈ layers →
                    layer_started (ExecutionLayer.layer_number layer) ∈ evs.
Proof.
  induction layers as [|layer layers IH]; intros layer_index session session' Hlen Hrun.
  { injection Hrun as <-. split; [done|]. exists []. rewrite app_nil_r.
    split; [done|]. intros layer H. by apply elem_of_nil in H. }
  simpl in Hrun, Hlen.
  set (s0 := ExecutionSession.fire
               (ExecutionSession.set_current_layer session (Z.of_nat layer_index))
               (layer_started (ExecutionLayer.layer_number layer))) in *.
  destruct (execute_layer_frame e s0 layer) as (Hgraph & evs & Hevs).
  destruct (Orchestrator._execute_layer e s0 layer) as [[results|ex|] s1];
    [|done|done].
  simpl in Hgraph, Hevs.
  rewrite Hgraph in Hrun. simpl in Hrun.
  rewrite (bool_decide_eq_false_2 (drop layer_index _ = [])) in Hrun
    by (apply halt_guard_never_holds; lia).
  rewrite andb_false_r in Hrun.
  apply IH in Hrun as (Hgraph' & evs' & Hevs' & Hstarted).
  2: { simpl. rewrite Hgraph. simpl. lia. }
  simpl in Hgraph', Hevs'. split; [congruence|].
  exists ([layer_started (ExecutionLayer.layer_number layer)] ++ evs
          ++ [layer_completed (ExecutionLayer.layer_number layer)] ++ evs').
  split.
  - rewrite Hevs', Hevs. simpl. by rewrite <- !app_assoc.
  - intros l [->|Hl]%elem_of_cons; [left|].
    right. rewrite !elem_of_app. right. right. by apply Hstarted.
Qed.



(* ================================================================== *)
(** * Properties of the worker pool coordinator                        *)
(* ================================================================== *)

Lemma py_min_by_spec {A : Type} (key : A → Q) (rest : list A) : ∀ first : A,
  py_min_by key first rest ∈ first :: rest ∧
  ∀ x, x ∈ first :: rest → (key (py_min_by key first rest) <= key x)%Q.
Proof.
  induction rest as [|a rest IH]; intros first.
  { simpl. split; [left|]. intros x ->%list_elem_of_singleton. apply Qle_refl. }
  simpl.
  set (first' := if Qlt_le_dec (key a) (key first) then a else first).
  destruct (IH first') as [Hin Hmin]. fold (py_min_by key first' rest).
  assert (key first' <= key first ∧ key first' <= key a)%Q as [Hf Ha].
  { unfold first'. destruct (Qlt_le_dec (key a) (key first)) as [Hlt|Hle].
    - split; [by apply Qlt_le_weak|apply Qle_refl].
    - split; [apply Qle_refl|done]. }
  split.
  - apply elem_of_cons in Hin as [Hin|Hin].
    + rewrite Hin. unfold first'. destruct (Qlt_le_dec _ _); [right; left|left].
    + right; by right.
  - intros x Hx. apply elem_of_cons in Hx as [->|Hx].
    + eapply Qle_trans; [|exact Hf]. apply Hmin. left.
    + apply elem_of_cons in Hx as [->|Hx].
      * eapply Qle_trans; [|exact Ha]. apply Hmin. left.
      * apply Hmin. by right.
Qed.

Lemma elem_of_List_filter {A : Type} (f : A → bool) (l : list A) (x : A) :
  x ∈ List.filter f l ↔ x ∈ l ∧ f x = true.
Proof. rewrite !list_elem_of_In. apply filter_In. Qed.

Lemma find_best_agent_spec (pool : AgentCoordinator.t) :
  match AgentCoordinator._find_best_agent pool with
  | None => ∀ a, a ∈ (AgentCoordinator.agents pool).*2 →
                 ExecutionAgent.is_available a = false
  | Some best =>
      best ∈ (AgentCoordinator.agents pool).*2 ∧
      ExecutionAgent.is_available best = true ∧
      ∀ b, b ∈ (AgentCoordinator.agents pool).*2 → ExecutionAgent.is_available b = true →
           (ExecutionAgent.get_load_factor best <= ExecutionAgent.get_load_factor b)%Q
  end.
Proof.
  unfold AgentCoordinator._find_best_agent.
  destruct (List.filter _ _) as [|first rest] eqn:Hfilter.
  - intros a Ha. destruct (ExecutionAgent.is_available a) eqn:Hav; [|done].
    assert (a ∈ List.filter ExecutionAgent.is_available (AgentCoordinator.agents pool).*2)
      as Hin by (by apply elem_of_List_filter).
    rewrite Hfilter in Hin. by apply elem_of_nil in Hin.
  - destruct (py_min_by_spec ExecutionAgent.get_load_factor rest first) as [Hin Hmin].
    rewrite <- Hfilter in Hin, Hmin.
    apply elem_of_List_filter in Hin as [Hin Hav]. split_and!; [done|done|].
    intros b Hb Hbav. apply Hmin. by apply elem_of_List_filter.
Qed.



Lemma load_factor_in_unit (a : ExecutionAgent.t) :
  (0 ≤ ExecutionAgent.max_concurrent_tasks a)%Z → within_capacity a →
  (0 <= ExecutionAgent.get_load_factor a <= 1)%Q.
Proof.
  unfold within_capacity, ExecutionAgent.get_load_factor. intros Hmax Hcap.
  destruct (decide (ExecutionAgent.max_concurrent_tasks a = 0%Z)) as [Hz|Hnz].
  { split; Qconst. }
  assert (0 < inject_Z (ExecutionAgent.max_concurrent_tasks a))%Q as Hpos.
  { rewrite <- (Zlt_Qlt 0). lia. }
  split.
  - apply Qle_shift_div_l; [done|]. rewrite Qmult_0_l.
    rewrite <- (Zle_Qle 0). lia.
  - apply Qle_shift_div_r; [done|]. rewrite Qmult_1_l.
    rewrite <- Zle_Qle. lia.
Qed.

Lemma pool_inv_bounded (pool : AgentCoordinator.t) : pool_inv pool → pool_bounded pool.
Proof.
  intros [_ Hinv] id a Hin. destruct (Hinv id a Hin) as (_ & Hmax & Hcap).
  split; [done|]. by apply load_factor_in_unit.
Qed.

Lemma elem_of_alist_set {V : Type} (d : list (string * V)) (k : string) (v : V) id a :
  (id, a) ∈ alist_set d k v → (id, a) = (k, v) ∨ (id, a) ∈ d.
Proof.
  induction d as [|[k' v'] d IH]; simpl.
  - intros ->%list_elem_of_singleton. by left.
  - destruct (decide (k' = k)) as [->|Hne].
    + intros [->|Hin]%elem_of_cons; [by left|right; by right].
    + intros [->|Hin]%elem_of_cons; [right; left|].
      destruct (IH Hin) as [->|?]; [by left|right; by right].
Qed.

Lemma alist_set_keys {V : Type} (d : list (string * V)) (k : string) (v : V) :
  (alist_set d k v).*1 = if decide (k ∈ d.*1) then d.*1 else d.*1 ++ [k].
Proof.
  induction d as [|[k' v'] d IH].
  - simpl. destruct (decide (k ∈ [])) as [Hin|_]; [by apply elem_of_nil in Hin|done].
  - simpl alist_set. destruct (decide (k' = k)) as [->|Hne].
    + rewrite !fmap_cons. simpl. rewrite decide_True; [done|left].
    + rewrite !fmap_cons, IH. simpl.
      destruct (decide (k ∈ d.*1)) as [Hin|Hnin].
      * rewrite decide_True; [done|by right].
      * rewrite decide_False; [done|]. intros [?|?]%elem_of_cons; done.
Qed.

Lemma initialize_agent_pool_inv (max_agents : nat) :
  pool_inv (AgentCoordinator.initialize_agent_pool max_agents).
Proof.
  unfold AgentCoordinator.initialize_agent_pool.
  generalize (seq 0 max_agents). intros l.
  assert (pool_inv (AgentCoordinator.mk [] ∅ ∅)) as Hinit.
  { split; [constructor|]. intros id a Hin. by apply elem_of_nil in Hin. }
  revert Hinit. generalize (AgentCoordinator.mk [] ∅ ∅).
  induction l as [|i l IH]; intros pool Hpool; [done|].
  simpl. apply IH. destruct Hpool as [Hnd Hinv]. split; simpl.
  - rewrite alist_set_keys. case_decide; [done|].
    apply NoDup_app. split_and!; [done| |apply NoDup_singleton].
    intros x Hx ->%list_elem_of_singleton. done.
  - intros id a [[= -> ->]|Hin]%elem_of_alist_set; [|by apply Hinv].
    split_and!; [done|done|]. unfold within_capacity.
    change (ExecutionAgent.current_tasks _) with (∅ : gset string).
    rewrite size_empty. simpl. lia.
Qed.

Lemma acquire_agent_agents (pool : AgentCoordinator.t) (session_id : string) :
  AgentCoordinator.agents (AgentCoordinator.acquire_agent pool session_id).2
  = AgentCoordinator.agents pool.
Proof.
  unfold AgentCoordinator.acquire_agent.
  destruct (AgentCoordinator._find_best_agent pool) as [best|]; [|done].
  by destruct (AgentCoordinator.agent_sessions pool !! ExecutionAgent.agent_id best).
Qed.

Lemma pool_inv_agents (pool pool' : AgentCoordinator.t) :
  AgentCoordinator.agents pool' = AgentCoordinator.agents pool →
  pool_inv pool → pool_inv pool'.
Proof. unfold pool_inv. by intros ->. Qed.

Lemma update_agent_inv (pool : AgentCoordinator.t) (target : string)
    (f : ExecutionAgent.t → ExecutionAgent.t) :
  pool_inv pool →
  (∀ a, (target, a) ∈ AgentCoordinator.agents pool →
        ExecutionAgent.agent_id (f a) = ExecutionAgent.agent_id a ∧
        ExecutionAgent.max_concurrent_tasks (f a) = ExecutionAgent.max_concurrent_tasks a ∧
        within_capacity (f a)) →
  pool_inv (AgentCoordinator.update_agent pool target f).
Proof.
  intros [Hnd Hinv] Hf. split; simpl.
  - rewrite <- list_fmap_compose.
    rewrite (list_fmap_ext _ fst (AgentCoordinator.agents pool)); [done|].
    by intros i [id a] _.
  - intros id a' Hin. apply list_elem_of_fmap in Hin as ([id0 a] & Heq & Hin).
    injection Heq as -> ->. destruct (Hinv id0 a Hin) as (Hid & Hmax & Hcap).
    destruct (decide (id0 = target)) as [->|Hne]; [|done].
    destruct (Hf a Hin) as (Hid' & Hmax' & Hcap').
    split_and!; [congruence|by rewrite Hmax'|done].
Qed.

Lemma NoDup_keys_unique {V : Type} (l : list (string * V)) k v1 v2 :
  NoDup l.*1 → (k, v1) ∈ l → (k, v2) ∈ l → v1 = v2.
Proof.
  induction l as [|[k' v'] l IH]; intros Hnd H1 H2; [by apply elem_of_nil in H1|].
  rewrite fmap_cons in Hnd. apply NoDup_cons in Hnd as [Hk Hnd].
  assert (∀ v, (k', v) ∈ l → False) as Hfresh.
  { intros v Hv. apply Hk. apply list_elem_of_fmap. by exists (k', v). }
  apply elem_of_cons in H1 as [H1|H1]; apply elem_of_cons in H2 as [H2|H2].
  - congruence.
  - injection H1 as -> ->. by apply Hfresh in H2.
  - injection H2 as -> ->. by apply Hfresh in H1.
  - by apply IH.
Qed.

Lemma size_add_le (X : gset string) (x : string) :
  (size (X ∪ {[x]}) ≤ size X + 1)%nat.
Proof.
  rewrite size_union_alt.
  assert (size ({[x]} ∖ X : gset string) ≤ size ({[x]} : gset string))%nat as Hle
    by (apply subseteq_size; set_solver).
  rewrite size_singleton in Hle. lia.
Qed.

Lemma find_best_agent_available (pool : AgentCoordinator.t) (session_id : string)
    (agent : ExecutionAgent.t) (pool' : AgentCoordinator.t) :
  AgentCoordinator.acquire_agent pool session_id = (Ok agent, pool') →
  agent ∈ (AgentCoordinator.agents pool).*2 ∧ ExecutionAgent.is_available agent = true.
Proof.
  pose proof (find_best_agent_spec pool) as Hbest.
  unfold AgentCoordinator.acquire_agent.
  destruct (AgentCoordinator._find_best_agent pool) as [best|]; [|intros [=]].
  destruct (AgentCoordinator.agent_sessions pool !! ExecutionAgent.agent_id best);
    intros [= <- <-]; by destruct Hbest as (? & ? & _).
Qed.

(** Every operation of the orchestrator's discipline keeps the pool
    invariant. *)
Lemma pool_step_inv (pool : AgentCoordinator.t) (op : pool_op) :
  disciplined op = true → pool_inv pool → pool_inv (pool_step pool op).
Proof.
  intros Hop Hinv. destruct op as [s|id task|id task_id|id s|s task]; try done; simpl.
  - apply update_agent_inv; [done|]. intros a Ha. split_and!; [done|done|].
    destruct Hinv as [_ Hinv]. destruct (Hinv id a Ha) as (_ & _ & Hcap).
    unfold within_capacity in *. simpl.
    assert (size (ExecutionAgent.current_tasks a ∖ {[task_id]})
              ≤ size (ExecutionAgent.current_tasks a))%nat
      by (apply subseteq_size; set_solver).
    lia.
  - pose proof (acquire_agent_agents pool s) as Hagents.
    destruct (AgentCoordinator.acquire_agent pool s) as [[agent|ex|] pool'] eqn:Hacq;
      simpl in Hagents;
      [|apply (pool_inv_agents pool); [exact Hagents|exact Hinv]
       |apply (pool_inv_agents pool); [exact Hagents|exact Hinv]].
    apply find_best_agent_available in Hacq as [Hin Hav].
    assert (pool_inv pool') as Hinv'
      by (apply (pool_inv_agents pool); [exact Hagents|exact Hinv]).
    unfold DevelopmentAgent.execute_task_begin at 1.
    destruct (DevelopmentAgent.validate_task_compatibility task) eqn:Hcompat.
    + apply update_agent_inv; [done|]. intros a Ha.
      unfold DevelopmentAgent.execute_task_begin. rewrite Hcompat. simpl.
      split_and!; [done|done|].
      rewrite Hagents in Ha.
      apply list_elem_of_fmap in Hin as ([id0 agent0] & -> & Hin0). simpl in *.
      destruct Hinv as [Hnd Hinv]. destruct (Hinv id0 agent0 Hin0) as (Hid0 & _ & _).
      rewrite Hid0 in Ha.
      assert (a = agent0) as -> by (eapply NoDup_keys_unique; done).
      unfold ExecutionAgent.is_available in Hav.
      apply andb_true_iff in Hav as [_ Hcap]. apply bool_decide_eq_true in Hcap.
      unfold within_capacity. simpl.
      pose proof (size_add_le (ExecutionAgent.current_tasks agent0)
                    (CompleteTask.task_id task)).
      lia.
    + apply (pool_inv_agents pool'); [reflexivity|exact Hinv'].
Qed.

(** C9, as the code has it.  From an initialised pool, every sequence of
    operations in which a worker starts a task only in the step in which
    it was acquired (as [_execute_single_task] does), tasks end and agents
    are released leaves every worker with at most as many tasks as its
    capacity and with a load factor in [0, 1]. *)
Theorem disciplined_pool_bounded (max_agents : nat) (ops : list pool_op) :
  Forall (λ op, disciplined op = true) ops →
  pool_bounded (run_pool (AgentCoordinator.initialize_agent_pool max_agents) ops).
Proof.
  intros Hops. apply pool_inv_bounded. unfold run_pool.
  pose proof (initialize_agent_pool_inv max_agents) as Hinit.
  revert Hinit. generalize (AgentCoordinator.initialize_agent_pool max_agents).
  induction Hops as [|op ops Hop _ IH]; intros pool Hinv; [done|].
  simpl. apply IH. by apply pool_step_inv.
Qed.

Lemma disciplined_pool_bounded_witness :
  Forall (λ op, disciplined op = true)
    [ op_acquire_and_start "session" Samples.implement_parser;
      op_acquire_and_start "session" Samples.build_renderer;
      op_execute_end "dev_agent_0" "implement_parser";
      op_release "dev_agent_0" "session" ] ∧
  pool_bounded
    (run_pool (AgentCoordinator.initialize_agent_pool 2)
       [ op_acquire_and_start "session" Samples.implement_parser;
         op_acquire_and_start "session" Samples.build_renderer;
         op_execute_end "dev_agent_0" "implement_parser";
         op_release "dev_agent_0" "session" ]).
Proof.
  assert (Forall (λ op, disciplined op = true)
            [ op_acquire_and_start "session" Samples.implement_parser;
              op_acquire_and_start "session" Samples.build_renderer;
              op_execute_end "dev_agent_0" "implement_parser";
              op_release "dev_agent_0" "session" ]) as Hops
    by (repeat constructor).
  split; [exact Hops|]. exact (disciplined_pool_bounded 2 _ Hops).
Defined.

(** C9 as worded fails: two acquisitions in a row return the same idle
    agent, since acquiring neither changes its state nor its task set; when
    both holders then start a task on it, the agent of capacity one holds
    two tasks and its load factor is 2. *)
Lemma bounded_after_every_sequence_fails : ¬ bounded_after_every_sequence.
Proof.
  intros Hclaim.
  pose proof (Hclaim 1%nat
    [ op_acquire "session_1"; op_acquire "session_2";
      op_execute_begin "dev_agent_0" Samples.implement_parser;
      op_execute_begin "dev_agent_0" Samples.build_renderer ]) as Hbound.
  destruct (Hbound "dev_agent_0"
              (ExecutionAgent.mk "dev_agent_0" AgentState.BUSY
                 ({["implement_parser"]} ∪ {["build_renderer"]}) 1)) as [Hcap _].
  - vm_compute. left.
  - vm_compute in Hcap. by apply Hcap.
Qed.

(* ================================================================== *)
(** * The cycle check of the dependency graph *)
(* ================================================================== *)

Section Kahn.
Import TaskDependency DependencyGraph.

Lemma dict_get_Some {V : Type} (m : gmap string V) k v :
  m !! k = Some v → dict_get m k = Ok v.
Proof. intros H. unfold dict_get. by rewrite H. Qed.

Lemma add_edge_build_edge acc d :
  (is_blocking d = true →
   is_Some (acc.1 !! to_task_id d) ∧ is_Some (acc.2 !! from_task_id d)) →
  add_edge acc d = Ok (DependencyAnalyzer.build_edge acc d).
Proof.
  intros H. unfold add_edge, DependencyAnalyzer.build_edge.
  destruct (is_blocking d); [|done].
  destruct H as [[succs Hs] [n Hn]]; [done|].
  rewrite (dict_get_Some _ _ _ Hs), bind_Ok, (dict_get_Some _ _ _ Hn), bind_Ok.
  unfold dl_append, dl_get, dd_add, dd_get. by rewrite Hs, Hn.
Qed.

Lemma build_edge_keys acc d k :
  (is_Some (acc.1 !! k) → is_Some ((DependencyAnalyzer.build_edge acc d).1 !! k)) ∧
  (is_Some (acc.2 !! k) → is_Some ((DependencyAnalyzer.build_edge acc d).2 !! k)).
Proof.
  unfold DependencyAnalyzer.build_edge, dl_append, dd_add.
  destruct (is_blocking d); [|done]. simpl.
  split; intros Hk; rewrite lookup_insert; case_decide; eauto.
Qed.

Lemma for_each_add_edge (deps : list TaskDependency.t) :
  ∀ acc,
  (∀ d, d ∈ deps → is_blocking d = true →
        is_Some (acc.1 !! to_task_id d) ∧ is_Some (acc.2 !! from_task_id d)) →
  for_each add_edge acc deps = Ok (foldl DependencyAnalyzer.build_edge acc deps).
Proof.
  induction deps as [|d deps IH]; intros acc Hkeys; [done|].
  rewrite for_each_cons, add_edge_build_edge, bind_Ok.
  - simpl. apply IH. intros d' Hd' Hb.
    destruct (Hkeys d') as [H1 H2]; [by right|done|].
    split; by apply build_edge_keys.
  - intros Hb. apply Hkeys; [left|done].
Qed.

Lemma foldl_build_edge_keys (deps : list TaskDependency.t) acc k :
  (is_Some (acc.1 !! k) → is_Some ((foldl DependencyAnalyzer.build_edge acc deps).1 !! k)) ∧
  (is_Some (acc.2 !! k) → is_Some ((foldl DependencyAnalyzer.build_edge acc deps).2 !! k)).
Proof.
  revert acc. induction deps as [|d deps IH]; intros acc; [done|].
  simpl. destruct (IH (DependencyAnalyzer.build_edge acc d)) as [H1 H2].
  destruct (build_edge_keys acc d k) as [H3 H4]. split; eauto.
Qed.

Lemma lookup_const_map {V : Type} (v : V) (l : list string) k :
  (list_to_map ((λ id, (id, v)) <$> l) : gmap string V) !! k =
  if decide (k ∈ l) then Some v else None.
Proof.
  induction l as [|x l IH]; [done|].
  rewrite fmap_cons. simpl. rewrite lookup_insert.
  destruct (decide (x = k)) as [->|Hne].
  - rewrite decide_True by left. done.
  - rewrite IH. destruct (decide (k ∈ l)) as [Hin|Hnin].
    + rewrite decide_True by (by right). done.
    + rewrite decide_False; [done|]. intros [->|?]%elem_of_cons; done.
Qed.

(** The inner loop over the neighbours of the task taken from the queue:
    every occurrence of a task in [L] lowers its counter by one, and a task
    is appended to the queue exactly when its counter reaches zero. *)
Lemma visit_neighbors_ok (L : list string) (processed : Z) :
  ∀ (in_degree : gmap string Z) (queue : list string),
  (∀ x, x ∈ L → is_Some (in_degree !! x)) →
  ∃ in_degree' A,
    for_each visit_neighbor (mk_kahn in_degree queue processed) L =
      Ok (mk_kahn in_degree' (queue ++ A) processed) ∧
    (∀ t, dd_get in_degree' t =
          (dd_get in_degree t - Z.of_nat (length (filter (λ x, x = t) L)))%Z) ∧
    (∀ t, is_Some (in_degree !! t) → is_Some (in_degree' !! t)) ∧
    NoDup A ∧
    (∀ t, t ∈ A ↔ (1 ≤ dd_get in_degree t ≤
                     Z.of_nat (length (filter (λ x, x = t) L)))%Z).
Proof.
  induction L as [|y L IH]; intros in_degree queue Hcov.
  { exists in_degree, []. split_and!.
    - simpl. by rewrite app_nil_r.
    - intros t. simpl. lia.
    - done.
    - constructor.
    - intros t. simpl. split; [by intros ?%elem_of_nil|lia]. }
  destruct (Hcov y) as [d Hd]; [left|].
  set (in_degree1 := <[y := (d - 1)%Z]> in_degree).
  set (queue1 := if decide ((d - 1)%Z = 0%Z) then queue ++ [y] else queue).
  assert (visit_neighbor (mk_kahn in_degree queue processed) y =
          Ok (mk_kahn in_degree1 queue1 processed)) as Hstep.
  { unfold visit_neighbor. simpl. by rewrite (dict_get_Some _ _ _ Hd), bind_Ok. }
  destruct (IH in_degree1 queue1) as (in_degree' & A & Hrun & Hget & Hkeys & HndA & HA).
  { intros x Hx. unfold in_degree1. rewrite lookup_insert. case_decide; [eauto|].
    apply Hcov. by right. }
  assert (∀ t, dd_get in_degree1 t =
               if decide (y = t) then (d - 1)%Z else dd_get in_degree t) as Hget1.
  { intros t. unfold dd_get, in_degree1. rewrite lookup_insert.
    destruct (decide (y = t)); done. }
  assert (dd_get in_degree y = d) as Hdy by (unfold dd_get; by rewrite Hd).
  exists in_degree', ((if decide ((d - 1)%Z = 0%Z) then [y] else []) ++ A).
  split_and!.
  - rewrite for_each_cons, Hstep, bind_Ok, Hrun. f_equal. f_equal.
    unfold queue1. destruct (decide ((d - 1)%Z = 0%Z)); simpl.
    + by rewrite <- app_assoc.
    + done.
  - intros t. rewrite Hget, Hget1, filter_cons.
    destruct (decide (y = t)) as [->|Hne]; simpl; lia.
  - intros t Ht. apply Hkeys. unfold in_degree1. rewrite lookup_insert.
    case_decide; eauto.
  - destruct (decide ((d - 1)%Z = 0%Z)) as [Hz|Hz]; simpl; [|done].
    apply NoDup_cons. split; [|done]. intros Hin. apply HA in Hin.
    rewrite Hget1, decide_True in Hin by done. lia.
  - intros t. rewrite elem_of_app, HA, Hget1, filter_cons.
    destruct (decide (y = t)) as [->|Hne]; simpl.
    + rewrite Hdy. destruct (decide ((d - 1)%Z = 0%Z)) as [Hz|Hz].
      * rewrite list_elem_of_singleton. split; [intros _; lia|by left].
      * split; [intros [?%elem_of_nil|?]; [done|lia]|intros ?; right; lia].
    + split.
      * intros [Hin|?]; [|done]. destruct (decide ((d - 1)%Z = 0%Z)).
        -- apply list_elem_of_singleton in Hin. by subst.
        -- by apply elem_of_nil in Hin.
      * intros ?. by right.
Qed.

Variable g : DependencyGraph.t.
Variable graph : gmap string (list string).

#[local] Abbreviation deps := (DependencyGraph.dependencies g).

Hypothesis Hnd : NoDup (tasks g).
Hypothesis Hends : ends_resolve g.
Hypothesis graph_cov : ∀ t, t ∈ tasks g → is_Some (graph !! t).
Hypothesis adj_spec : ∀ u,
  dl_get graph u =
  from_task_id <$> filter (λ d, is_blocking d = true ∧ to_task_id d = u) deps.

Lemma count_neighbors (current t : string) :
  length (filter (λ x, x = t) (dl_get graph current)) =
  length (filter (λ d, is_blocking d = true ∧ from_task_id d = t ∧
                       to_task_id d ∈ [current]) deps).
Proof.
  rewrite adj_spec, length_filter_fmap, list_filter_filter.
  apply length_filter_ext_in. intros d _.
  rewrite list_elem_of_singleton. naive_solver.
Qed.

Lemma kahn_step (order : list string) (in_degree : gmap string Z)
    (current : string) (queue : list string) :
  kahn_inv g order in_degree (current :: queue) →
  ∃ in_degree' A,
    (neighbors ← dict_get graph current;
     for_each visit_neighbor
       (mk_kahn in_degree queue (Z.of_nat (length order) + 1)%Z) neighbors) =
      Ok (mk_kahn in_degree' (queue ++ A) (Z.of_nat (length (order ++ [current])))) ∧
    kahn_inv g (order ++ [current]) in_degree' (queue ++ A).
Proof.
  intros (Hnodup & Hsub & Hdeg & Hcov & Hzero & Htopo).
  set (remaining := (list_to_set (tasks g) ∖ list_to_set order : gset string)) in *.
  assert (current ∈ tasks g) as Hcur by (apply Hsub; set_solver).
  assert (current ∉ order) as Hcur_new.
  { apply NoDup_app in Hnodup as (_ & Hdisj & _). intros Hin.
    apply (Hdisj _ Hin). left. }
  assert (current ∈ remaining) as Hcur_rem.
  { apply elem_of_difference. split; [by apply elem_of_list_to_set|].
    by rewrite elem_of_list_to_set. }
  assert (remaining ∖ list_to_set [current] =
          list_to_set (tasks g) ∖ list_to_set (order ++ [current])) as Hrem'.
  { apply set_eq. intros x. unfold remaining.
    rewrite !elem_of_difference, !elem_of_list_to_set, elem_of_app. tauto. }
  assert (∀ t, pending deps remaining t =
               pending deps (list_to_set (tasks g) ∖ list_to_set (order ++ [current])) t +
               length (filter (λ x, x = t) (dl_get graph current))) as Hsplit.
  { intros t. rewrite count_neighbors, <- Hrem'. apply pending_difference.
    intros x ->%list_elem_of_singleton. done. }
  destruct (graph_cov current Hcur) as [neighbors Hn].
  assert (dl_get graph current = neighbors) as Hdl by (unfold dl_get; by rewrite Hn).
  assert (∀ x, x ∈ neighbors → x ∈ tasks g) as Hnb.
  { intros x Hx. rewrite <- Hdl, adj_spec in Hx.
    apply list_elem_of_fmap in Hx as (d & -> & Hd).
    apply list_elem_of_filter in Hd as [[Hb _] Hd]. by apply Hends. }
  destruct (visit_neighbors_ok neighbors (Z.of_nat (length order) + 1)%Z in_degree queue)
    as (in_degree' & A & Hrun & Hget & Hkeys & HndA & HA).
  { intros x Hx. by apply Hcov, Hnb. }
  rewrite Hdl in Hsplit.
  assert (∀ t, t ∈ A → t ∈ tasks g ∧ t ∉ order ++ current :: queue) as HA_new.
  { intros t Ht. apply HA in Ht.
    assert (length (filter (λ x, x = t) neighbors) ≠ 0%nat) as Hpos by lia.
    apply length_filter_pos in Hpos as (x & Hx & ->).
    split; [by apply Hnb|]. intros Hin. apply Hzero in Hin; [|by apply Hnb].
    rewrite Hdeg in Ht. lia. }
  exists in_degree', A. split.
  { rewrite (dict_get_Some _ _ _ Hn), bind_Ok, Hrun. f_equal. f_equal.
    rewrite length_app. simpl. lia. }
  unfold kahn_inv. split_and!.
  - rewrite <- app_assoc. simpl. rewrite app_comm_cons.
    rewrite app_assoc. apply NoDup_app. split_and!; [done| |done].
    intros x Hx Hin. by apply HA_new in Hin as [_ Hin].
  - intros t. rewrite <- app_assoc. simpl. rewrite app_comm_cons, app_assoc, elem_of_app.
    intros [Ht|Ht]; [by apply Hsub|by apply HA_new].
  - intros t. rewrite Hget, Hdeg, Hsplit. lia.
  - intros t Ht. by apply Hkeys, Hcov.
  - intros t Ht.
    assert (t ∈ (order ++ [current]) ++ queue ++ A ↔ t ∈ order ++ current :: queue ∨ t ∈ A)
      as ->.
    { rewrite !elem_of_app, !elem_of_cons, elem_of_nil. tauto. }
    rewrite (Hzero t Ht), HA, Hdeg. specialize (Hsplit t). lia.
  - intros i d Hd Hb Hi.
    destruct (decide (i < length order)%nat) as [Hlt|Hge].
    + rewrite lookup_app_l in Hi by done.
      destruct (Htopo i d Hd Hb Hi) as (j & Hj & Hjo).
      exists j. split; [done|]. rewrite lookup_app_l by lia. done.
    + assert (i = length order) as ->.
      { apply lookup_lt_Some in Hi. rewrite length_app in Hi. simpl in Hi. lia. }
      rewrite lookup_app_r, Nat.sub_diag in Hi by lia. simpl in Hi.
      injection Hi as Hfrom.
      assert (pending deps remaining current = 0%nat) as Hp.
      { apply Hzero; [done|]. set_solver. }
      assert (to_task_id d ∉ remaining) as Hto.
      { intros Hto.
        apply (length_filter_zero
                 (λ d', is_blocking d' = true ∧ from_task_id d' = current ∧
                        to_task_id d' ∈ remaining) deps d Hp Hd). done. }
      assert (to_task_id d ∈ order) as Hin.
      { destruct (decide (to_task_id d ∈ order)) as [?|Hnin]; [done|].
        exfalso. apply Hto. apply elem_of_difference.
        split; [apply elem_of_list_to_set; by apply Hends|].
        by rewrite elem_of_list_to_set. }
      apply list_elem_of_lookup in Hin as (j & Hj).
      exists j. split; [by apply lookup_lt_Some in Hj|].
      rewrite lookup_app_l by (by apply lookup_lt_Some in Hj). done.
Qed.

Lemma kahn_inv_length order in_degree queue :
  kahn_inv g order in_degree queue →
  (length order + length queue ≤ length (tasks g))%nat.
Proof.
  intros (Hnodup & Hsub & _).
  rewrite <- length_app. apply submseteq_length, NoDup_submseteq; done.
Qed.

(** The queue loop terminates within the iteration bound and ends with
    an empty queue, the invariant still holding. *)
Lemma kahn_loop_ok (fuel : nat) :
  ∀ order in_degree queue,
  kahn_inv g order in_degree queue →
  (length (tasks g) - length order ≤ fuel)%nat →
  ∃ order' in_degree',
    kahn_loop fuel graph (mk_kahn in_degree queue (Z.of_nat (length order))) =
      Ok (mk_kahn in_degree' [] (Z.of_nat (length order'))) ∧
    kahn_inv g order' in_degree' [].
Proof.
  induction fuel as [|fuel IH]; intros order in_degree queue Hinv Hfuel.
  - pose proof (kahn_inv_length _ _ _ Hinv) as Hlen.
    destruct queue as [|current queue]; [|simpl in Hlen; lia].
    exists order, in_degree. done.
  - destruct queue as [|current queue].
    { exists order, in_degree. done. }
    pose proof (kahn_inv_length _ _ _ Hinv) as Hlen. simpl in Hlen.
    destruct (kahn_step order in_degree current queue Hinv)
      as (in_degree1 & A & Hstep & Hinv1).
    destruct (IH (order ++ [current]) in_degree1 (queue ++ A) Hinv1)
      as (order' & in_degree' & Hloop & Hinv').
    { rewrite length_app. simpl. lia. }
    exists order', in_degree'. split; [|done].
    simpl.
    change (kahn_loop (S fuel) graph (mk_kahn in_degree (current :: queue)
                                        (Z.of_nat (length order))))
      with ((neighbors ← dict_get graph current;
             st' ← for_each visit_neighbor
                     (mk_kahn in_degree queue (Z.of_nat (length order) + 1)%Z) neighbors;
             kahn_loop fuel graph st')).
    destruct (dict_get graph current) as [neighbors| |] eqn:Hn; simpl in Hstep |- *;
      try done.
    rewrite Hstep. simpl. done.
Qed.

(** A complete processing order is a topological order, so there is no
    cycle. *)
Lemma topological_acyclic (order : list string) :
  NoDup order → topological deps order →
  (∀ t, t ∈ tasks g → t ∈ order) → acyclic g.
Proof.
  intros Hnodup Htopo Hall.
  assert (∀ x y, tc (blocking_dep g) x y →
            ∃ i j, order !! i = Some x ∧ order !! j = Some y ∧ (j < i)%nat) as Hrank.
  { intros x y Htc. induction Htc as [x y Hxy|x y z Hxy _ IH].
    - destruct Hxy as (d & Hd & Hb & <- & <-).
      assert (from_task_id d ∈ order) as Hin by (apply Hall; by apply Hends).
      apply list_elem_of_lookup in Hin as (i & Hi).
      destruct (Htopo i d Hd Hb Hi) as (j & Hj & Hjo). by exists i, j.
    - destruct IH as (i & j & Hi & Hj & Hlt).
      destruct Hxy as (d & Hd & Hb & <- & <-).
      assert (from_task_id d ∈ order) as Hin by (apply Hall; by apply Hends).
      apply list_elem_of_lookup in Hin as (i0 & Hi0).
      destruct (Htopo i0 d Hd Hb Hi0) as (j0 & Hj0 & Hjo).
      assert (j0 = i) as -> by (eapply NoDup_lookup; done).
      exists i0, j. split_and!; [done|done|lia]. }
  intros x Htc. destruct (Hrank x x Htc) as (i & j & Hi & Hj & Hlt).
  assert (i = j) by (eapply NoDup_lookup; done). lia.
Qed.
End Kahn.

Section ValidateAcyclic.
Import TaskDependency DependencyGraph.

(** [validate_acyclic] runs the queue loop to its end: the answer compares
    the number of processed tasks with the number of tasks, and the
    invariant of the loop holds for the processed tasks. *)
Lemma validate_acyclic_order (g : DependencyGraph.t) :
  NoDup (tasks g) → ends_resolve g →
  ∃ order in_degree,
    validate_acyclic g =
      Ok (bool_decide (Z.of_nat (length order) = Z.of_nat (length (tasks g)))) ∧
    kahn_inv g order in_degree [].
Proof.
  intros Hnd Hends. unfold validate_acyclic.
  set (graph0 := list_to_map ((λ id, (id, [])) <$> tasks g) : gmap string (list string)).
  set (in_degree0 := list_to_map ((λ id, (id, 0%Z)) <$> tasks g) : gmap string Z).
  assert (∀ t, t ∈ tasks g → is_Some (graph0 !! t) ∧ is_Some (in_degree0 !! t)) as Hcov0.
  { intros t Ht. unfold graph0, in_degree0. rewrite !lookup_const_map.
    rewrite !decide_True by done. eauto. }
  rewrite (for_each_add_edge (dependencies g) (graph0, in_degree0)).
  2:{ intros d Hd Hb. destruct (Hends d Hd Hb) as [Hfrom Hto]. simpl.
      split; [apply (Hcov0 _ Hto)|apply (Hcov0 _ Hfrom)]. }
  rewrite bind_Ok.
  destruct (foldl DependencyAnalyzer.build_edge (graph0, in_degree0) (dependencies g))
    as [graph in_degree] eqn:Hbuild.
  assert (∀ u, dl_get graph u =
               from_task_id <$> filter (λ d, is_blocking d = true ∧ to_task_id d = u)
                                  (dependencies g)) as Hadj.
  { intros u. pose proof (build_edge_adj (dependencies g) (graph0, in_degree0) u) as H.
    rewrite Hbuild in H. simpl in H. rewrite H.
    unfold dl_get at 1, graph0. rewrite lookup_const_map. by case_decide. }
  assert (∀ t, dd_get in_degree t =
               Z.of_nat (length (filter (λ d, is_blocking d = true ∧ from_task_id d = t)
                                   (dependencies g)))) as Hdeg.
  { intros t. pose proof (build_edge_in_degree (dependencies g) (graph0, in_degree0) t) as H.
    rewrite Hbuild in H. simpl in H. rewrite H.
    unfold dd_get at 1, in_degree0. rewrite lookup_const_map. case_decide; simpl; lia. }
  assert (∀ t, t ∈ tasks g → is_Some (graph !! t) ∧ is_Some (in_degree !! t)) as Hcov.
  { intros t Ht.
    destruct (foldl_build_edge_keys (dependencies g) (graph0, in_degree0) t) as [H1 H2].
    rewrite Hbuild in H1, H2. simpl in H1, H2.
    split; [apply H1|apply H2]; by apply Hcov0. }
  set (queue := filter (λ id, dd_get in_degree id = 0%Z) (tasks g)).
  assert (∀ t, pending (dependencies g) (list_to_set (tasks g) ∖ list_to_set []) t =
               length (filter (λ d, is_blocking d = true ∧ from_task_id d = t)
                         (dependencies g))) as Hpend.
  { intros t. unfold pending. apply length_filter_ext_in. intros d Hd. split.
    - intros (Hb & Hfrom & _). done.
    - intros [Hb Hfrom]. split_and!; [done|done|].
      apply elem_of_difference. split; [|set_solver].
      apply elem_of_list_to_set. by apply Hends. }
  assert (kahn_inv g [] in_degree queue) as Hinv.
  { unfold kahn_inv. split_and!.
    - simpl. by apply NoDup_filter.
    - intros t Ht. simpl in Ht. by apply list_elem_of_filter in Ht as [_ ?].
    - intros t. by rewrite Hdeg, Hpend.
    - intros t Ht. by apply Hcov.
    - intros t Ht. simpl. unfold queue. rewrite list_elem_of_filter, Hdeg, Hpend.
      split; [intros [? _]; lia|intros ?; split; [lia|done]].
    - intros i d _ _ Hi. done. }
  destruct (kahn_loop_ok g graph Hnd Hends (λ t Ht, proj1 (Hcov t Ht)) Hadj
              (2 * length (tasks g) + 1) [] in_degree queue Hinv)
    as (order & in_degree' & Hloop & Hinv'); [simpl; lia|].
  change (Z.of_nat (length (@nil string))) with 0%Z in Hloop.
  rewrite Hloop, bind_Ok. simpl k_processed.
  by exists order, in_degree'.
Qed.

(** When the queue has run empty, every task was processed exactly when the
    blocking dependencies have no cycle. *)
Lemma kahn_inv_final (g : DependencyGraph.t) (order : list string)
    (in_degree : gmap string Z) :
  NoDup (tasks g) → ends_resolve g → kahn_inv g order in_degree [] →
  length order = length (tasks g) ↔ acyclic g.
Proof.
  intros Hnd Hends (Hnodup & Hsub & Hdeg' & _ & Hzero & Htopo).
  rewrite app_nil_r in Hnodup.
  assert (order ⊆+ tasks g) as Hsubm.
  { apply NoDup_submseteq; [done|]. intros t Ht. apply Hsub. by rewrite app_nil_r. }
  split.
  - intros Hlen. apply (topological_acyclic g Hends order Hnodup Htopo).
    assert (order ≡ₚ tasks g) as Hperm
      by (apply submseteq_length_Permutation; [done|lia]).
    intros t Ht. by rewrite Hperm.
  - intros Hacyc.
    destruct (decide (length order = length (tasks g))) as [->|Hne]; [done|].
    exfalso.
    set (remaining := (list_to_set (tasks g) ∖ list_to_set order : gset string)) in *.
    assert (remaining ≠ ∅) as Hrem.
    { intros Hempty.
      assert (tasks g ⊆+ order) as Hsup.
      { apply NoDup_submseteq; [done|]. intros t Ht.
        destruct (decide (t ∈ order)) as [?|Hnin]; [done|]. exfalso.
        assert (t ∈ remaining) as Hin
          by (apply elem_of_difference; rewrite !elem_of_list_to_set; done).
        rewrite Hempty in Hin. set_solver. }
      apply submseteq_length in Hsup, Hsubm. lia. }
    pose proof (exists_ready g remaining in_degree Hacyc Hdeg' Hrem) as Hready.
    destruct (DependencyAnalyzer.ready_tasks remaining in_degree) as [|t l] eqn:E; [done|].
    assert (t ∈ DependencyAnalyzer.ready_tasks remaining in_degree) as Ht
      by (rewrite E; left).
    apply ready_tasks_elem in Ht as [Hz Ht].
    apply elem_of_difference in Ht as [Htask Hnew].
    apply elem_of_list_to_set in Htask. rewrite elem_of_list_to_set in Hnew.
    apply Hnew. rewrite Hdeg' in Hz.
    assert (t ∈ order ++ []) as Hin by (apply Hzero; [done|lia]).
    by rewrite app_nil_r in Hin.
Qed.

(** A graph that passes the check has no cycle. *)
Lemma validate_acyclic_sound (g : DependencyGraph.t) :
  NoDup (tasks g) → ends_resolve g → validate_acyclic g = Ok true → acyclic g.
Proof.
  intros Hnd Hends Hrun.
  destruct (validate_acyclic_order g Hnd Hends) as (order & in_degree & Heq & Hinv).
  rewrite Heq in Hrun. injection Hrun as Hb. apply bool_decide_eq_true in Hb.
  apply (kahn_inv_final g order in_degree Hnd Hends Hinv). lia.
Qed.

Lemma ends_resolve_Forall (g : DependencyGraph.t) :
  Forall (λ d, is_blocking d = true →
               from_task_id d ∈ tasks g ∧ to_task_id d ∈ tasks g) (dependencies g) →
  ends_resolve g.
Proof. intros Hall d Hd. rewrite Forall_forall in Hall. by apply Hall. Qed.

Lemma ends_resolve_edges_resolve (g : DependencyGraph.t) :
  ends_resolve g → edges_resolve g.
Proof. intros Hends d Hd Hb. by apply Hends. Qed.

(** X3.  [validate_acyclic] decides acyclicity.  On a graph of distinct
    tasks in which both ends of every blocking dependency are tasks, the
    call returns (it neither raises nor exhausts the iteration bound of the
    queue loop), and it returns [True] exactly when the blocking
    dependencies have no cycle. *)
Theorem validate_acyclic_decides (g : DependencyGraph.t) :
  NoDup (tasks g) → ends_resolve g →
  ∃ b, validate_acyclic g = Ok b ∧ (b = true ↔ acyclic g).
Proof.
  intros Hnd Hends.
  destruct (validate_acyclic_order g Hnd Hends) as (order & in_degree & Heq & Hinv).
  eexists. split; [exact Heq|].
  rewrite bool_decide_eq_true, <- (kahn_inv_final g order in_degree Hnd Hends Hinv). lia.
Qed.

Lemma dict_get_None {V : Type} (m : gmap string V) k :
  m !! k = None → dict_get m k = Raise (KeyError k).
Proof. intros H. unfold dict_get. by rewrite H. Qed.

(** The first loop of [validate_acyclic] stops with [KeyError] at the first
    blocking dependency one end of which is no key of the two dicts. *)
Lemma for_each_add_edge_dangling (keys : list string) (deps : list TaskDependency.t) :
  ∀ acc,
  (∀ k, is_Some (acc.1 !! k) ↔ k ∈ keys) → (∀ k, is_Some (acc.2 !! k) ↔ k ∈ keys) →
  (∃ d, d ∈ deps ∧ is_blocking d = true ∧
        (from_task_id d ∉ keys ∨ to_task_id d ∉ keys)) →
  ∃ k, (k ∉ keys) ∧ for_each add_edge acc deps = Raise (KeyError k).
Proof.
  induction deps as [|d deps IH]; intros acc Hk1 Hk2 (d0 & Hd0 & Hb0 & Hbad).
  { by apply elem_of_nil in Hd0. }
  rewrite for_each_cons.
  destruct (is_blocking d) eqn:Hb.
  - destruct (decide (to_task_id d ∈ keys)) as [Hto|Hto].
    + destruct (decide (from_task_id d ∈ keys)) as [Hfrom|Hfrom].
      * rewrite add_edge_build_edge, bind_Ok.
        2:{ intros _. split; [by apply Hk1|by apply Hk2]. }
        apply IH.
        -- intros k. destruct (build_edge_keys acc d k) as [H1 _].
           rewrite <- Hk1. split; [|done].
           unfold DependencyAnalyzer.build_edge, dl_append. rewrite Hb. simpl.
           rewrite lookup_insert. case_decide; [|done]. subst. intros _. by apply Hk1.
        -- intros k. rewrite <- Hk2. split; [|apply build_edge_keys].
           unfold DependencyAnalyzer.build_edge, dd_add. rewrite Hb. simpl.
           rewrite lookup_insert. case_decide; [|done]. subst. intros _. by apply Hk2.
        -- apply elem_of_cons in Hd0 as [->|Hd0]; [|by exists d0].
           destruct Hbad; done.
      * exists (from_task_id d). split; [done|].
        unfold add_edge. rewrite Hb.
        destruct (acc.1 !! to_task_id d) as [succs|] eqn:Hs.
        2:{ exfalso. apply Hk1 in Hto. rewrite Hs in Hto. by destruct Hto. }
        rewrite (dict_get_Some _ _ _ Hs), bind_Ok.
        destruct (acc.2 !! from_task_id d) eqn:Hn.
        { exfalso. apply Hfrom, Hk2. eauto. }
        by rewrite (dict_get_None _ _ Hn).
    + exists (to_task_id d). split; [done|].
      unfold add_edge. rewrite Hb.
      destruct (acc.1 !! to_task_id d) eqn:Hs.
      { exfalso. apply Hto, Hk1. eauto. }
      by rewrite (dict_get_None _ _ Hs).
  - assert (add_edge acc d = Ok acc) as ->.
    { unfold add_edge. by rewrite Hb. }
    rewrite bind_Ok. apply IH; [done|done|].
    apply elem_of_cons in Hd0 as [->|Hd0]; [congruence|by exists d0].
Qed.

(** X4.  When some blocking dependency has an end that is no task of the
    graph, [validate_acyclic] does not answer [False]: it raises [KeyError]
    for an identifier that is no task, from the plain dicts of its first
    loop. *)
Theorem validate_acyclic_dangling (g : DependencyGraph.t) :
  (∃ d, d ∈ dependencies g ∧ is_blocking d = true ∧
        (from_task_id d ∉ tasks g ∨ to_task_id d ∉ tasks g)) →
  ∃ k, (k ∉ tasks g) ∧ validate_acyclic g = Raise (KeyError k).
Proof.
  intros Hbad. unfold validate_acyclic.
  destruct (for_each_add_edge_dangling (tasks g) (dependencies g)
              (list_to_map ((λ id, (id, [])) <$> tasks g),
               list_to_map ((λ id, (id, 0%Z)) <$> tasks g))) as (k & Hk & ->).
  - intros k. simpl. rewrite lookup_const_map. case_decide; split; eauto; try done.
  - intros k. simpl. rewrite lookup_const_map. case_decide; split; eauto; try done.
  - done.
  - by exists k.
Qed.
End ValidateAcyclic.

(* ================================================================== *)
(** * The dependencies derived by the analyzer *)
(* ================================================================== *)

Section Analysis.
Import TaskDependency DependencyAnalyzer.


Lemma foldl_invariant {A B : Type} (P : A → Prop) (f : A → B → A) (l : list B) (a : A) :
  P a → (∀ a x, x ∈ l → P a → P (f a x)) → P (foldl f a l).
Proof.
  revert a. induction l as [|x l IH]; intros a Ha Hstep; [done|].
  simpl. apply IH.
  - apply Hstep; [left|done].
  - intros a' y Hy. apply Hstep. by right.
Qed.












End Analysis.

(* ================================================================== *)
(** * More on the layering *)
(* ================================================================== *)

Section Layering2.
Import TaskDependency DependencyAnalyzer.





Variable g : DependencyGraph.t.
Variable adj_list : gmap string (list string).
Variable task_lookup : gmap string CompleteTask.t.

#[local] Abbreviation deps := (DependencyGraph.dependencies g).

Hypothesis adj_spec : ∀ u,
  dl_get adj_list u =
  from_task_id <$> filter (λ d, is_blocking d = true ∧ to_task_id d = u) deps.

Lemma list_comp_dict_get (ids : list string) (ts : list CompleteTask.t) :
  list_comp (dict_get task_lookup) ids = Ok ts →
  Forall (λ task, ∃ id, task_lookup !! id = Some task) ts ∧ length ts = length ids.
Proof.
  revert ts. induction ids as [|id ids IH]; intros ts.
  { intros [= <-]. by split. }
  rewrite list_comp_cons.
  destruct (dict_get task_lookup id) as [task| |] eqn:Hget; [|by simpl|by simpl].
  assert (task_lookup !! id = Some task) as Hlk.
  { unfold dict_get in Hget. destruct (task_lookup !! id); by simplify_eq. }
  rewrite bind_Ok.
  destruct (list_comp (dict_get task_lookup) ids) as [ts'| |]; [|by simpl|by simpl].
  rewrite bind_Ok. intros [= <-]. destruct (IH ts' eq_refl) as [Hall Hlen].
  split; [|simpl; by rewrite Hlen]. constructor; [by exists id|done].
Qed.

Lemma layering_step_built (st st' : layering_state) :
  layering_step adj_list task_lookup st = Ok st' →
  ∃ layer, layers st' = layers st ++ [layer] ∧ layer_built task_lookup layer.
Proof.
  unfold layering_step.
  destruct (ready_tasks (remaining_tasks st) (in_degree st)) as [|c current] eqn:Hcur;
    [done|].
  destruct (list_comp (dict_get task_lookup) (c :: current)) as [ts| |] eqn:Hts;
    [|by simpl|by simpl].
  rewrite bind_Ok. apply list_comp_dict_get in Hts as [Hall Hlen].
  destruct ts as [|t0 ts]; [done|].
  destruct (py_max (CompleteTask.estimated_duration_minutes <$> t0 :: ts))
    as [m| |] eqn:Hmax; [|by simpl|by simpl].
  rewrite bind_Ok. unfold ExecutionLayer.new.
  destruct (decide (layer_number st < 0)%Z); [by simpl|]. rewrite bind_Ok.
  destruct (for_each (remove_layer_task adj_list) _ _) as [[remaining in_degree']| |];
    [|by simpl|by simpl].
  rewrite bind_Ok. intros [= <-]. simpl.
  eexists. split; [done|]. by split_and!.
Qed.

Lemma layering_loop_built (fuel : nat) : ∀ (st : layering_state) ls,
  layering_loop fuel adj_list task_lookup st = Ok ls →
  ∃ new, ls = layers st ++ new ∧ Forall (layer_built task_lookup) new.
Proof.
  induction fuel as [|fuel IH]; intros st ls; simpl.
  - destruct (decide (remaining_tasks st = ∅)); [|done].
    intros [= <-]. exists []. by rewrite app_nil_r.
  - destruct (decide (remaining_tasks st = ∅)).
    { intros [= <-]. exists []. by rewrite app_nil_r. }
    destruct (layering_step adj_list task_lookup st) as [st'| |] eqn:Hstep;
      [|by simpl|by simpl].
    rewrite bind_Ok. intros Hloop.
    apply layering_step_built in Hstep as (layer & Hl & Hbuilt).
    apply IH in Hloop as (new & -> & Hnew).
    exists (layer :: new). rewrite Hl, <- app_assoc. split; [done|]. by constructor.
Qed.

Lemma layering_loop_tight (fuel : nat) : ∀ st : layering_state,
  acyclic g →
  layering_inv deps (remaining_tasks st) (in_degree st) →
  (0 ≤ layer_number st)%Z →
  resolves task_lookup (remaining_tasks st) →
  (size (remaining_tasks st) ≤ fuel)%nat →
  ∃ ls, layering_loop fuel adj_list task_lookup st = Ok (layers st ++ ls) ∧
    (∀ l, ls !! 0%nat = Some l →
          ExecutionLayer.get_task_ids l = ready_tasks (remaining_tasks st) (in_degree st)) ∧
    tight g ls.
Proof.
  induction fuel as [|fuel IH]; intros st Hacyc Hinv Hnum Hres Hsize.
  - assert (remaining_tasks st = ∅) as Hempty
      by (apply leibniz_equiv, size_empty_inv; lia).
    exists []. split_and!.
    + simpl. rewrite decide_True by done. by rewrite app_nil_r.
    + done.
    + intros i id (l & Hl & _). done.
  - destruct (decide (remaining_tasks st = ∅)) as [Hempty|Hne].
    { exists []. split_and!.
      + simpl. rewrite decide_True by done. by rewrite app_nil_r.
      + done.
      + intros i id (l & Hl & _). done. }
    destruct (layering_step_ok g adj_list task_lookup adj_spec st Hacyc Hinv Hne Hnum Hres)
      as (layer & in_degree' & Hstep & Hids & Hln & Hinv' & Hcur_ne).
    set (current := ready_tasks (remaining_tasks st) (in_degree st)) in *.
    assert (∀ x, x ∈ current → x ∈ remaining_tasks st) as Hsub.
    { intros x Hx. by apply ready_tasks_elem in Hx as [_ ?]. }
    set (st' := mk_layering (remaining_tasks st ∖ list_to_set current) in_degree'
                  (layers st ++ [layer]) (layer_number st + 1)%Z) in *.
    destruct (IH st') as (ls & Hloop & Hfirst & Htight);
      [done|done|simpl; lia| | |].
    { intros id Hid. apply Hres. simpl in Hid. set_solver. }
    { simpl.
      assert (size (list_to_set current : gset string) = length current) as Hsz
        by (apply size_list_to_set, ready_tasks_NoDup).
      assert (list_to_set current ⊆ remaining_tasks st) as Hsubset.
      { intros x Hx. apply Hsub. by apply elem_of_list_to_set in Hx. }
      pose proof (size_difference _ _ Hsubset) as Hdiff.
      assert (length current ≠ 0%nat) as Hlen by (by destruct current).
      rewrite Hsz in Hdiff. lia. }
    exists (layer :: ls). split_and!.
    + simpl. rewrite decide_False by done. rewrite Hstep, bind_Ok, Hloop.
      simpl. by rewrite <- app_assoc.
    + intros l [= <-]. done.
    + intros i id Hin.
      apply in_layer_cons in Hin as [[? _]|(i' & [= <-] & Hin)]; [done|].
      destruct i as [|i].
      * destruct Hin as (l & Hl & Hid). rewrite (Hfirst l Hl) in Hid. simpl in Hid.
        apply ready_tasks_elem in Hid as [Hz Hrem].
        apply elem_of_difference in Hrem as [Hrem Hnew].
        rewrite elem_of_list_to_set in Hnew.
        assert (dd_get (in_degree st) id ≠ 0%Z) as Hnz.
        { intros Hzero. apply Hnew. by apply ready_tasks_elem. }
        rewrite Hinv in Hnz. rewrite Hinv' in Hz.
        pose proof (pending_difference g current (remaining_tasks st) id Hsub) as Hsplit.
        assert (length (filter (λ d, is_blocking d = true ∧ from_task_id d = id ∧
                                     to_task_id d ∈ current) deps) ≠ 0%nat) as Hpos by lia.
        apply length_filter_pos in Hpos as (d & Hd & Hb & Hfrom & Hto).
        exists (to_task_id d). split; [by exists d|].
        apply in_layer_cons. left. by rewrite Hids.
      * destruct (Htight i id Hin) as (v & Hdep & Hv).
        exists v. split; [done|]. apply in_layer_cons. right. by exists i.
Qed.
End Layering2.

Section Layering3.
Import TaskDependency DependencyAnalyzer.





Lemma make_task_lookup_Some (tasks : list CompleteTask.t) id task :
  make_task_lookup tasks !! id = Some task →
  task ∈ tasks ∧ CompleteTask.task_id task = id.
Proof.
  unfold make_task_lookup. revert id task.
  apply (foldl_invariant
           (λ m : gmap string CompleteTask.t,
              ∀ id task, m !! id = Some task →
                         task ∈ tasks ∧ CompleteTask.task_id task = id)).
  { intros id task. by rewrite lookup_empty. }
  intros m t Ht Hm id task. rewrite lookup_insert. case_decide as Heq.
  - intros [= <-]. done.
  - apply Hm.
Qed.

Lemma make_task_lookup_covers (tasks : list CompleteTask.t) id :
  id ∈ CompleteTask.task_id <$> tasks → is_Some (make_task_lookup tasks !! id).
Proof.
  unfold make_task_lookup.
  assert (∀ m : gmap string CompleteTask.t,
            is_Some (m !! id) ∨ id ∈ CompleteTask.task_id <$> tasks →
            is_Some (foldl (λ m task, <[CompleteTask.task_id task := task]> m) m tasks !! id))
    as H; [|intros Hin; apply H; by right].
  induction tasks as [|t tasks IH]; intros m.
  { intros [?|Hin]; [done|by apply elem_of_nil in Hin]. }
  simpl. intros Hm. apply IH. rewrite lookup_insert.
  destruct (decide (CompleteTask.task_id t = id)) as [Heq|Hne]; [left; eauto|].
  destruct Hm as [?|Hin]; [by left|].
  apply elem_of_cons in Hin as [?|?]; [done|by right].
Qed.

(** The state in which the layering loop starts. *)
Lemma layering_start (g : DependencyGraph.t) :
  edges_resolve g →
  ∃ adj_list in_degree,
    foldl build_edge
      (∅, foldl (λ m task_id, <[task_id := 0%Z]> m) ∅ (DependencyGraph.tasks g))
      (DependencyGraph.dependencies g) = (adj_list, in_degree) ∧
    (∀ u, dl_get adj_list u =
          from_task_id <$> filter (λ d, is_blocking d = true ∧ to_task_id d = u)
                             (DependencyGraph.dependencies g)) ∧
    (∀ t, dd_get in_degree t =
          Z.of_nat (length (filter (λ d, is_blocking d = true ∧ from_task_id d = t)
                              (DependencyGraph.dependencies g)))) ∧
    layering_inv (DependencyGraph.dependencies g)
      (list_to_set (DependencyGraph.tasks g)) in_degree.
Proof.
  intros Hedges.
  set (in_degree0 := foldl (λ m task_id, <[task_id := 0%Z]> m) ∅ (DependencyGraph.tasks g)).
  destruct (foldl build_edge (∅, in_degree0) (DependencyGraph.dependencies g))
    as [adj_list in_degree] eqn:Hbuild.
  exists adj_list, in_degree.
  assert (∀ t, dd_get in_degree t =
               Z.of_nat (length (filter (λ d, is_blocking d = true ∧ from_task_id d = t)
                                   (DependencyGraph.dependencies g)))) as Hdeg.
  { intros t.
    pose proof (build_edge_in_degree (DependencyGraph.dependencies g) (∅, in_degree0) t) as H.
    rewrite Hbuild in H. simpl in H. rewrite H.
    unfold in_degree0. rewrite in_degree0_zero
      by (unfold dd_get; by rewrite lookup_empty). lia. }
  split_and!; [done| |done|].
  - intros u.
    pose proof (build_edge_adj (DependencyGraph.dependencies g) (∅, in_degree0) u) as H.
    rewrite Hbuild in H. simpl in H. rewrite H. unfold dl_get at 1.
    by rewrite lookup_empty.
  - intros t. rewrite Hdeg. unfold pending. f_equal.
    apply length_filter_ext_in. intros d Hd. split.
    + intros [Hb Hfrom]. split_and!; [done|done|].
      apply elem_of_list_to_set. by apply Hedges.
    + intros (Hb & Hfrom & _). done.
Qed.

Lemma resolves_start (g : DependencyGraph.t) (task_lookup : gmap string CompleteTask.t) :
  lookup_covers g task_lookup → durations_specified g task_lookup →
  resolves task_lookup (list_to_set (DependencyGraph.tasks g)).
Proof.
  intros Hcov Hdur id Hid. apply elem_of_list_to_set in Hid.
  destruct (Hcov id Hid) as (task & Hlk & Htid).
  exists task. split_and!; [done|done|]. by eapply Hdur.
Qed.

(** The first layer holds the tasks without blocking dependency, and every
    task of a later layer has a blocking dependency in the layer just
    before. *)
Lemma generate_layers_first_tight (g : DependencyGraph.t)
    (task_lookup : gmap string CompleteTask.t) :
  acyclic g → edges_resolve g → lookup_covers g task_lookup →
  durations_specified g task_lookup →
  ∃ layers,
    _generate_execution_layers g task_lookup = Ok layers ∧
    (∀ id, in_layer layers 0 id ↔
           id ∈ DependencyGraph.tasks g ∧ ∀ v, ¬ blocking_dep g id v) ∧
    (∀ i id, in_layer layers (S i) id →
             ∃ v, blocking_dep g id v ∧ in_layer layers i v).
Proof.
  intros Hacyc Hedges Hcov Hdur.
  destruct (generate_execution_layers_correct g task_lookup Hacyc Hedges Hcov Hdur)
    as (layers & Hgen & Hplaced & _).
  exists layers. split; [done|].
  revert Hgen. unfold _generate_execution_layers.
  destruct (layering_start g Hedges) as (adj_list & in_degree & -> & Hadj & Hdeg & Hinv).
  set (st := mk_layering (list_to_set (DependencyGraph.tasks g)) in_degree [] 0%Z).
  destruct (layering_loop_tight g adj_list task_lookup Hadj
              (size (list_to_set (DependencyGraph.tasks g) : gset string)) st)
    as (ls & Hloop & Hfirst & Htight);
    [done|done|simpl; lia|by apply resolves_start|done|].
  rewrite Hloop. simpl. intros [= <-].
  assert (∀ id, (∀ v, ¬ blocking_dep g id v) ↔ dd_get in_degree id = 0%Z) as Hfree.
  { intros id. rewrite Hdeg. split.
    - intros Hnone.
      destruct (decide (length (filter (λ d, is_blocking d = true ∧ from_task_id d = id)
                                  (DependencyGraph.dependencies g)) = 0%nat))
        as [->|Hpos]; [done|].
      apply length_filter_pos in Hpos as (d & Hd & Hb & Hfrom).
      exfalso. apply (Hnone (to_task_id d)). by exists d.
    - intros Hz v (d & Hd & Hb & Hfrom & _).
      apply (length_filter_zero
               (λ d, is_blocking d = true ∧ from_task_id d = id)
               (DependencyGraph.dependencies g) d); [lia|done|done]. }
  split; [|done].
  intros id. split.
  - intros (l & Hl & Hid). rewrite (Hfirst l Hl) in Hid. simpl in Hid.
    apply ready_tasks_elem in Hid as [Hz Hin].
    apply elem_of_list_to_set in Hin. split; [done|]. by apply Hfree.
  - intros [Hin Hnone]. destruct (Hplaced id Hin) as (i & Hi & _).
    destruct i as [|i]; [done|].
    destruct (Htight i id Hi) as (v & Hv & _). by apply Hnone in Hv.
Qed.
End Layering3.

(* ================================================================== *)
(** * From the analysed tasks to the execution graph *)
(* ================================================================== *)

Section Pipeline.
Import TaskDependency DependencyAnalyzer.

Lemma generate_layers_built (g : DependencyGraph.t)
    (task_lookup : gmap string CompleteTask.t) (layers : list ExecutionLayer.t) :
  _generate_execution_layers g task_lookup = Ok layers →
  Forall (layer_built task_lookup) layers.
Proof.
  unfold _generate_execution_layers.
  destruct (foldl build_edge _ _) as [adj_list in_degree].
  intros Hloop. apply layering_loop_built in Hloop as (new & -> & Hnew). done.
Qed.

(** The identifiers placed by the layering are the tasks of the graph,
    each once. *)
Lemma generate_layers_partition (g : DependencyGraph.t)
    (task_lookup : gmap string CompleteTask.t) :
  acyclic g → edges_resolve g → lookup_covers g task_lookup →
  durations_specified g task_lookup → NoDup (DependencyGraph.tasks g) →
  ∃ layers,
    _generate_execution_layers g task_lookup = Ok layers ∧
    concat (ExecutionLayer.get_task_ids <$> layers) ≡ₚ DependencyGraph.tasks g.
Proof.
  intros Hacyc Hedges Hcov Hdur Hnd.
  unfold _generate_execution_layers.
  destruct (layering_start g Hedges) as (adj_list & in_degree & -> & Hadj & Hdeg & Hinv).
  set (st := mk_layering (list_to_set (DependencyGraph.tasks g)) in_degree [] 0%Z).
  destruct (layering_loop_ok g adj_list task_lookup Hadj
              (size (list_to_set (DependencyGraph.tasks g) : gset string)) st)
    as (ls & Hloop & Hnodup & Hmem & _);
    [done|done|simpl; lia|by apply resolves_start|done|].
  exists ls. split; [done|].
  apply NoDup_Permutation; [done|done|].
  intros id. rewrite Hmem. simpl. by rewrite elem_of_list_to_set.
Qed.






End Pipeline.

Section Phase1.
Import TaskDependency DependencyAnalyzer.

Lemma make_task_lookup_lookup_covers (tasks : list CompleteTask.t)
    (dependencies : list TaskDependency.t) :
  lookup_covers (DependencyGraph.mk (CompleteTask.task_id <$> tasks) dependencies)
    (make_task_lookup tasks).
Proof.
  intros id Hid. destruct (make_task_lookup_covers tasks id Hid) as [task Htask].
  exists task. split; [done|]. by apply make_task_lookup_Some in Htask as [_ ?].
Qed.

Lemma make_task_lookup_durations (tasks : list CompleteTask.t) (g : DependencyGraph.t) :
  Forall (λ task, is_Some (CompleteTask.estimated_duration_minutes task)) tasks →
  durations_specified g (make_task_lookup tasks).
Proof.
  intros Hdur id task _ Hlk. apply make_task_lookup_Some in Hlk as [Hin _].
  rewrite Forall_forall in Hdur. by apply Hdur.
Qed.

(** X1.  On every acyclic graph of distinct tasks whose blocking edges
    point to tasks of the graph, with every task resolved by [task_lookup]
    to a task with an estimated duration, [_generate_execution_layers]
    returns layers that partition the tasks: the identifiers of the layers,
    put one after the other, are a rearrangement of the task list; the
    layers are numbered by their position and none is empty; and every
    blocking dependency lies in a strictly earlier layer than the task that
    depends on it. *)
Theorem execution_layers_partition (g : DependencyGraph.t)
    (task_lookup : gmap string CompleteTask.t) :
  acyclic g → edges_resolve g → lookup_covers g task_lookup →
  durations_specified g task_lookup → NoDup (DependencyGraph.tasks g) →
  ∃ layers,
    _generate_execution_layers g task_lookup = Ok layers ∧
    concat (ExecutionLayer.get_task_ids <$> layers) ≡ₚ DependencyGraph.tasks g ∧
    (∀ (i : nat) l, layers !! i = Some l →
       ExecutionLayer.layer_number l = Z.of_nat i ∧ ExecutionLayer.tasks l ≠ []) ∧
    (∀ d i j, d ∈ DependencyGraph.dependencies g → is_blocking d = true →
       in_layer layers i (from_task_id d) → in_layer layers j (to_task_id d) →
       (j < i)%nat).
Proof.
  intros Hacyc Hedges Hcov Hspec Hnd.
  destruct (generate_layers_partition g task_lookup Hacyc Hedges Hcov Hspec Hnd)
    as (layers & Hgen & Hperm).
  destruct (generate_execution_layers_correct g task_lookup Hacyc Hedges Hcov Hspec)
    as (layers' & Hgen' & _ & _ & Hnum & Hord).
  rewrite Hgen in Hgen'. injection Hgen' as <-.
  pose proof (generate_layers_built g task_lookup layers Hgen) as Hbuilt.
  exists layers. split_and!; [done|done| |done].
  intros i l Hi. split; [by apply Hnum in Hi as [? _]|].
  rewrite Forall_lookup in Hbuilt. by apply Hbuilt in Hi as [? _].
Qed.

Lemma execution_layers_partition_witness :
  acyclic Samples.four_tasks_graph ∧
  NoDup (DependencyGraph.tasks Samples.four_tasks_graph) ∧
  ∃ layers,
    _generate_execution_layers Samples.four_tasks_graph
      (make_task_lookup Samples.four_tasks) = Ok layers ∧
    concat (ExecutionLayer.get_task_ids <$> layers) ≡ₚ ["A"; "B"; "C"; "D"] ∧
    (∀ (i : nat) l, layers !! i = Some l →
       ExecutionLayer.layer_number l = Z.of_nat i ∧ ExecutionLayer.tasks l ≠ []) ∧
    (∀ d i j, d ∈ DependencyGraph.dependencies Samples.four_tasks_graph →
       is_blocking d = true →
       in_layer layers i (from_task_id d) → in_layer layers j (to_task_id d) →
       (j < i)%nat).
Proof.
  assert (NoDup (DependencyGraph.tasks Samples.four_tasks_graph)) as Hnd
    by (apply (bool_decide_unpack _); vm_compute; exact I).
  assert (ends_resolve Samples.four_tasks_graph) as Hends
    by (apply ends_resolve_Forall, (bool_decide_unpack _); vm_compute; exact I).
  assert (acyclic Samples.four_tasks_graph) as Hacyc
    by (apply validate_acyclic_sound; [exact Hnd|exact Hends|vm_compute; reflexivity]).
  split; [exact Hacyc|]. split; [exact Hnd|].
  apply (execution_layers_partition Samples.four_tasks_graph
           (make_task_lookup Samples.four_tasks)).
  - exact Hacyc.
  - apply ends_resolve_edges_resolve, Hends.
  - apply (make_task_lookup_lookup_covers Samples.four_tasks).
  - apply make_task_lookup_durations. repeat constructor; simpl; eauto.
  - exact Hnd.
Defined.


Lemma four_tasks_graph_checked :
  NoDup (DependencyGraph.tasks Samples.four_tasks_graph) ∧
  ends_resolve Samples.four_tasks_graph ∧
  acyclic Samples.four_tasks_graph.
Proof.
  assert (NoDup (DependencyGraph.tasks Samples.four_tasks_graph)) as Hnd
    by (apply (bool_decide_unpack _); vm_compute; exact I).
  assert (ends_resolve Samples.four_tasks_graph) as Hends
    by (apply ends_resolve_Forall, (bool_decide_unpack _); vm_compute; exact I).
  split_and!; [done|done|].
  apply validate_acyclic_sound; [exact Hnd|exact Hends|vm_compute; reflexivity].
Qed.

Lemma validate_acyclic_decides_witness :
  NoDup (DependencyGraph.tasks Samples.four_tasks_graph) ∧
  ends_resolve Samples.four_tasks_graph ∧
  ∃ b, DependencyGraph.validate_acyclic Samples.four_tasks_graph = Ok b ∧
       (b = true ↔ acyclic Samples.four_tasks_graph).
Proof.
  destruct four_tasks_graph_checked as (Hnd & Hends & _).
  split; [exact Hnd|]. split; [exact Hends|].
  exact (validate_acyclic_decides Samples.four_tasks_graph Hnd Hends).
Defined.

Lemma validate_acyclic_dangling_witness :
  (∃ d, d ∈ DependencyGraph.dependencies Samples.graph_dangling ∧
        is_blocking d = true ∧
        (from_task_id d ∉ DependencyGraph.tasks Samples.graph_dangling ∨
         to_task_id d ∉ DependencyGraph.tasks Samples.graph_dangling)) ∧
  ∃ k, (k ∉ DependencyGraph.tasks Samples.graph_dangling) ∧
       DependencyGraph.validate_acyclic Samples.graph_dangling = Raise (KeyError k).
Proof.
  assert (∃ d, d ∈ DependencyGraph.dependencies Samples.graph_dangling ∧
               is_blocking d = true ∧
               (from_task_id d ∉ DependencyGraph.tasks Samples.graph_dangling ∨
                to_task_id d ∉ DependencyGraph.tasks Samples.graph_dangling)) as Hbad.
  { exists (TaskDependency.mk "A" "ghost" EXPLICIT true).
    split; [left|]. split; [reflexivity|]. right.
    apply (bool_decide_unpack _). vm_compute. exact I. }
  split; [exact Hbad|].
  exact (validate_acyclic_dangling Samples.graph_dangling Hbad).
Defined.



End Phase1.

(* ================================================================== *)
(** * The layers and the queries of the dependency graph                *)
(* ================================================================== *)

Section GraphQueries.
Import TaskDependency DependencyAnalyzer.

Lemma in_layer_chain (g : DependencyGraph.t) (layers : list ExecutionLayer.t) :
  (∀ id, in_layer layers 0 id → id ∈ DependencyGraph.tasks g) →
  tight g layers →
  ∀ i id, in_layer layers i id → dependency_chain g i id.
Proof.
  intros Hfirst Htight. induction i as [|i IH]; intros id Hid.
  - by apply Hfirst.
  - destruct (Htight i id Hid) as (v & Hdep & Hv). exists v. split; [done|by apply IH].
Qed.

Lemma chain_bounded (g : DependencyGraph.t) (layers : list ExecutionLayer.t) :
  edges_resolve g →
  (∀ id, id ∈ DependencyGraph.tasks g → ∃ i, in_layer layers i id) →
  (∀ d i j, d ∈ DependencyGraph.dependencies g → is_blocking d = true →
     in_layer layers i (from_task_id d) → in_layer layers j (to_task_id d) →
     (j < i)%nat) →
  ∀ n id i, dependency_chain g n id → in_layer layers i id → (n ≤ i)%nat.
Proof.
  intros Hedges Hplaced Hord. induction n as [|n IH]; intros id i Hchain Hid; [lia|].
  destruct Hchain as (v & (d & Hd & Hb & <- & <-) & Hchain).
  destruct (Hplaced (to_task_id d)) as [j Hj]; [by apply Hedges|].
  pose proof (Hord d i j Hd Hb Hid Hj). pose proof (IH _ _ Hchain Hj). lia.
Qed.

(** X2.  The layer of a task is the length of its longest chain of
    blocking dependencies.  Under the conditions of the layering, a task
    of the layer at position [i] starts a chain of [i] blocking
    dependencies, and no chain of blocking dependencies that starts at it
    is longer: no task is placed later than its dependencies force. *)
Theorem layer_is_longest_chain (g : DependencyGraph.t)
    (task_lookup : gmap string CompleteTask.t) :
  acyclic g → edges_resolve g → lookup_covers g task_lookup →
  durations_specified g task_lookup →
  ∃ layers,
    _generate_execution_layers g task_lookup = Ok layers ∧
    ∀ i id, in_layer layers i id →
      dependency_chain g i id ∧ ∀ n, dependency_chain g n id → (n ≤ i)%nat.
Proof.
  intros Hacyc Hedges Hcov Hdur.
  destruct (generate_layers_first_tight g task_lookup Hacyc Hedges Hcov Hdur)
    as (layers & Hgen & Hfirst & Htight).
  destruct (generate_execution_layers_correct g task_lookup Hacyc Hedges Hcov Hdur)
    as (layers' & Hgen' & Hplaced & _ & _ & Hord).
  rewrite Hgen in Hgen'. injection Hgen' as <-.
  exists layers. split; [done|]. intros i id Hid. split.
  - apply (in_layer_chain g layers); [|done|done].
    intros id' Hid'. by apply Hfirst in Hid' as [? _].
  - intros n Hchain. apply (chain_bounded g layers Hedges) with id; [|done|done|done].
    intros id' Hid'. destruct (Hplaced id' Hid') as (j & Hj & _). by exists j.
Qed.

Lemma elem_of_get_independent_tasks (g : DependencyGraph.t) (id : string) :
  id ∈ DependencyGraph.get_independent_tasks g ↔
  id ∈ DependencyGraph.tasks g ∧
  ∀ d, d ∈ DependencyGraph.dependencies g → from_task_id d ≠ id.
Proof.
  unfold DependencyGraph.get_independent_tasks. rewrite list_elem_of_filter.
  rewrite elem_of_list_to_set, list_elem_of_fmap. split.
  - intros [Hno Hin]. split; [done|]. intros d Hd Heq. apply Hno. by exists d.
  - intros [Hin Hno]. split; [|done]. intros (d & -> & Hd). by apply (Hno d).
Qed.

Lemma elem_of_get_leaf_tasks (g : DependencyGraph.t) (id : string) :
  id ∈ DependencyGraph.get_leaf_tasks g ↔
  id ∈ DependencyGraph.tasks g ∧
  ∀ d, d ∈ DependencyGraph.dependencies g → to_task_id d ≠ id.
Proof.
  unfold DependencyGraph.get_leaf_tasks. rewrite list_elem_of_filter.
  rewrite elem_of_list_to_set, list_elem_of_fmap. split.
  - intros [Hno Hin]. split; [done|]. intros d Hd Heq. apply Hno. by exists d.
  - intros [Hin Hno]. split; [|done]. intros (d & -> & Hd). by apply (Hno d).
Qed.

Lemma filter_nil_iff {A} (P : A → Prop) `{!∀ x, Decision (P x)} (l : list A) :
  filter P l = [] ↔ ∀ x, x ∈ l → ¬ P x.
Proof.
  split.
  - intros Hnil x Hx HP.
    assert (x ∈ filter P l) as Hin by (by apply list_elem_of_filter).
    rewrite Hnil in Hin. by apply elem_of_nil in Hin.
  - intros Hno. destruct (filter P l) as [|x l'] eqn:Hf; [done|].
    assert (x ∈ filter P l) as Hin by (rewrite Hf; left).
    apply list_elem_of_filter in Hin as [HP Hin]. by apply Hno in Hin.
Qed.

(** X10.  [get_independent_tasks] and [get_leaf_tasks] against the layers.
    A task is independent exactly when it is a task of the graph for which
    [get_dependencies_for_task] is empty, and a leaf exactly when
    [get_dependents_for_task] is empty.  Every independent task is placed in
    the first layer.  When all dependencies of the graph are blocking, the
    first layer holds nothing but the independent tasks, every task of the
    last layer is a leaf, and a graph with a task has an independent task
    and a leaf. *)
Theorem independent_and_leaf_tasks (g : DependencyGraph.t)
    (task_lookup : gmap string CompleteTask.t) :
  acyclic g → ends_resolve g → lookup_covers g task_lookup →
  durations_specified g task_lookup →
  ∃ layers,
    _generate_execution_layers g task_lookup = Ok layers ∧
    (∀ id, id ∈ DependencyGraph.get_independent_tasks g ↔
           id ∈ DependencyGraph.tasks g ∧ DependencyGraph.get_dependencies_for_task g id = []) ∧
    (∀ id, id ∈ DependencyGraph.get_leaf_tasks g ↔
           id ∈ DependencyGraph.tasks g ∧ DependencyGraph.get_dependents_for_task g id = []) ∧
    (∀ id, id ∈ DependencyGraph.get_independent_tasks g → in_layer layers 0 id) ∧
    ((∀ d, d ∈ DependencyGraph.dependencies g → is_blocking d = true) →
     (∀ id, in_layer layers 0 id → id ∈ DependencyGraph.get_independent_tasks g) ∧
     (∀ id, in_layer layers (pred (length layers)) id →
            id ∈ DependencyGraph.get_leaf_tasks g) ∧
     (DependencyGraph.tasks g ≠ [] →
      DependencyGraph.get_independent_tasks g ≠ [] ∧ DependencyGraph.get_leaf_tasks g ≠ [])).
Proof.
  intros Hacyc Hends Hcov Hdur.
  pose proof (ends_resolve_edges_resolve g Hends) as Hedges.
  destruct (generate_layers_first_tight g task_lookup Hacyc Hedges Hcov Hdur)
    as (layers & Hgen & Hfirst & Htight).
  destruct (generate_execution_layers_correct g task_lookup Hacyc Hedges Hcov Hdur)
    as (layers' & Hgen' & Hplaced & Hin_tasks & _ & Hord).
  rewrite Hgen in Hgen'. injection Hgen' as <-.
  pose proof (generate_layers_built g task_lookup layers Hgen) as Hbuilt.
  exists layers. split; [done|]. split_and!.
  - intros id. rewrite elem_of_get_independent_tasks.
    unfold DependencyGraph.get_dependencies_for_task. rewrite filter_nil_iff. done.
  - intros id. rewrite elem_of_get_leaf_tasks.
    unfold DependencyGraph.get_dependents_for_task. rewrite filter_nil_iff. done.
  - intros id [Hin Hno]%elem_of_get_independent_tasks. apply Hfirst. split; [done|].
    intros v (d & Hd & _ & Hfrom & _). by apply (Hno d).
  - intros Hall.
    assert (∀ id, in_layer layers 0 id → id ∈ DependencyGraph.get_independent_tasks g)
      as Hzero.
    { intros id [Hin Hno]%Hfirst. apply elem_of_get_independent_tasks. split; [done|].
      intros d Hd Hfrom. apply (Hno (to_task_id d)). exists d. split_and!; auto. }
    assert (∀ id, in_layer layers (pred (length layers)) id →
                  id ∈ DependencyGraph.get_leaf_tasks g) as Hlast.
    { intros id Hid. apply elem_of_get_leaf_tasks. split; [by eapply Hin_tasks|].
      intros d Hd Hto.
      assert (is_blocking d = true) as Hb by auto.
      destruct (Hends d Hd Hb) as [Hfrom _].
      destruct (Hplaced _ Hfrom) as (i & Hi & _).
      assert (pred (length layers) < i)%nat as Hlt
        by (apply (Hord d); [done|done|done|by rewrite Hto]).
      destruct Hi as (l & Hl & _). apply lookup_lt_Some in Hl. lia. }
    split_and!; [done|done|].
    intros Hne.
    assert (∀ i, (i < length layers)%nat → ∃ id, in_layer layers i id) as Hsome.
    { intros i Hi. destruct (lookup_lt_is_Some_2 layers i Hi) as [l Hl].
      rewrite Forall_lookup in Hbuilt. destruct (Hbuilt i l Hl) as [Hl_ne _].
      destruct (ExecutionLayer.tasks l) as [|task rest] eqn:Htasks; [done|].
      exists (CompleteTask.task_id task), l. split; [done|].
      unfold ExecutionLayer.get_task_ids. rewrite Htasks. left. }
    assert (0 < length layers)%nat as Hlen.
    { destruct (DependencyGraph.tasks g) as [|t ts] eqn:Htasks; [done|].
      destruct (Hplaced t) as (i & (l & Hl & _) & _); [left|].
      apply lookup_lt_Some in Hl. lia. }
    split.
    + destruct (Hsome 0%nat Hlen) as [id Hid]. apply Hzero in Hid.
      intros Hnil. rewrite Hnil in Hid. by apply elem_of_nil in Hid.
    + destruct (Hsome (pred (length layers))) as [id Hid]; [lia|]. apply Hlast in Hid.
      intros Hnil. rewrite Hnil in Hid. by apply elem_of_nil in Hid.
Qed.
End GraphQueries.

(* ================================================================== *)
(** * Durations, metrics and the schedule of an execution graph         *)
(* ================================================================== *)

Section GraphMetrics.
Import ExecutionGraphMetrics.

Lemma foldl_max_spec (l : list Z) : ∀ x : Z,
  (x ≤ foldl Z.max x l)%Z ∧ Forall (λ y, (y ≤ foldl Z.max x l)%Z) l ∧
  (foldl Z.max x l = x ∨ foldl Z.max x l ∈ l).
Proof.
  induction l as [|y l IH]; intros x; simpl.
  { split_and!; [lia|constructor|by left]. }
  destruct (IH (Z.max x y)) as (Hx & Hall & Hm). split_and!; [lia| |].
  - constructor; [lia|done].
  - destruct Hm as [Hm|Hm]; [|right; by right].
    rewrite Hm. destruct (Z.max_spec x y) as [[_ ->]|[_ ->]]; [right; left|by left].
Qed.

Lemma or_60_positive (d : option Z) : (∀ v, d = Some v → 0 ≤ v)%Z → (0 < ExecutionLayer.or_60 d)%Z.
Proof.
  intros Hd. unfold ExecutionLayer.or_60. destruct d as [v|]; [|lia].
  case_decide; [lia|]. specialize (Hd v eq_refl). lia.
Qed.

(** What [calculate_estimated_duration] returns on a layer with tasks. *)
Lemma calculate_estimated_duration_spec (l : ExecutionLayer.t) :
  ExecutionLayer.tasks l ≠ [] →
  ∃ m, ExecutionLayer.calculate_estimated_duration l =
         (m, ExecutionLayer.mk (ExecutionLayer.layer_number l) (ExecutionLayer.tasks l)
               (ExecutionLayer.dependencies_satisfied l) (Some m)) ∧
       Forall (λ task, (ExecutionLayer.or_60 (CompleteTask.estimated_duration_minutes task) ≤ m)%Z)
         (ExecutionLayer.tasks l) ∧
       ∃ task, task ∈ ExecutionLayer.tasks l ∧
               ExecutionLayer.or_60 (CompleteTask.estimated_duration_minutes task) = m.
Proof.
  intros Hne. unfold ExecutionLayer.calculate_estimated_duration.
  destruct (ExecutionLayer.tasks l) as [|task rest] eqn:Htasks; [done|].
  eexists. split; [reflexivity|].
  destruct (foldl_max_spec
              ((λ task, ExecutionLayer.or_60 (CompleteTask.estimated_duration_minutes task)) <$> rest)
              (ExecutionLayer.or_60 (CompleteTask.estimated_duration_minutes task)))
    as (Hx & Hall & Hm).
  split.
  - constructor; [done|]. rewrite Forall_fmap in Hall. done.
  - destruct Hm as [Hm|Hm].
    + exists task. split; [left|done].
    + apply list_elem_of_fmap in Hm as (task' & Heq & Hin).
      exists task'. split; [by right|done].
Qed.

(** X11.  [ExecutionLayer.calculate_estimated_duration].  A layer without
    tasks yields [0] and is not touched.  Otherwise the result is the
    largest duration of a task of the layer, where a missing duration and a
    duration of zero count as 60 minutes; it is the duration of one of the
    tasks, it is stored in the layer, nothing else of the layer changes, and
    computing it again gives the same. *)
Theorem layer_duration_is_max (l : ExecutionLayer.t) :
  let '(m, l') := ExecutionLayer.calculate_estimated_duration l in
  ExecutionLayer.tasks l' = ExecutionLayer.tasks l ∧
  ExecutionLayer.layer_number l' = ExecutionLayer.layer_number l ∧
  ExecutionLayer.dependencies_satisfied l' = ExecutionLayer.dependencies_satisfied l ∧
  ExecutionLayer.calculate_estimated_duration l' = (m, l') ∧
  match ExecutionLayer.tasks l with
  | [] => m = 0%Z ∧ l' = l
  | _ =>
      ExecutionLayer.estimated_duration_minutes l' = Some m ∧
      Forall (λ task,
                match CompleteTask.estimated_duration_minutes task with
                | Some v => if decide (v = 0%Z) then (60 ≤ m)%Z else (v ≤ m)%Z
                | None => (60 ≤ m)%Z
                end) (ExecutionLayer.tasks l) ∧
      ∃ task, task ∈ ExecutionLayer.tasks l ∧
              match CompleteTask.estimated_duration_minutes task with
              | Some v => if decide (v = 0%Z) then m = 60%Z else m = v
              | None => m = 60%Z
              end
  end.
Proof.
  destruct (ExecutionLayer.tasks l) as [|task rest] eqn:Htasks.
  { assert (ExecutionLayer.calculate_estimated_duration l = (0%Z, l)) as Hcalc
      by (unfold ExecutionLayer.calculate_estimated_duration; by rewrite Htasks).
    rewrite Hcalc. done. }
  destruct (calculate_estimated_duration_spec l) as (m & Hcalc & Hall & task' & Hin & Hm);
    [by rewrite Htasks|].
  rewrite Hcalc. simpl. split_and!; [done|done|done| | | |].
  - destruct (calculate_estimated_duration_spec
                (ExecutionLayer.mk (ExecutionLayer.layer_number l) (ExecutionLayer.tasks l)
                   (ExecutionLayer.dependencies_satisfied l) (Some m)))
      as (m' & Hcalc' & _); [simpl; by rewrite Htasks|].
    rewrite Hcalc'. simpl.
    unfold ExecutionLayer.calculate_estimated_duration in Hcalc, Hcalc'.
    simpl in Hcalc'. rewrite Htasks in Hcalc, Hcalc'.
    injection Hcalc as Hm1 _. injection Hcalc' as Hm2 _. congruence.
  - done.
  - rewrite <- Htasks. eapply Forall_impl; [exact Hall|]. intros t Ht. simpl in Ht.
    unfold ExecutionLayer.or_60 in Ht.
    destruct (CompleteTask.estimated_duration_minutes t) as [v|]; [|done].
    by case_decide.
  - exists task'. rewrite <- Htasks. split; [done|]. unfold ExecutionLayer.or_60 in Hm.
    destruct (CompleteTask.estimated_duration_minutes task') as [v|]; [|done].
    by case_decide.
Qed.

Lemma sum_task_counts_acc (p : Z → bool) (ls : list ExecutionLayer.t) : ∀ acc : Z,
  foldl (λ acc layer,
           let n := Z.of_nat (length (ExecutionLayer.tasks layer)) in
           if p n then (acc + n)%Z else acc) acc ls
  = (acc + sum_task_counts p ls)%Z.
Proof.
  unfold sum_task_counts. induction ls as [|l ls IH]; intros acc; simpl; [lia|].
  rewrite IH. rewrite (IH (if p _ then _ else _)). destruct (p _); lia.
Qed.

Lemma sum_task_counts_cons (p : Z → bool) (l : ExecutionLayer.t) (ls : list ExecutionLayer.t) :
  sum_task_counts p (l :: ls) =
  ((if p (Z.of_nat (length (ExecutionLayer.tasks l)))
    then Z.of_nat (length (ExecutionLayer.tasks l)) else 0) + sum_task_counts p ls)%Z.
Proof.
  unfold sum_task_counts at 1. simpl. rewrite sum_task_counts_acc. destruct (p _); lia.
Qed.

Lemma task_counts_split (ls : list ExecutionLayer.t) :
  (0 ≤ sum_task_counts (λ n, bool_decide (1 < n)%Z) ls)%Z ∧
  (sum_task_counts (λ n, bool_decide (1 < n)%Z) ls +
   sum_task_counts (λ n, bool_decide (n = 1)%Z) ls)%Z
  = Z.of_nat (length (concat (ExecutionLayer.tasks <$> ls))) ∧
  sum_task_counts (λ n, bool_decide (n = 1)%Z) ls
  = Z.of_nat (length (filter (λ l, length (ExecutionLayer.tasks l) = 1%nat) ls)).
Proof.
  induction ls as [|l ls (IH0 & IH1 & IH2)]; [done|].
  rewrite !sum_task_counts_cons, fmap_cons, filter_cons. simpl concat.
  rewrite length_app. repeat case_bool_decide; case_decide; simpl length; lia.
Qed.

Lemma foldl_Zadd (l : list Z) : ∀ acc : Z,
  foldl Z.add acc l = (acc + foldr Z.add 0 l)%Z.
Proof. induction l as [|x l IH]; intros acc; simpl; [lia|]. rewrite IH. lia. Qed.

(** X12.  [calculate_parallelization_metrics].  On a graph without layers
    nothing changes.  Otherwise every task of a layer is counted once:
    [sequential_tasks] is the number of layers with exactly one task,
    [parallel_tasks] counts the tasks of the layers with several, and the
    two add up to the number of tasks in the layers.  When [total_tasks] is
    positive the factor becomes [parallel_tasks / total_tasks], which lies
    between 0 and 1 when [total_tasks] is the number of tasks in the
    layers; otherwise the factor is kept.  The total duration becomes the
    sum of what [calculate_estimated_duration] returns on the layers, and
    the layers keep their tasks. *)
Theorem parallelization_metrics_count (self : ExecutionGraph.t) (m : metrics) :
  let '(self', m') := calculate_parallelization_metrics self m in
  let n_tasks := Z.of_nat (length (concat (ExecutionLayer.tasks <$>
                                             ExecutionGraph.execution_layers self))) in
  match ExecutionGraph.execution_layers self with
  | [] => self' = self ∧ m' = m
  | _ =>
      (0 ≤ parallel_tasks m')%Z ∧
      sequential_tasks m' =
        Z.of_nat (length (filter (λ l, length (ExecutionLayer.tasks l) = 1%nat)
                            (ExecutionGraph.execution_layers self))) ∧
      (parallel_tasks m' + sequential_tasks m')%Z = n_tasks ∧
      (if decide (0 < ExecutionGraph.total_tasks self)%Z
       then ExecutionGraph.parallelization_factor self' =
              (inject_Z (parallel_tasks m') / inject_Z (ExecutionGraph.total_tasks self))%Q ∧
            (ExecutionGraph.total_tasks self = n_tasks →
             (0 <= ExecutionGraph.parallelization_factor self')%Q ∧
             (ExecutionGraph.parallelization_factor self' <= 1)%Q)
       else ExecutionGraph.parallelization_factor self' =
              ExecutionGraph.parallelization_factor self) ∧
      estimated_total_duration_minutes m' =
        Some (foldr Z.add 0%Z
                ((λ l, (ExecutionLayer.calculate_estimated_duration l).1) <$>
                   ExecutionGraph.execution_layers self)) ∧
      ExecutionLayer.tasks <$> ExecutionGraph.execution_layers self' =
        ExecutionLayer.tasks <$> ExecutionGraph.execution_layers self ∧
      ExecutionGraph.total_tasks self' = ExecutionGraph.total_tasks self
  end.
Proof.
  unfold calculate_parallelization_metrics.
  destruct (ExecutionGraph.execution_layers self) as [|l0 ls0] eqn:Hlayers; [done|].
  rewrite <- Hlayers. clear Hlayers. set (ls := ExecutionGraph.execution_layers self).
  destruct (task_counts_split ls) as (Hpos & Hsum & Hseq).
  simpl. split_and!; [done|done|done| | | |done].
  - case_decide as Htotal; [|done]. split; [done|]. intros Heq.
    set (k := sum_task_counts (λ n, bool_decide (1 < n)%Z) ls) in *.
    assert (k ≤ ExecutionGraph.total_tasks self)%Z as Hle.
    { rewrite Heq, <- Hsum. rewrite Hseq. lia. }
    assert (0 < inject_Z (ExecutionGraph.total_tasks self))%Q as Hq
      by (change 0%Q with (inject_Z 0); rewrite <- Zlt_Qlt; lia).
    split.
    + apply Qle_shift_div_l; [done|]. rewrite Qmult_0_l.
      change 0%Q with (inject_Z 0). rewrite <- Zle_Qle. done.
    + apply Qle_shift_div_r; [done|]. rewrite Qmult_1_l. by rewrite <- Zle_Qle.
  - f_equal. rewrite foldl_Zadd, <- list_fmap_compose. simpl. done.
  - rewrite <- !list_fmap_compose. apply list_fmap_ext. intros i l _. simpl.
    unfold ExecutionLayer.calculate_estimated_duration.
    destruct (ExecutionLayer.tasks l) eqn:Htasks; simpl; congruence.
Qed.

Lemma foldr_Zadd_acc (ds : list Z) (d : Z) :
  foldr Z.add d ds = (foldr Z.add 0 ds + d)%Z.
Proof. induction ds as [|x ds IH]; simpl; [lia|]. rewrite IH. lia. Qed.

(** The state after the loop of [get_execution_schedule]. *)
Lemma schedule_loop (ls : list ExecutionLayer.t) :
  ∃ infos,
    foldl schedule_layer (0%Z, [], []) ls =
      (foldr Z.add 0%Z ((λ l, (ExecutionLayer.calculate_estimated_duration l).1) <$> ls),
       infos,
       (λ l, (ExecutionLayer.calculate_estimated_duration l).2) <$> ls) ∧
    length infos = length ls ∧
    ∀ (i : nat) info, infos !! i = Some info →
      ∃ l, ls !! i = Some l ∧
           start_time_minutes info =
             foldr Z.add 0%Z
               (take i ((λ l, (ExecutionLayer.calculate_estimated_duration l).1) <$> ls)) ∧
           estimated_duration_minutes info = (ExecutionLayer.calculate_estimated_duration l).1 ∧
           end_time_minutes info =
             (start_time_minutes info + estimated_duration_minutes info)%Z ∧
           layer_number info = ExecutionLayer.layer_number l ∧
           task_ids info = ExecutionLayer.get_task_ids l ∧
           task_count info = Z.of_nat (length (ExecutionLayer.tasks l)) ∧
           parallel_factor info = inject_Z (Z.of_nat (length (ExecutionLayer.tasks l))) ∧
           dependencies_satisfied info = ExecutionLayer.dependencies_satisfied l.
Proof.
  induction ls as [|l ls (infos & Hrun & Hlen & Hinfos)] using rev_ind.
  { exists []. split_and!; [done|done|]. intros i info Hi. by rewrite lookup_nil in Hi. }
  rewrite foldl_app, Hrun. simpl.
  assert (ExecutionLayer.tasks (ExecutionLayer.calculate_estimated_duration l).2 =
          ExecutionLayer.tasks l ∧
          ExecutionLayer.layer_number (ExecutionLayer.calculate_estimated_duration l).2 =
          ExecutionLayer.layer_number l ∧
          ExecutionLayer.dependencies_satisfied (ExecutionLayer.calculate_estimated_duration l).2 =
          ExecutionLayer.dependencies_satisfied l) as (Ht & Hn & Hd).
  { unfold ExecutionLayer.calculate_estimated_duration.
    destruct (ExecutionLayer.tasks l) eqn:Htasks; simpl; by rewrite ?Htasks. }
  destruct (ExecutionLayer.calculate_estimated_duration l) as [d l'] eqn:Hcalc.
  simpl in Ht, Hn, Hd. eexists. split_and!.
  - rewrite !fmap_app. simpl. rewrite Hcalc. simpl.
    rewrite foldr_app. simpl. rewrite Z.add_0_r, (foldr_Zadd_acc _ d). reflexivity.
  - rewrite !length_app. simpl. lia.
  - intros i info Hi. rewrite fmap_app.
    apply lookup_app_Some in Hi as [Hi|[Hge Hi]].
    + destruct (Hinfos i info Hi) as (l1 & Hl1 & Hstart & Hrest).
      exists l1. split; [by apply lookup_app_l_Some|]. split; [|done].
      rewrite Hstart. f_equal. rewrite take_app_le; [done|].
      rewrite length_fmap. apply lookup_lt_Some in Hl1. lia.
    + destruct (i - length infos)%nat as [|k] eqn:Hk; [|by rewrite lookup_cons, lookup_nil in Hi].
      injection Hi as <-. simpl. assert (i = length ls) as -> by lia.
      exists l. split; [by apply list_lookup_middle|]. rewrite Hcalc. simpl.
      unfold ExecutionLayer.get_task_ids, ExecutionLayer.get_parallel_factor.
      rewrite Ht. split_and!; try done.
      f_equal. rewrite take_app_le, take_ge; [done| |]; rewrite length_fmap; lia.
Qed.

Lemma take_S_sum (ds : list Z) (i : nat) (d : Z) :
  ds !! i = Some d →
  foldr Z.add 0%Z (take (S i) ds) = (foldr Z.add 0%Z (take i ds) + d)%Z.
Proof.
  revert i. induction ds as [|x ds IH]; intros [|i] Hd; simplify_eq/=; [lia|].
  rewrite (IH i Hd). lia.
Qed.

(** X13.  The schedule of [get_execution_schedule] has no gap and no
    overlap.  It lists the layers in order, each with its number, its task
    identifiers and their count; the first layer starts at minute 0, every
    layer ends its estimated duration after its start, and every later
    layer starts at the minute at which the layer before it ends.  The
    duration of a layer is what [calculate_estimated_duration] returns on
    it, and the layers of the graph keep their tasks. *)
Theorem execution_schedule_contiguous (self : ExecutionGraph.t) (m : metrics) :
  let '(s, self') := get_execution_schedule self m in
  total_layers s = Z.of_nat (length (layers s)) ∧
  (∀ (i : nat) info, layers s !! i = Some info →
     ∃ l, ExecutionGraph.execution_layers self !! i = Some l ∧
          layer_number info = ExecutionLayer.layer_number l ∧
          task_ids info = ExecutionLayer.get_task_ids l ∧
          task_count info = Z.of_nat (length (task_ids info)) ∧
          estimated_duration_minutes info = (ExecutionLayer.calculate_estimated_duration l).1 ∧
          end_time_minutes info =
            (start_time_minutes info + estimated_duration_minutes info)%Z) ∧
  (∀ l, ExecutionGraph.execution_layers self !! 0%nat = Some l →
     ∃ info, layers s !! 0%nat = Some info ∧ start_time_minutes info = 0%Z) ∧
  (∀ (i : nat) l, ExecutionGraph.execution_layers self !! S i = Some l →
     ∃ before info, layers s !! i = Some before ∧ layers s !! S i = Some info ∧
                    start_time_minutes info = end_time_minutes before) ∧
  ExecutionLayer.tasks <$> ExecutionGraph.execution_layers self' =
    ExecutionLayer.tasks <$> ExecutionGraph.execution_layers self.
Proof.
  unfold get_execution_schedule.
  destruct (schedule_loop (ExecutionGraph.execution_layers self))
    as (infos & -> & Hlen & Hinfos).
  simpl. split_and!.
  - by rewrite Hlen.
  - intros i info Hi. destruct (Hinfos i info Hi)
      as (l & Hl & _ & Hdur & Hend & Hnum & Hids & Hcount & _).
    exists l. split_and!; try done.
    rewrite Hcount, Hids. unfold ExecutionLayer.get_task_ids. by rewrite length_fmap.
  - intros l Hl. destruct (lookup_lt_is_Some_2 infos 0%nat) as [info Hinfo].
    { apply lookup_lt_Some in Hl. lia. }
    exists info. split; [done|].
    destruct (Hinfos 0%nat info Hinfo) as (_ & _ & Hstart & _). by rewrite Hstart.
  - intros i l Hl. pose proof (lookup_lt_Some _ _ _ Hl) as Hlt.
    destruct (lookup_lt_is_Some_2 infos i) as [before Hbefore]; [lia|].
    destruct (lookup_lt_is_Some_2 infos (S i)) as [info Hinfo]; [lia|].
    exists before, info. split; [done|]. split; [done|].
    destruct (Hinfos i before Hbefore) as (lb & Hlb & Hsb & Hdb & Heb & _).
    destruct (Hinfos (S i) info Hinfo) as (_ & _ & Hsi & _).
    rewrite Hsi, Heb, Hsb, Hdb. apply take_S_sum.
    rewrite list_lookup_fmap, Hlb. done.
  - rewrite <- list_fmap_compose. apply list_fmap_ext. intros i l _. simpl.
    unfold ExecutionLayer.calculate_estimated_duration.
    destruct (ExecutionLayer.tasks l) eqn:Htasks; simpl; congruence.
Qed.
End GraphMetrics.

Section GraphQueriesWitnesses.
Import TaskDependency DependencyAnalyzer.

Lemma layer_is_longest_chain_witness :
  acyclic Samples.four_tasks_graph ∧
  ∃ layers,
    _generate_execution_layers Samples.four_tasks_graph
      (make_task_lookup Samples.four_tasks) = Ok layers ∧
    ∀ i id, in_layer layers i id →
      dependency_chain Samples.four_tasks_graph i id ∧
      ∀ n, dependency_chain Samples.four_tasks_graph n id → (n ≤ i)%nat.
Proof.
  destruct four_tasks_graph_checked as (Hnd & Hends & Hacyc).
  split; [exact Hacyc|].
  apply (layer_is_longest_chain Samples.four_tasks_graph
           (make_task_lookup Samples.four_tasks)).
  - exact Hacyc.
  - apply ends_resolve_edges_resolve, Hends.
  - apply (make_task_lookup_lookup_covers Samples.four_tasks).
  - apply make_task_lookup_durations. repeat constructor; simpl; eauto.
Defined.

Lemma independent_and_leaf_tasks_witness :
  acyclic Samples.four_tasks_graph ∧
  DependencyGraph.get_independent_tasks Samples.four_tasks_graph = ["A"; "C"] ∧
  DependencyGraph.get_leaf_tasks Samples.four_tasks_graph = ["D"] ∧
  ∃ layers,
    _generate_execution_layers Samples.four_tasks_graph
      (make_task_lookup Samples.four_tasks) = Ok layers ∧
    (∀ id, id ∈ DependencyGraph.get_independent_tasks Samples.four_tasks_graph →
           in_layer layers 0 id) ∧
    (∀ id, in_layer layers (pred (length layers)) id →
           id ∈ DependencyGraph.get_leaf_tasks Samples.four_tasks_graph).
Proof.
  destruct four_tasks_graph_checked as (Hnd & Hends & Hacyc).
  split; [exact Hacyc|]. split; [vm_compute; reflexivity|]. split; [vm_compute; reflexivity|].
  destruct (independent_and_leaf_tasks Samples.four_tasks_graph
              (make_task_lookup Samples.four_tasks))
    as (layers & Hgen & _ & _ & Hind & Hall).
  - exact Hacyc.
  - exact Hends.
  - apply (make_task_lookup_lookup_covers Samples.four_tasks).
  - apply make_task_lookup_durations. repeat constructor; simpl; eauto.
  - exists layers. split; [exact Hgen|]. split; [exact Hind|].
    apply Hall. apply Forall_forall, (bool_decide_unpack _). vm_compute. exact I.
Defined.
End GraphQueriesWitnesses.

(* ================================================================== *)
(** * The quality gates as implemented                                  *)
(* ================================================================== *)

Section QualityChecks.
Import QualityGateChecks.

Lemma meets_requirements_needs_tests (tdd : TDDValidation.t) :
  TDDValidation.test_count tdd = 0%Z ∨ TDDValidation.failing_tests tdd ≠ 0%Z →
  TDDValidation.meets_requirements tdd = false.
Proof.
  intros H. unfold TDDValidation.meets_requirements.
  destruct H as [H|H].
  - rewrite (bool_decide_eq_false_2 (0 < _)%Z) by lia.
    by rewrite andb_false_r.
  - rewrite (bool_decide_eq_false_2 (_ = 0%Z)) by done.
    by rewrite andb_false_r.
Qed.

(** The two shapes of what [_validate_tdd_compliance] returns. *)
Lemma validate_tdd_compliance_cases (inputs : tdd_inputs) (task : CompleteTask.t)
    (task_result : TaskResult.t) (execution_result : ExecutionReport.t) :
  let tdd := _validate_tdd_compliance inputs task task_result execution_result in
  (TDDValidation.test_count tdd = 0%Z ∨ TDDValidation.failing_tests tdd = 2%Z) ∧
  (TDDValidation.status tdd = QualityGateStatus.PASSED ↔
     ∃ minimum followed,
       minimum_coverage inputs = Returns minimum ∧
       red_green_refactor inputs = Returns followed ∧
       (0 <= minimum)%Q ∧ (minimum <= 855 # 10)%Q ∧
       TaskResult.test_artifacts task_result ≠ [] ∧
       (lower (test_framework inputs) ≠ "pytest" ∨ ∃ ex, subprocess inputs = Raises ex)).
Proof.
  unfold _validate_tdd_compliance.
  destruct (minimum_coverage inputs) as [minimum|ex]; simpl.
  2: { split; [by left|]. split; [done|]. by intros (? & ? & ? & _). }
  destruct (red_green_refactor inputs) as [followed|ex]; simpl.
  2: { split; [by left|]. split; [done|]. by intros (? & ? & _ & ? & _). }
  destruct (Qle_bool 0 minimum) eqn:Hlow; simpl.
  2: { split; [by left|]. split; [done|].
       intros (m & f & [= <-] & _ & Hm & _). apply Qle_bool_iff in Hm. congruence. }
  destruct (Qle_bool minimum 100) eqn:Hhigh; simpl.
  2: { split; [by left|]. split; [done|].
       intros (m & f & [= <-] & _ & _ & Hm & _).
       assert (Qle_bool minimum 100 = true); [|congruence].
       apply Qle_bool_iff. eapply Qle_trans; [exact Hm|]. by vm_compute. }
  apply Qle_bool_iff in Hlow.
  destruct (TaskResult.test_artifacts task_result) as [|file files] eqn:Hfiles.
  { split; [by left|]. split; [done|]. by intros (? & ? & _ & _ & _ & _ & ? & _). }
  unfold _run_tests. case_decide as Hframework.
  - (* pytest: the figures of the stub, or the error dict *)
    destruct (subprocess inputs) as [[]|ex]; simpl.
    + split; [by right|]. split.
      * by destruct (Qle_bool minimum (855 # 10)).
      * intros (? & ? & _ & _ & _ & _ & _ & [?|[? ?]]); done.
    + split; [by left|].
      destruct (Qle_bool minimum (855 # 10)) eqn:Hcov; split.
      * intros _. exists minimum, followed. apply Qle_bool_iff in Hcov.
        split_and!; try done. right. by exists ex.
      * done.
      * done.
      * intros (m & f & [= <-] & _ & _ & Hm & _). apply Qle_bool_iff in Hm. congruence.
  - simpl. split; [by left|].
    destruct (Qle_bool minimum (855 # 10)) eqn:Hcov; split.
    + intros _. exists minimum, followed. apply Qle_bool_iff in Hcov.
      split_and!; try done. by left.
    + done.
    + done.
    + intros (m & f & [= <-] & _ & _ & Hm & _). apply Qle_bool_iff in Hm. congruence.
Qed.

(** X14.  The TDD validator as implemented never reports that the
    requirements are met.  Whatever the task, the worker's result and the
    outcome of the test run, the validation that [_validate_tdd_compliance]
    returns has [meets_requirements()] false: either no test was counted or
    the fixed figures of [_run_pytest] report two failing tests.  Its
    status is nevertheless [PASSED] exactly when the required coverage is a
    number between 0 and 85.5, the worker produced test files and no test
    was run: the test framework is not pytest, or the pytest subprocess
    could not be run. *)
Theorem tdd_validator_never_meets_requirements (inputs : tdd_inputs)
    (task : CompleteTask.t) (task_result : TaskResult.t)
    (execution_result : ExecutionReport.t) :
  let tdd := _validate_tdd_compliance inputs task task_result execution_result in
  TDDValidation.meets_requirements tdd = false ∧
  (TDDValidation.status tdd = QualityGateStatus.PASSED ↔
     ∃ minimum followed,
       minimum_coverage inputs = Returns minimum ∧
       red_green_refactor inputs = Returns followed ∧
       (0 <= minimum)%Q ∧ (minimum <= 855 # 10)%Q ∧
       TaskResult.test_artifacts task_result ≠ [] ∧
       (lower (test_framework inputs) ≠ "pytest" ∨ ∃ ex, subprocess inputs = Raises ex)).
Proof.
  intros tdd.
  destruct (validate_tdd_compliance_cases inputs task task_result execution_result)
    as [Hcount Hstatus].
  split; [|exact Hstatus].
  apply meets_requirements_needs_tests. fold tdd in Hcount.
  destruct Hcount as [?|Hfail]; [by left|right]. rewrite Hfail. done.
Qed.

Lemma all_gates_passed_parts (q : QualityResult.t) :
  QualityResult.all_quality_gates_passed q = true →
  TDDValidation.meets_requirements (QualityResult.tdd_validation q) = true ∧
  SecurityValidation.meets_security_requirements (QualityResult.security_validation q) = true ∧
  PerformanceValidation.performance_requirements_met
    (QualityResult.performance_validation q) = true ∧
  CodeQualityValidation.meets_quality_standards
    (QualityResult.code_quality_validation q) = true.
Proof.
  unfold QualityResult.all_quality_gates_passed. rewrite !andb_true_iff. tauto.
Qed.

Lemma performance_score_met (p : PerformanceValidation.t) :
  PerformanceValidation.performance_requirements_met p = true →
  (6 # 10 <= PerformanceValidation.calculate_performance_score p)%Q.
Proof.
  intros Hmet. unfold PerformanceValidation.calculate_performance_score. rewrite Hmet.
  destruct (PerformanceValidation.execution_time_seconds _),
           (PerformanceValidation.memory_usage_mb _);
  destruct_ifs; vm_compute; intros H; discriminate H.
Qed.

Lemma quality_score_standards (c : CodeQualityValidation.t) :
  CodeQualityValidation.meets_quality_standards c = true →
  (6 # 10 <= CodeQualityValidation.calculate_quality_score c)%Q.
Proof.
  unfold CodeQualityValidation.meets_quality_standards. rewrite !andb_true_iff.
  intros [[[Hs Ht] Hl] _]. unfold CodeQualityValidation.calculate_quality_score.
  rewrite Hs, Ht, Hl.
  destruct (CodeQualityValidation.complexity_score _),
           (CodeQualityValidation.documentation_coverage_percentage _);
  destruct_ifs; vm_compute; intros H; discriminate H.
Qed.

Lemma overall_score_passed (q : QualityResult.t) :
  QualityResult.all_quality_gates_passed q = true →
  (8 # 10 <= (QualityResult.calculate_overall_quality_score q).1)%Q.
Proof.
  intros (Htdd & Hsec & Hperf & Hcq)%all_gates_passed_parts. simpl.
  rewrite Qmean4. unfold QualityResult.tdd_score, QualityResult.security_score.
  rewrite Htdd, Hsec.
  pose proof (performance_score_met _ Hperf) as Hp.
  pose proof (quality_score_standards _ Hcq) as Hc.
  fold (QualityResult.performance_score q) in Hp.
  fold (QualityResult.code_quality_score q) in Hc.
  apply Qle_shift_div_l; [reflexivity|].
  apply Qle_trans with (1 + 1 + (6 # 10) + (6 # 10))%Q; [by vm_compute|].
  repeat apply Qplus_le_compat; try done; apply Qle_refl.
Qed.

(** X15.  What passing all gates guarantees.  When
    [all_quality_gates_passed()] holds of a quality result, its overall
    quality score is at least 0.8 (and at most 1), and
    [_identify_critical_issues] finds no critical issue in its four
    validations. *)
Theorem passed_gates_score_and_issues (q : QualityResult.t) :
  QualityResult.all_quality_gates_passed q = true →
  (8 # 10 <= (QualityResult.calculate_overall_quality_score q).1)%Q ∧
  ((QualityResult.calculate_overall_quality_score q).1 <= 1)%Q ∧
  _identify_critical_issues (QualityResult.tdd_validation q)
    (QualityResult.security_validation q) (QualityResult.performance_validation q)
    (QualityResult.code_quality_validation q) = [].
Proof.
  intros Hall. split; [by apply overall_score_passed|].
  destruct (all_gates_passed_parts q Hall) as (Htdd & Hsec & Hperf & Hcq).
  split.
  - simpl. rewrite Qmean4.
    apply mean4_bounds; [apply tdd_score_bounds|apply security_score_bounds
                        |apply performance_score_bounds|apply code_quality_score_bounds].
  - unfold TDDValidation.meets_requirements in Htdd.
    unfold SecurityValidation.meets_security_requirements in Hsec.
    unfold CodeQualityValidation.meets_quality_standards in Hcq.
    rewrite !andb_true_iff in Htdd, Hsec, Hcq.
    destruct Htdd as [[[_ Hfail%bool_decide_eq_true] _] _].
    destruct Hsec as [[[Hhigh%bool_decide_eq_true _] _] _].
    destruct Hcq as [[[Hstatic _] _] _].
    unfold _identify_critical_issues. rewrite Hfail, Hhigh, Hperf, Hstatic. done.
Qed.

Lemma passed_gates_score_and_issues_witness :
  let q := QualityResult.mk "A" QualityGateStatus.PASSED Samples.tdd_pass
             Samples.security_pass Samples.performance_pass Samples.code_quality_pass None in
  QualityResult.all_quality_gates_passed q = true ∧
  (8 # 10 <= (QualityResult.calculate_overall_quality_score q).1)%Q ∧
  ((QualityResult.calculate_overall_quality_score q).1 <= 1)%Q ∧
  _identify_critical_issues (QualityResult.tdd_validation q)
    (QualityResult.security_validation q) (QualityResult.performance_validation q)
    (QualityResult.code_quality_validation q) = [].
Proof.
  split; [vm_compute; reflexivity|].
  apply (passed_gates_score_and_issues
           (QualityResult.mk "A" QualityGateStatus.PASSED Samples.tdd_pass
              Samples.security_pass Samples.performance_pass Samples.code_quality_pass None)).
  vm_compute. reflexivity.
Defined.
End QualityChecks.

(* ================================================================== *)
(** * Scores and summaries of the result models                         *)
(* ================================================================== *)

Section ResultModels.



Lemma count_if_cons {A : Type} (p : A → bool) (x : A) (l : list A) :
  ExecutionResult.count_if p (x :: l) =
  ((if p x then 1 else 0) + ExecutionResult.count_if p l)%Z.
Proof. unfold ExecutionResult.count_if. simpl. destruct (p x); simpl length; lia. Qed.

Lemma count_if_range {A : Type} (p : A → bool) (l : list A) :
  (0 ≤ ExecutionResult.count_if p l ≤ Z.of_nat (length l))%Z.
Proof.
  induction l as [|x l IH]; [done|]. rewrite count_if_cons. simpl length.
  destruct (p x); lia.
Qed.

Lemma Qle_bool_trans (a b x : Q) :
  (a <= b)%Q → Qle_bool b x = true → Qle_bool a x = true.
Proof.
  intros Hab Hb. apply Qle_bool_iff. apply Qle_bool_iff in Hb. by eapply Qle_trans.
Qed.

(** The four classes of the quality distribution, and the tasks that
    passed all gates among them. *)
Lemma quality_distribution_counts (qrs : list QualityResult.t) :
  let score := ExecutionResult.overall_score in
  (ExecutionResult.count_if (λ qr, Qle_bool (9 # 10) (score qr)) qrs +
   ExecutionResult.count_if (λ qr, Qle_bool (7 # 10) (score qr)
                                   && negb (Qle_bool (9 # 10) (score qr))) qrs +
   ExecutionResult.count_if (λ qr, Qle_bool (5 # 10) (score qr)
                                   && negb (Qle_bool (7 # 10) (score qr))) qrs +
   ExecutionResult.count_if (λ qr, negb (Qle_bool (5 # 10) (score qr))) qrs)%Z
  = Z.of_nat (length qrs) ∧
  (ExecutionResult.count_if QualityResult.all_quality_gates_passed qrs ≤
   ExecutionResult.count_if (λ qr, Qle_bool (9 # 10) (score qr)) qrs +
   ExecutionResult.count_if (λ qr, Qle_bool (7 # 10) (score qr)
                                   && negb (Qle_bool (9 # 10) (score qr))) qrs)%Z.
Proof.
  intros score. induction qrs as [|qr qrs [IH1 IH2]]; [done|].
  rewrite !count_if_cons. simpl length.
  assert (Qle_bool (9 # 10) (score qr) = true → Qle_bool (7 # 10) (score qr) = true) as H97
    by (apply Qle_bool_trans; by vm_compute).
  assert (Qle_bool (7 # 10) (score qr) = true → Qle_bool (5 # 10) (score qr) = true) as H75
    by (apply Qle_bool_trans; by vm_compute).
  assert (QualityResult.all_quality_gates_passed qr = true →
          Qle_bool (7 # 10) (score qr) = true) as Hpass.
  { intros Hall. apply Qle_bool_iff. eapply Qle_trans; [|by apply overall_score_passed].
    by vm_compute. }
  destruct (Qle_bool (9 # 10) (score qr)), (Qle_bool (7 # 10) (score qr)),
           (Qle_bool (5 # 10) (score qr)),
           (QualityResult.all_quality_gates_passed qr); simpl;
    try (specialize (H97 eq_refl)); try (specialize (H75 eq_refl));
    try (specialize (Hpass eq_refl)); try discriminate; split; lia.
Qed.

Lemma omap_quality_stored (tasks : list TaskResult.t) :
  omap TaskResult.quality_validation
    ((λ task,
        TaskResult.mk (TaskResult.task_id task) (TaskResult.status task)
          (TaskResult.agent_id task) (TaskResult.implementation_artifacts task)
          (TaskResult.test_artifacts task) (TaskResult.documentation_artifacts task)
          (TaskResult.implementation_summary task)
          ((λ qr, (QualityResult.calculate_overall_quality_score qr).2) <$>
             TaskResult.quality_validation task)
          (TaskResult.error_details task)) <$> tasks)
  = (λ qr, (QualityResult.calculate_overall_quality_score qr).2) <$>
      omap TaskResult.quality_validation tasks.
Proof.
  induction tasks as [|task tasks IH]; [done|].
  rewrite fmap_cons. cbn [omap list_omap]. cbn [TaskResult.quality_validation].
  destruct (TaskResult.quality_validation task) as [qr|]; cbn [fmap option_fmap option_map].
  - rewrite fmap_cons. f_equal. exact IH.
  - exact IH.
Qed.

(** X17.  [generate_quality_summary] classifies every validated task once.
    Without any quality validation among the task results the message dict
    is returned and the object is left as it is.  Otherwise the summary
    counts the task results that carry a quality validation; the four
    classes excellent, good, fair and poor add up to that count; the number
    of tasks that passed all gates does not exceed it, and every such task
    is counted as excellent or good.  The task results keep their order and
    status, and each quality result has its overall score stored. *)
Theorem quality_summary_distribution (round3 : Q → Q) (self : ExecutionResult.t) :
  let '(summary, self') := ExecutionResult.generate_quality_summary round3 self in
  let quality_results :=
    omap TaskResult.quality_validation (ExecutionResult.task_results self) in
  match summary with
  | None => quality_results = [] ∧ self' = self
  | Some s =>
      let d := ExecutionResult.distribution s in
      quality_results ≠ [] ∧
      ExecutionResult.total_tasks_with_quality_validation s =
        Z.of_nat (length quality_results) ∧
      (ExecutionResult.excellent d + ExecutionResult.good d + ExecutionResult.fair d +
       ExecutionResult.poor d)%Z = Z.of_nat (length quality_results) ∧
      (0 ≤ ExecutionResult.tasks_with_all_gates_passed s ≤ Z.of_nat (length quality_results))%Z ∧
      (ExecutionResult.tasks_with_all_gates_passed s ≤
       ExecutionResult.excellent d + ExecutionResult.good d)%Z ∧
      TaskResult.status <$> ExecutionResult.task_results self' =
        TaskResult.status <$> ExecutionResult.task_results self ∧
      omap TaskResult.quality_validation (ExecutionResult.task_results self') =
        (λ qr, (QualityResult.calculate_overall_quality_score qr).2) <$> quality_results
  end.
Proof.
  unfold ExecutionResult.generate_quality_summary.
  destruct (omap TaskResult.quality_validation (ExecutionResult.task_results self))
    as [|qr qrs] eqn:Hqrs; [done|].
  rewrite <- Hqrs.
  set (quality_results := omap TaskResult.quality_validation (ExecutionResult.task_results self)).
  destruct (quality_distribution_counts quality_results) as [Hsum Hpass].
  cbv beta iota zeta. split_and!.
  - unfold quality_results. by rewrite Hqrs.
  - done.
  - exact Hsum.
  - apply count_if_range.
  - apply count_if_range.
  - exact Hpass.
  - simpl. rewrite <- list_fmap_compose. by apply list_fmap_ext.
  - apply omap_quality_stored.
Qed.
End ResultModels.

(* ================================================================== *)
(** * What a session keeps while it runs                                *)
(* ================================================================== *)

Section SessionInvariants.
Import Orchestrator.








End SessionInvariants.

Section SessionBooks.
Import Orchestrator.









End SessionBooks.

Section PlanResult.
Import Orchestrator.











End PlanResult.

Section PlanResultWitnesses.
Import Orchestrator.

End PlanResultWitnesses.

Section DependencyGate.
Import Orchestrator.








End DependencyGate.

(* ================================================================== *)
(** * Acquiring and releasing agents; pausing and cancelling sessions   *)
(* ================================================================== *)

Section Control.
Import OrchestratorControl.

(** X23.  Acquiring an agent and releasing it again.  After
    [acquire_agent] returned an agent for a session, [release_agent] for
    that agent and session leaves the pool of agents as it was, removes the
    assignment of the session, and takes the session out of the agent's set
    of sessions; [cleanup_session] for the session does the same.  When the
    session had no assignment before and was not registered with the agent,
    the coordinator is exactly as before the acquisition. *)
Theorem acquire_release_round_trip (self self' : AgentCoordinator.t)
    (session_id : string) (agent : ExecutionAgent.t) :
  AgentCoordinator.acquire_agent self session_id = (Ok agent, self') →
  let released :=
    AgentCoordinator.release_agent self' (ExecutionAgent.agent_id agent) session_id in
  AgentCoordinator.cleanup_session self' session_id = released ∧
  AgentCoordinator.agents released = AgentCoordinator.agents self ∧
  AgentCoordinator.agent_assignment released =
    delete session_id (AgentCoordinator.agent_assignment self) ∧
  (∃ sessions,
     AgentCoordinator.agent_sessions self !! ExecutionAgent.agent_id agent = Some sessions ∧
     AgentCoordinator.agent_sessions released =
       <[ExecutionAgent.agent_id agent := sessions ∖ {[session_id]}]>
         (AgentCoordinator.agent_sessions self) ∧
     (AgentCoordinator.agent_assignment self !! session_id = None →
      session_id ∉ sessions → released = self)).
Proof.
  unfold AgentCoordinator.acquire_agent.
  destruct (AgentCoordinator._find_best_agent self) as [best|]; [|by intros [=]].
  destruct (AgentCoordinator.agent_sessions self !! ExecutionAgent.agent_id best)
    as [sessions|] eqn:Hsessions; [|by intros [=]].
  intros [= <- <-].
  match goal with |- context [AgentCoordinator.release_agent ?a ?b ?c] =>
    set (released := AgentCoordinator.release_agent a b c) end.
  assert (AgentCoordinator.agent_sessions released =
          <[ExecutionAgent.agent_id best := sessions ∖ {[session_id]}]>
            (AgentCoordinator.agent_sessions self)) as Hreleased.
  { unfold released, AgentCoordinator.release_agent. simpl.
    rewrite lookup_insert_eq, insert_insert_eq. f_equal. set_solver. }
  split_and!.
  - unfold AgentCoordinator.cleanup_session. simpl. by rewrite lookup_insert_eq.
  - done.
  - unfold released. simpl. by rewrite delete_insert_eq.
  - exists sessions. split_and!; [done|done|].
    intros Hnone Hnot. destruct self as [agents assignment agent_sessions].
    unfold released, AgentCoordinator.release_agent in *. simpl in *. f_equal.
    + rewrite delete_insert_eq. by apply delete_id.
    + rewrite Hreleased. rewrite insert_id; [done|]. rewrite Hsessions. f_equal. set_solver.
Qed.

Lemma acquire_release_round_trip_witness :
  ∃ agent self',
    AgentCoordinator.acquire_agent (AgentCoordinator.initialize_agent_pool 2) "session"
      = (Ok agent, self') ∧
    AgentCoordinator.release_agent self' (ExecutionAgent.agent_id agent) "session"
      = AgentCoordinator.initialize_agent_pool 2.
Proof.
  destruct (AgentCoordinator.acquire_agent (AgentCoordinator.initialize_agent_pool 2)
              "session") as [[agent| |] self'] eqn:Hacquire;
    [|vm_compute in Hacquire; discriminate Hacquire
     |vm_compute in Hacquire; discriminate Hacquire].
  exists agent, self'. split; [reflexivity|].
  destruct (acquire_release_round_trip _ _ _ _ Hacquire)
    as (_ & _ & _ & sessions & Hsessions & _ & Hsame).
  apply Hsame; [reflexivity|].
  vm_compute in Hacquire. injection Hacquire as <- <-.
  vm_compute in Hsessions. injection Hsessions as <-.
  apply (bool_decide_unpack _). vm_compute. exact I.
Defined.

Lemma update_agent_elem (self : AgentCoordinator.t) (agent_id : string)
    (f : ExecutionAgent.t → ExecutionAgent.t) (a' : ExecutionAgent.t) :
  (agent_id, a') ∈ AgentCoordinator.agents (AgentCoordinator.update_agent self agent_id f) →
  ∃ a, (agent_id, a) ∈ AgentCoordinator.agents self ∧ a' = f a.
Proof.
  unfold AgentCoordinator.update_agent. simpl.
  intros ([id a] & Heq & Hin)%list_elem_of_fmap. simpl in Heq.
  case_decide as Hid; simplify_eq. by exists a.
Qed.

Lemma pause_all_tasks_assignment (self : AgentCoordinator.t) (session_id : string) :
  AgentCoordinator.agent_assignment (AgentCoordinator.pause_all_tasks self session_id)
  = AgentCoordinator.agent_assignment self.
Proof.
  unfold AgentCoordinator.pause_all_tasks.
  by destruct (AgentCoordinator.agent_assignment self !! session_id).
Qed.

Lemma cleanup_session_assignment (self : AgentCoordinator.t) (session_id : string) :
  AgentCoordinator.agent_assignment (AgentCoordinator.cleanup_session self session_id)
    !! session_id = None.
Proof.
  unfold AgentCoordinator.cleanup_session.
  destruct (AgentCoordinator.agent_assignment self !! session_id) eqn:Ha; [|done].
  simpl. by rewrite lookup_delete_eq.
Qed.

Lemma cleanup_session_agents (self : AgentCoordinator.t) (session_id : string) :
  AgentCoordinator.agents (AgentCoordinator.cleanup_session self session_id)
  = AgentCoordinator.agents self.
Proof.
  unfold AgentCoordinator.cleanup_session.
  by destruct (AgentCoordinator.agent_assignment self !! session_id).
Qed.

(** X24.  Pausing, resuming and cancelling a session.  For an active
    session that is executing, [pause_execution] succeeds and marks the
    session and its assigned agent as paused; pausing again fails.
    [resume_execution] then succeeds and restores the sessions as they
    were, but leaves the coordinator as the pause left it: the agent
    assigned to the session stays [PAUSED] and is not available; resuming
    again fails.  When stopping the monitoring does not raise,
    [cancel_execution] succeeds, removes the session and its assignment and
    leaves the assigned agent idle without tasks; afterwards pausing,
    resuming and cancelling the session all fail and change nothing. *)
Theorem session_control_cycle (stop_session_monitoring : string → outcome unit)
    (self : OrchestratorControl.t) (session_id : string) (session : ExecutionSession.t) :
  active_sessions self !! session_id = Some session →
  ExecutionSession.session_id session = session_id →
  ExecutionSession.state session = OrchestrationState.EXECUTING →
  ∃ paused resumed,
    pause_execution self session_id = (true, paused) ∧
    ExecutionSession.state <$> active_sessions paused !! session_id
      = Some OrchestrationState.PAUSED ∧
    pause_execution paused session_id = (false, paused) ∧
    resume_execution paused session_id = (true, resumed) ∧
    active_sessions resumed = active_sessions self ∧
    agent_coordinator resumed =
      AgentCoordinator.pause_all_tasks (agent_coordinator self) session_id ∧
    (∀ agent_id agent,
       AgentCoordinator.agent_assignment (agent_coordinator self) !! session_id
         = Some agent_id →
       (agent_id, agent) ∈ AgentCoordinator.agents (agent_coordinator resumed) →
       ExecutionAgent.state agent = AgentState.PAUSED ∧
       ExecutionAgent.is_available agent = false) ∧
    resume_execution resumed session_id = (false, resumed) ∧
    (∀ u, (if monitoring_enabled self then stop_session_monitoring session_id
           else Returns ()) = Returns u →
       ∃ cancelled,
         cancel_execution stop_session_monitoring resumed session_id = (Ok true, cancelled) ∧
         active_sessions cancelled = delete session_id (active_sessions self) ∧
         AgentCoordinator.agent_assignment (agent_coordinator cancelled) !! session_id = None ∧
         (∀ agent_id agent,
            AgentCoordinator.agent_assignment (agent_coordinator self) !! session_id
              = Some agent_id →
            (agent_id, agent) ∈ AgentCoordinator.agents (agent_coordinator cancelled) →
            ExecutionAgent.state agent = AgentState.IDLE ∧
            ExecutionAgent.current_tasks agent = ∅) ∧
         pause_execution cancelled session_id = (false, cancelled) ∧
         resume_execution cancelled session_id = (false, cancelled) ∧
         cancel_execution stop_session_monitoring cancelled session_id = (Ok false, cancelled)).
Proof.
  intros Hactive Hid Hstate. destruct self as [active coordinator monitoring]. simpl in *.
  destruct session as [sid graph layer st completed failed running results events].
  simpl in *. subst sid st.
  eexists _, _. split_and!.
  - unfold pause_execution. simpl. rewrite Hactive. simpl. reflexivity.
  - simpl. by rewrite lookup_insert_eq.
  - unfold pause_execution. simpl. rewrite lookup_insert_eq. simpl. reflexivity.
  - unfold resume_execution. simpl. rewrite lookup_insert_eq. simpl. reflexivity.
  - simpl. rewrite insert_insert_eq. by apply insert_id.
  - done.
  - simpl. intros agent_id agent Hassigned Hin.
    unfold AgentCoordinator.pause_all_tasks in Hin. rewrite Hassigned in Hin.
    apply update_agent_elem in Hin as (a & _ & ->). done.
  - unfold resume_execution. simpl. rewrite insert_insert_eq, lookup_insert_eq. simpl.
    reflexivity.
  - intros u Hstop.
    set (c1 := AgentCoordinator.pause_all_tasks coordinator session_id).
    set (c2 := AgentCoordinator.cancel_all_tasks c1 session_id).
    exists (OrchestratorControl.mk (delete session_id active)
              (AgentCoordinator.cleanup_session c2 session_id) monitoring).
    cbn [active_sessions agent_coordinator monitoring_enabled].
    split_and!.
    + unfold cancel_execution, _cleanup_session.
      cbn [active_sessions agent_coordinator monitoring_enabled].
      rewrite insert_insert_eq, lookup_insert_eq.
      cbn [ExecutionSession.set_state ExecutionSession.session_id
           active_sessions agent_coordinator monitoring_enabled].
      rewrite Hstop. rewrite !insert_insert_eq, delete_insert_eq. reflexivity.
    + done.
    + apply cleanup_session_assignment.
    + intros agent_id agent Hassigned Hin.
      rewrite cleanup_session_agents in Hin. unfold c2 in Hin.
      unfold AgentCoordinator.cancel_all_tasks in Hin.
      unfold c1 in Hin. rewrite pause_all_tasks_assignment, Hassigned in Hin.
      apply update_agent_elem in Hin as (a & _ & ->). done.
    + unfold pause_execution. cbn [active_sessions]. by rewrite lookup_delete_eq.
    + unfold resume_execution. cbn [active_sessions]. by rewrite lookup_delete_eq.
    + unfold cancel_execution. cbn [active_sessions]. by rewrite lookup_delete_eq.
Qed.

Lemma session_control_cycle_witness :
  let session :=
    ExecutionSession.set_state
      (Orchestrator._create_execution_session "session" Samples.graph_two_layers)
      OrchestrationState.EXECUTING in
  let self :=
    OrchestratorControl.mk {["session" := session]}
      (AgentCoordinator.acquire_agent (AgentCoordinator.initialize_agent_pool 2) "session").2
      false in
  ∃ paused resumed cancelled,
    pause_execution self "session" = (true, paused) ∧
    resume_execution paused "session" = (true, resumed) ∧
    active_sessions resumed = active_sessions self ∧
    (∀ agent, ("dev_agent_0", agent) ∈ AgentCoordinator.agents (agent_coordinator resumed) →
              ExecutionAgent.is_available agent = false) ∧
    cancel_execution (λ _, Returns ()) resumed "session" = (Ok true, cancelled) ∧
    active_sessions cancelled = delete "session" (active_sessions self) ∧
    pause_execution cancelled "session" = (false, cancelled).
Proof.
  intros session self.
  destruct (session_control_cycle (λ _, Returns ()) self "session" session)
    as (paused & resumed & Hpause & _ & _ & Hresume & Hsessions & _ & Hagent & _ & Hcancel).
  - reflexivity.
  - reflexivity.
  - reflexivity.
  - destruct (Hcancel () eq_refl) as (cancelled & Hc & Hdel & _ & _ & Hp & _).
    exists paused, resumed, cancelled. split_and!; try done.
    intros agent Hin. by apply (Hagent "dev_agent_0" agent).
Defined.
End Control.

From Stdlib Require Import Sorted.

(* ================================================================== *)
(** * Reordering the tasks of the layers                                *)
(* ================================================================== *)


Section Sorting.
Context {A : Type}.






End Sorting.

Section AnalyzerOptimization.
Import DependencyAnalyzer.





End AnalyzerOptimization.

(* ================================================================== *)
(** * Conflicts between the writers of a file                           *)
(* ================================================================== *)

Section Conflicts.
Import DependencyAnalyzer.

Lemma alist_append_keys (d : list (string * list string)) (k x : string) :
  (alist_append d k x).*1 = if decide (k ∈ d.*1) then d.*1 else d.*1 ++ [k].
Proof.
  induction d as [|[k' v'] d IH]; [done|]. simpl.
  destruct (decide (k' = k)) as [->|Hne].
  - rewrite decide_True by left. done.
  - rewrite fmap_cons, IH. simpl.
    destruct (decide (k ∈ d.*1)) as [Hin|Hnin].
    + rewrite decide_True by (by right). done.
    + rewrite decide_False; [done|]. intros [?|?]%elem_of_cons; done.
Qed.

(** The entries [(p, ws)] of [d] when every key occurs once. *)
Lemma alist_append_elem (d : list (string * list string)) (k x p : string)
    (ws : list string) :
  NoDup d.*1 →
  (p, ws) ∈ alist_append d k x ↔
  (p ≠ k ∧ (p, ws) ∈ d) ∨
  (p = k ∧ ((∃ ws0, (k, ws0) ∈ d ∧ ws = ws0 ++ [x]) ∨ ((k ∉ d.*1) ∧ ws = [x]))).
Proof.
  induction d as [|[k' v'] d IH]; intros Hnd.
  { simpl. rewrite list_elem_of_singleton. split.
    - intros [= -> ->]. right. split; [done|]. right. split; [|done]. apply not_elem_of_nil.
    - intros [[_ ?%elem_of_nil]|[-> [(ws0 & ?%elem_of_nil & _)|[_ ->]]]]; done. }
  rewrite fmap_cons in Hnd. apply NoDup_cons in Hnd as [Hk' Hnd]. simpl in Hk'.
  simpl. destruct (decide (k' = k)) as [->|Hne].
  - rewrite !elem_of_cons. split.
    + intros [[= -> ->]|Hin].
      * right. split; [done|]. left. exists v'. split; [by left|done].
      * left. split; [|by right]. intros ->. apply Hk'.
        apply list_elem_of_fmap. by exists (k, ws).
    + intros [[Hp [[= ? ?]|Hin]]|[-> [(ws0 & Hin & ->)|[Hnin ->]]]].
      * done.
      * by right.
      * apply elem_of_cons in Hin as [[= ->]|Hin]; [by left|].
        exfalso. apply Hk'. apply list_elem_of_fmap. by exists (k, ws0).
      * exfalso. apply Hnin. by left.
  - rewrite !elem_of_cons, (IH Hnd). split.
    + intros [[= -> ->]|[[Hp Hin]|[-> Hcase]]].
      * left. split; [done|by left].
      * left. split; [done|by right].
      * right. split; [done|]. destruct Hcase as [(ws0 & Hin & ->)|[Hnin ->]].
        -- left. exists ws0. split; [by right|done].
        -- right. split; [|done]. intros [?|?]; done.
    + intros [[Hp [[= -> ->]|Hin]]|[-> [(ws0 & Hin & ->)|[Hnin ->]]]].
      * by left.
      * right. left. done.
      * apply elem_of_cons in Hin as [[= ? ?]|Hin]; [done|].
        right. right. split; [done|]. left. by exists ws0.
      * right. right. split; [done|]. right. split; [|done].
        intros Hin. apply Hnin. by right.
Qed.

Lemma alist_append_NoDup (d : list (string * list string)) (k x : string) :
  NoDup d.*1 → NoDup (alist_append d k x).*1.
Proof.
  intros Hnd. rewrite alist_append_keys. case_decide as Hin; [done|].
  apply NoDup_app. split_and!; [done| |apply NoDup_singleton].
  intros y Hy ->%list_elem_of_singleton. done.
Qed.

(** The entries of all tasks, each with the identifier of its task. *)
Lemma record_writers_flat (tasks : list CompleteTask.t) :
  record_writers tasks =
  foldl (λ file_writers (p : string * (string * string)),
           if writes_file p.2.2 then alist_append file_writers p.2.1 p.1 else file_writers)
        []
        (flat_map (λ task, (λ entry, (CompleteTask.task_id task, entry)) <$>
                             TaskContext.file_locations (CompleteTask.complete_context task))
           tasks).
Proof.
  unfold record_writers. generalize (@nil (string * list string)).
  induction tasks as [|task tasks IH]; intros d; [done|].
  simpl. rewrite foldl_app, IH. f_equal.
  generalize (TaskContext.file_locations (CompleteTask.complete_context task)). clear.
  intros entries. revert d. induction entries as [|entry entries IH]; intros d; [done|].
  simpl. apply IH.
Qed.

Lemma writers_of_flat (tasks : list CompleteTask.t) (path : string) :
  writers_of tasks path =
  flat_map (λ p : string * (string * string),
              if decide (p.2.1 = path) then (if writes_file p.2.2 then [p.1] else []) else [])
    (flat_map (λ task, (λ entry, (CompleteTask.task_id task, entry)) <$>
                         TaskContext.file_locations (CompleteTask.complete_context task))
       tasks).
Proof.
  unfold writers_of. induction tasks as [|task tasks IH]; [done|].
  simpl. rewrite flat_map_app, IH. f_equal.
  induction (TaskContext.file_locations (CompleteTask.complete_context task))
    as [|entry entries IHe]; [done|].
  simpl. by rewrite IHe.
Qed.

Lemma record_writers_spec (tasks : list CompleteTask.t) :
  NoDup (record_writers tasks).*1 ∧
  ∀ path ws, (path, ws) ∈ record_writers tasks ↔ ws = writers_of tasks path ∧ ws ≠ [].
Proof.
  rewrite record_writers_flat.
  setoid_rewrite writers_of_flat.
  generalize (flat_map (λ task, (λ entry, (CompleteTask.task_id task, entry)) <$>
                          TaskContext.file_locations (CompleteTask.complete_context task))
                tasks).
  intros entries. induction entries as [|[id [p d]] entries [IHnd IH]] using rev_ind.
  { simpl. split; [constructor|]. intros path ws. split; [by intros ?%elem_of_nil|].
    by intros [-> ?]. }
  rewrite foldl_app. simpl.
  set (fw := foldl _ [] entries) in *.
  destruct (writes_file d) eqn:Hw.
  - split; [by apply alist_append_NoDup|].
    intros path ws. rewrite alist_append_elem by done.
    rewrite flat_map_app. simpl. rewrite Hw, app_nil_r.
    destruct (decide (p = path)) as [->|Hne].
    + split.
      * intros [[? _]|[_ [(ws0 & Hin & ->)|[Hnin ->]]]]; [done| |].
        -- apply IH in Hin as [-> _]. split; [done|]. by intros [_ ?]%app_eq_nil.
        -- split; [|done].
           destruct (flat_map _ entries) as [|w ws1] eqn:Hws; [done|].
           exfalso. apply Hnin. apply list_elem_of_fmap.
           exists (path, w :: ws1). split; [done|]. apply IH. by rewrite Hws.
      * intros [-> _]. right. split; [done|].
        destruct (flat_map _ entries) as [|w ws1] eqn:Hws.
        -- right. split; [|done]. intros ([p' ws'] & Heq & Hin)%list_elem_of_fmap.
           simpl in Heq. subst p'. apply IH in Hin as [-> Hne]. by rewrite Hws in Hne.
        -- left. exists (w :: ws1). split; [|done]. apply IH. by rewrite Hws.
    + rewrite app_nil_r. split.
      * intros [[_ Hin]|[-> _]]; [by apply IH|done].
      * intros Hws. left. split; [done|]. by apply IH.
  - split; [done|]. intros path ws. rewrite flat_map_app. simpl. rewrite Hw.
    destruct (decide (p = path)); simpl; rewrite app_nil_r; apply IH.
Qed.

(** X26.  [detect_potential_conflicts] reports the files with several
    writers, each once.  Every reported conflict is a file conflict whose
    task list holds, in the order of the tasks, the identifiers collected
    for its file, and there are at least two of them; conversely every file
    for which at least two identifiers are collected is reported; and no
    file is reported twice. *)
Theorem conflicts_are_shared_files (tasks : list CompleteTask.t) :
  NoDup (file_path <$> detect_potential_conflicts tasks) ∧
  (∀ c, c ∈ detect_potential_conflicts tasks →
     conflict_type c = "file_conflict" ∧
     conflict_tasks c = writers_of tasks (file_path c) ∧
     (1 < length (conflict_tasks c))%nat) ∧
  (∀ path, (1 < length (writers_of tasks path))%nat →
     ∃ c, c ∈ detect_potential_conflicts tasks ∧ file_path c = path).
Proof.
  destruct (record_writers_spec tasks) as [Hnd Hspec].
  unfold detect_potential_conflicts. split_and!.
  - revert Hnd. generalize (record_writers tasks). clear.
    intros d. induction d as [|[p ws] d IH]; [constructor|].
    rewrite fmap_cons. intros [Hp Hnd]%NoDup_cons. simpl.
    case_decide; [|by apply IH]. rewrite fmap_cons. simpl. constructor; [|by apply IH].
    intros (c & -> & Hc)%list_elem_of_fmap. apply Hp.
    apply list_elem_of_omap in Hc as ([p' ws'] & Hin & Hsome).
    case_decide; [|done]. injection Hsome as <-. simpl.
    apply list_elem_of_fmap. by exists (p', ws').
  - intros c ([p ws] & Hin & Hsome)%list_elem_of_omap.
    case_decide as Hlen; [|done]. injection Hsome as <-. simpl.
    apply Hspec in Hin as [-> _]. done.
  - intros path Hlen.
    exists (mk_conflict "file_conflict" path (writers_of tasks path) "high"
              "Add dependency or merge tasks").
    split; [|reflexivity].
    apply list_elem_of_omap. exists (path, writers_of tasks path). split.
    + apply Hspec. split; [done|]. intros Hnil. rewrite Hnil in Hlen. simpl in Hlen. lia.
    + simpl. rewrite decide_True by done. reflexivity.
Qed.
End Conflicts.

(* ================================================================== *)
(** * The strategies of the optimizer                                   *)
(* ================================================================== *)

Section Throughput.
Import ParallelOptimizer.

Lemma ExecutionLayer_new_inv (n : Z) (tasks : list CompleteTask.t) (deps : list string)
    (duration : option Z) (l : ExecutionLayer.t) :
  ExecutionLayer.new n tasks deps duration = Ok l →
  l = ExecutionLayer.mk n tasks deps duration ∧ tasks ≠ [] ∧ (0 ≤ n)%Z.
Proof.
  unfold ExecutionLayer.new. case_decide; [done|].
  destruct tasks; [done|]. intros [= <-]. split_and!; [done|done|lia].
Qed.

Lemma merge_small_layers_unfold (dependency_graph : DependencyGraph.t) (i : nat)
    (current next : ExecutionLayer.t) (rest : list ExecutionLayer.t) :
  merge_small_layers dependency_graph i (current :: next :: rest) =
  if bool_decide (length (ExecutionLayer.tasks current) < 3)%nat
     && bool_decide (length (ExecutionLayer.tasks next) < 3)%nat then
    duration1 ← py_max (CompleteTask.estimated_duration_minutes <$>
                          ExecutionLayer.tasks current);
    duration2 ← py_max (CompleteTask.estimated_duration_minutes <$>
                          ExecutionLayer.tasks next);
    merged_duration ← py_max [duration1; duration2];
    merged_layer ←
      ExecutionLayer.new (ExecutionLayer.layer_number current)
        (ExecutionLayer.tasks current ++ ExecutionLayer.tasks next)
        (ExecutionLayer.dependencies_satisfied current ++
         ExecutionLayer.dependencies_satisfied next) merged_duration;
    merged ← merge_small_layers dependency_graph (S (S i)) rest;
    Ok ((None, merged_layer) :: merged)
  else
    merged ← merge_small_layers dependency_graph (S i) (next :: rest);
    Ok ((Some i, current) :: merged).
Proof. reflexivity. Qed.

(** What the loop of [_optimize_for_throughput] returns. *)
Lemma merge_small_layers_spec (dependency_graph : DependencyGraph.t) (n : nat) :
  ∀ (layers : list ExecutionLayer.t) (i : nat) merged,
    (length layers ≤ n)%nat →
    merge_small_layers dependency_graph i layers = Ok merged →
    concat (ExecutionLayer.tasks <$> merged.*2) = concat (ExecutionLayer.tasks <$> layers) ∧
    (length merged ≤ length layers)%nat ∧ (length layers ≤ 2 * length merged)%nat ∧
    (∀ (p j : nat) l, merged !! p = Some (Some j, l) →
       (i ≤ j)%nat ∧ layers !! (j - i)%nat = Some l) ∧
    (∀ l0 l1 rest, layers = l0 :: l1 :: rest →
       (length (ExecutionLayer.tasks l0) < 3)%nat →
       (length (ExecutionLayer.tasks l1) < 3)%nat →
       ∃ l, merged !! 0%nat = Some (None, l) ∧
            ExecutionLayer.tasks l = ExecutionLayer.tasks l0 ++ ExecutionLayer.tasks l1).
Proof.
  induction n as [|n IH]; intros layers i merged Hlen.
  { destruct layers; [|simpl in Hlen; lia]. intros [= <-].
    split_and!; [done|done|done| |done]. intros p j l. by rewrite lookup_nil. }
  destruct layers as [|current [|next rest]].
  - intros [= <-]. split_and!; [done|done|done| |done]. intros p j l. by rewrite lookup_nil.
  - intros [= <-]. split_and!; [done|simpl; lia|simpl; lia| |done].
    intros [|p] j l; [|by rewrite lookup_cons, lookup_nil].
    intros [= <- <-]. split; [lia|]. by rewrite Nat.sub_diag.
  - rewrite merge_small_layers_unfold.
    destruct (bool_decide (length (ExecutionLayer.tasks current) < 3)%nat
              && bool_decide (length (ExecutionLayer.tasks next) < 3)%nat) eqn:Hsmall.
    + destruct (py_max (_ <$> ExecutionLayer.tasks current)) as [d1| |]; [|by simpl|by simpl].
      rewrite bind_Ok.
      destruct (py_max (_ <$> ExecutionLayer.tasks next)) as [d2| |]; [|by simpl|by simpl].
      rewrite bind_Ok.
      destruct (py_max [d1; d2]) as [d| |]; [|by simpl|by simpl]. rewrite bind_Ok.
      destruct (ExecutionLayer.new _ _ _ _) as [merged_layer| |] eqn:Hnew;
        [|by simpl|by simpl].
      rewrite bind_Ok. apply ExecutionLayer_new_inv in Hnew as (-> & _ & _).
      destruct (merge_small_layers dependency_graph (S (S i)) rest) as [tl| |] eqn:Htl;
        [|by simpl|by simpl].
      rewrite bind_Ok. intros [= <-].
      destruct (IH rest (S (S i)) tl) as (Hc & Hl1 & Hl2 & Horig & _);
        [simpl in Hlen; lia|done|].
      split_and!.
      * rewrite !fmap_cons, !concat_cons. cbn [snd ExecutionLayer.tasks].
        rewrite Hc. by rewrite app_assoc.
      * simpl. lia.
      * simpl. lia.
      * intros [|p] j l; [done|]. simpl. intros Hp.
        destruct (Horig p j l Hp) as [Hij Hl]. split; [lia|].
        replace (j - i)%nat with (S (S (j - S (S i)))) by lia. done.
      * intros l0 l1 rest0 [= <- <- <-] _ _. eexists. split; [reflexivity|done].
    + destruct (merge_small_layers dependency_graph (S i) (next :: rest)) as [tl| |] eqn:Htl;
        [|by simpl|by simpl].
      rewrite bind_Ok. intros [= <-].
      destruct (IH (next :: rest) (S i) tl) as (Hc & Hl1 & Hl2 & Horig & _);
        [simpl in *; lia|done|].
      split_and!.
      * rewrite !fmap_cons, !concat_cons. cbn [snd]. rewrite Hc.
        by rewrite !fmap_cons, !concat_cons.
      * simpl in *. lia.
      * simpl in *. lia.
      * intros [|p] j l.
        -- intros [= <- <-]. split; [lia|]. by rewrite Nat.sub_diag.
        -- simpl. intros Hp. destruct (Horig p j l Hp) as [Hij Hl]. split; [lia|].
           replace (j - i)%nat with (S (j - S i)) by lia. done.
      * intros l0 l1 rest0 [= <- <- <-] H0 H1. exfalso.
        apply andb_false_iff in Hsmall as [Hf|Hf]; apply bool_decide_eq_false in Hf; lia.
Qed.

Lemma renumber_lookup (layers : list ExecutionLayer.t) (i : nat) (l : ExecutionLayer.t) :
  renumber layers !! i = Some l →
  ExecutionLayer.layer_number l = Z.of_nat i ∧
  ∃ l0, layers !! i = Some l0 ∧
        ExecutionLayer.tasks l = ExecutionLayer.tasks l0 ∧
        ExecutionLayer.dependencies_satisfied l = ExecutionLayer.dependencies_satisfied l0 ∧
        ExecutionLayer.estimated_duration_minutes l =
          ExecutionLayer.estimated_duration_minutes l0.
Proof.
  unfold renumber. rewrite list_lookup_imap.
  destruct (layers !! i) as [l0|]; [|done]. simpl. intros [= <-].
  split; [done|]. by exists l0.
Qed.

Lemma renumber_tasks (layers : list ExecutionLayer.t) :
  ExecutionLayer.tasks <$> renumber layers = ExecutionLayer.tasks <$> layers.
Proof.
  apply list_eq. intros i. rewrite !list_lookup_fmap. unfold renumber.
  rewrite list_lookup_imap. by destruct (layers !! i).
Qed.

Lemma renumber_durations (layers : list ExecutionLayer.t) :
  ExecutionLayer.estimated_duration_minutes <$> renumber layers =
  ExecutionLayer.estimated_duration_minutes <$> layers.
Proof.
  apply list_eq. intros i. rewrite !list_lookup_fmap. unfold renumber.
  rewrite list_lookup_imap. by destruct (layers !! i).
Qed.

Lemma renumber_length (layers : list ExecutionLayer.t) :
  length (renumber layers) = length layers.
Proof. unfold renumber. by rewrite length_imap. Qed.

(** The renumbering writes layer numbers into the input and nothing else. *)
Lemma renumber_input_keeps (merged : list (option nat * ExecutionLayer.t))
    (layers : list ExecutionLayer.t) :
  Forall2 (λ l l',
    ExecutionLayer.tasks l' = ExecutionLayer.tasks l ∧
    ExecutionLayer.dependencies_satisfied l' = ExecutionLayer.dependencies_satisfied l ∧
    ExecutionLayer.estimated_duration_minutes l' = ExecutionLayer.estimated_duration_minutes l)
    layers (renumber_input merged layers).
Proof.
  unfold renumber_input.
  generalize (imap (λ position entry, (position, entry)) merged). intros entries.
  assert (Forall2 (λ l l',
            ExecutionLayer.tasks l' = ExecutionLayer.tasks l ∧
            ExecutionLayer.dependencies_satisfied l' = ExecutionLayer.dependencies_satisfied l ∧
            ExecutionLayer.estimated_duration_minutes l' =
              ExecutionLayer.estimated_duration_minutes l) layers layers) as Hstart.
  { apply Forall2_same_length_lookup. split; [done|]. intros i l l' Hl Hl'. by simplify_eq. }
  revert Hstart. generalize layers at 2 4. intros acc.
  revert acc. induction entries as [|[p [[j|] l]] entries IH]; intros acc Hacc; [done| |].
  - simpl. apply IH. apply Forall2_same_length_lookup.
    apply Forall2_same_length_lookup in Hacc as [Hlen Hacc].
    split; [by rewrite length_alter|].
    intros i x y Hx Hy. destruct (decide (j = i)) as [->|Hne].
    + rewrite list_lookup_alter_eq in Hy. destruct (acc !! i) as [y0|] eqn:Hy0; [|done].
      simpl in Hy. injection Hy as <-. simpl. by apply (Hacc i).
    + rewrite list_lookup_alter_ne in Hy by done. by apply (Hacc i).
  - simpl. by apply IH.
Qed.

(** X27.  [_optimize_for_throughput] merges small neighbours without
    looking at the dependencies.  A graph it returns has the dependency
    graph and the task count of the input; its layers hold the tasks of
    the input in the same order, they are numbered by position, and there
    are at most as many and at least half as many as before.  When the
    first two layers of the input have fewer than three tasks each, the
    first layer of the result holds the tasks of both, whatever the
    dependency graph says about them.  In the input graph only layer
    numbers are written: its layers keep their tasks, satisfied
    dependencies and durations. *)
Theorem throughput_merges_small_layers (g g' g_after : ExecutionGraph.t) :
  _optimize_for_throughput g = (Ok g', g_after) →
  ExecutionGraph.dependency_graph g' = ExecutionGraph.dependency_graph g ∧
  ExecutionGraph.total_tasks g' = ExecutionGraph.total_tasks g ∧
  concat (ExecutionLayer.tasks <$> ExecutionGraph.execution_layers g') =
    concat (ExecutionLayer.tasks <$> ExecutionGraph.execution_layers g) ∧
  (length (ExecutionGraph.execution_layers g') ≤
     length (ExecutionGraph.execution_layers g))%nat ∧
  (length (ExecutionGraph.execution_layers g) ≤
     2 * length (ExecutionGraph.execution_layers g'))%nat ∧
  (∀ (i : nat) l, ExecutionGraph.execution_layers g' !! i = Some l →
                  ExecutionLayer.layer_number l = Z.of_nat i) ∧
  (∀ l0 l1 rest, ExecutionGraph.execution_layers g = l0 :: l1 :: rest →
     (length (ExecutionLayer.tasks l0) < 3)%nat →
     (length (ExecutionLayer.tasks l1) < 3)%nat →
     ∃ l, ExecutionGraph.execution_layers g' !! 0%nat = Some l ∧
          ExecutionLayer.tasks l = ExecutionLayer.tasks l0 ++ ExecutionLayer.tasks l1) ∧
  ExecutionGraph.dependency_graph g_after = ExecutionGraph.dependency_graph g ∧
  Forall2 (λ l l',
    ExecutionLayer.tasks l' = ExecutionLayer.tasks l ∧
    ExecutionLayer.dependencies_satisfied l' = ExecutionLayer.dependencies_satisfied l ∧
    ExecutionLayer.estimated_duration_minutes l' = ExecutionLayer.estimated_duration_minutes l)
    (ExecutionGraph.execution_layers g) (ExecutionGraph.execution_layers g_after).
Proof.
  unfold _optimize_for_throughput.
  destruct (merge_small_layers _ 0 _) as [merged| |] eqn:Hmerged;
    [|by intros [=]|by intros [=]].
  destruct (py_sum _) as [total| |]; [|by intros [=]|by intros [=]].
  rewrite bind_Ok.
  destruct (ExecutionGraph_new _ _ _ _ _) as [optimized| |] eqn:Hnew;
    [|by intros [=]|by intros [=]].
  intros [= <- <-].
  unfold ExecutionGraph_new in Hnew. case_bool_decide; [|done]. injection Hnew as <-.
  destruct (merge_small_layers_spec _ _ _ _ _ (le_n _) Hmerged)
    as (Hconcat & Hle & Hge & _ & Hfirst).
  cbn [ExecutionGraph.dependency_graph ExecutionGraph.total_tasks
       ExecutionGraph.execution_layers].
  split_and!; [done|done| | | | | |done|].
  - by rewrite renumber_tasks.
  - by rewrite renumber_length, length_fmap.
  - by rewrite renumber_length, length_fmap.
  - intros i l Hl. by apply renumber_lookup in Hl as [? _].
  - intros l0 l1 rest Hlayers H0 H1.
    destruct (Hfirst l0 l1 rest Hlayers H0 H1) as (l & Hl & Htasks).
    unfold renumber. rewrite list_lookup_imap, list_lookup_fmap, Hl. simpl.
    eexists. split; [reflexivity|done].
  - apply renumber_input_keeps.
Qed.

Lemma throughput_merges_small_layers_witness :
  ∃ g' g_after,
    _optimize_for_throughput Samples.graph_two_layers = (Ok g', g_after) ∧
    length (ExecutionGraph.execution_layers g') = 1%nat ∧
    concat (ExecutionLayer.tasks <$> ExecutionGraph.execution_layers g') =
      concat (ExecutionLayer.tasks <$>
                ExecutionGraph.execution_layers Samples.graph_two_layers) ∧
    ∃ l, ExecutionGraph.execution_layers g' !! 0%nat = Some l ∧
         ExecutionLayer.tasks l =
           ExecutionLayer.tasks Samples.layer_A_C ++ ExecutionLayer.tasks Samples.layer_B.
Proof.
  destruct (_optimize_for_throughput Samples.graph_two_layers) as [[g'| |] g_after] eqn:Hrun;
    [|vm_compute in Hrun; discriminate Hrun|vm_compute in Hrun; discriminate Hrun].
  exists g', g_after. split; [reflexivity|].
  destruct (throughput_merges_small_layers _ _ _ Hrun)
    as (_ & _ & Hconcat & _ & _ & _ & Hfirst & _).
  split; [|split; [exact Hconcat|]].
  - vm_compute in Hrun. injection Hrun as <- _. reflexivity.
  - apply (Hfirst Samples.layer_A_C Samples.layer_B []); [reflexivity|simpl; lia|simpl; lia].
Defined.
End Throughput.

Section MergedPlan.
Import ParallelOptimizer Orchestrator.



End MergedPlan.




Section Duration.
Import ParallelOptimizer.




End Duration.

Lemma tc_flip {A : Type} (R : relation A) (x y : A) : tc R x y → tc (flip R) y x.
Proof.
  induction 1 as [x y Hxy|x y z Hxy _ IH].
  - by apply tc_once.
  - eapply tc_r; [exact IH|exact Hxy].
Qed.

Section CycleSearch.
Import DependencyGraph.

Lemma dfs_unfold (fuel : nat) (graph : gmap string (list string)) (node : string)
    (path : list string) (st : dfs_state) :
  dfs (S fuel) graph node path st =
  if decide (node ∈ d_gray st) then
    cycle_start ← list_index path node;
    Ok (mk_dfs (d_white st) (d_gray st) (d_black st)
          (d_cycles st ++ [drop cycle_start path ++ [node]]))
  else if decide (node ∈ d_black st) then Ok st
  else if decide (node ∈ d_white st) then
    st' ← for_each (λ st neighbor, dfs fuel graph neighbor (path ++ [node]) st)
            (mk_dfs (d_white st ∖ {[node]}) (d_gray st ∪ {[node]}) (d_black st)
               (d_cycles st))
            (dl_get graph node);
    if decide (node ∈ d_gray st') then
      Ok (mk_dfs (d_white st') (d_gray st' ∖ {[node]}) (d_black st' ∪ {[node]})
            (d_cycles st'))
    else Raise (KeyError node)
  else Raise (KeyError node).
Proof. reflexivity. Qed.

Lemma list_index_spec (path : list string) (node : string) :
  node ∈ path → ∃ i : nat, list_index path node = Ok i ∧ path !! i = Some node.
Proof.
  induction path as [|x path IH]; [by intros ?%elem_of_nil|].
  intros Hin. simpl. destruct (decide (x = node)) as [->|Hne].
  - by exists 0%nat.
  - apply elem_of_cons in Hin as [->|Hin]; [done|].
    destruct (IH Hin) as (i & -> & Hi). by exists (S i).
Qed.

Lemma adjacent_chain_drop (graph : gmap string (list string)) (l : list string) (n : nat) :
  adjacent_chain graph l → adjacent_chain graph (drop n l).
Proof.
  intros Hchain i a b. rewrite !lookup_drop, Nat.add_succ_r. apply Hchain.
Qed.

Lemma adjacent_chain_snoc (graph : gmap string (list string)) (l : list string)
    (a b : string) :
  adjacent_chain graph (l ++ [a]) → b ∈ dl_get graph a →
  adjacent_chain graph ((l ++ [a]) ++ [b]).
Proof.
  intros Hchain Hb i x y Hx Hy.
  destruct (decide (S i < length (l ++ [a]))%nat) as [Hlt|Hge].
  - rewrite lookup_app_l in Hx. 2: lia. rewrite lookup_app_l in Hy by lia.
    by apply (Hchain i).
  - pose proof (lookup_lt_Some _ _ _ Hy) as Hlen.
    rewrite !length_app in Hlen, Hge. simpl in Hlen, Hge.
    rewrite length_app in Hlen. simpl in Hlen.
    assert (i = length l) as -> by lia.
    rewrite lookup_app_l in Hx by (rewrite length_app; simpl; lia).
    rewrite list_lookup_middle in Hx by done. injection Hx as <-.
    rewrite lookup_app_r in Hy by (rewrite length_app; simpl; lia).
    rewrite length_app in Hy. simpl in Hy.
    replace (S (length l) - (length l + 1))%nat with 0%nat in Hy by lia.
    by injection Hy as <-.
Qed.

Lemma dfs_extends_refl (graph : gmap string (list string)) (st : dfs_state) :
  dfs_extends graph st st.
Proof. split_and!; [done|done|]. exists []. by rewrite app_nil_r. Qed.

Lemma dfs_extends_trans (graph : gmap string (list string)) (st1 st2 st3 : dfs_state) :
  dfs_extends graph st1 st2 → dfs_extends graph st2 st3 → dfs_extends graph st1 st3.
Proof.
  intros (Hw1 & Hb1 & new1 & Hc1 & Hn1) (Hw2 & Hb2 & new2 & Hc2 & Hn2).
  split_and!; [set_solver|set_solver|].
  exists (new1 ++ new2). split; [by rewrite Hc2, Hc1, app_assoc|by apply Forall_app].
Qed.

Lemma dfs_extends_no_cycles (graph : gmap string (list string)) (st st' : dfs_state) :
  dfs_extends graph st st' → d_cycles st' = [] → d_cycles st = [].
Proof. intros (_ & _ & new & -> & _) Hnil. by apply app_eq_nil in Hnil as [-> _]. Qed.

Section Search.
Context (graph : gmap string (list string)) (all : gset string).
Hypothesis graph_closed : ∀ a b, b ∈ dl_get graph a → b ∈ all.

(** The loop over the neighbours of a task, given what [dfs] does with
    the same bound. *)
Lemma dfs_neighbors (fuel : nat) (path : list string) :
  (∀ node st,
     (size (d_white st) < fuel)%nat → node ∈ all → dfs_inv graph all path st →
     adjacent_chain graph (path ++ [node]) →
     ∃ st', dfs fuel graph node path st = Ok st' ∧
       dfs_inv graph all path st' ∧ dfs_extends graph st st' ∧
       (d_cycles st' = [] → node ∈ d_black st')) →
  ∀ neighbors st,
    (size (d_white st) < fuel)%nat → dfs_inv graph all path st →
    (∀ n, n ∈ neighbors → n ∈ all ∧ adjacent_chain graph (path ++ [n])) →
    ∃ st', for_each (λ st neighbor, dfs fuel graph neighbor path st) st neighbors = Ok st' ∧
      dfs_inv graph all path st' ∧ dfs_extends graph st st' ∧
      (d_cycles st' = [] → ∀ n, n ∈ neighbors → n ∈ d_black st').
Proof.
  intros Hdfs. induction neighbors as [|n neighbors IH]; intros st Hfuel Hinv Hall.
  - exists st. split_and!; [done|done|apply dfs_extends_refl|].
    by intros _ n ?%elem_of_nil.
  - rewrite for_each_cons.
    destruct (Hall n ltac:(by left)) as [Hn Hchain].
    destruct (Hdfs n st Hfuel Hn Hinv Hchain) as (st1 & -> & Hinv1 & Hext1 & Hblack1).
    rewrite bind_Ok.
    assert (size (d_white st1) < fuel)%nat as Hfuel1.
    { destruct Hext1 as (Hw & _). apply subseteq_size in Hw. lia. }
    assert (∀ n', n' ∈ neighbors → n' ∈ all ∧ adjacent_chain graph (path ++ [n'])) as Hall1.
    { intros n' Hn'. apply Hall. by right. }
    destruct (IH st1 Hfuel1 Hinv1 Hall1) as (st2 & Hrun & Hinv2 & Hext2 & Hblack2).
    exists st2. split_and!; [done|done|by eapply dfs_extends_trans|].
    intros Hnil n' [->|Hn']%elem_of_cons; [|by apply Hblack2].
    pose proof (dfs_extends_no_cycles _ _ _ Hext2 Hnil) as Hnil1.
    destruct Hext2 as (_ & Hb & _). by apply Hb, Hblack1.
Qed.

(** [dfs] returns when the bound exceeds the number of white tasks; it
    keeps the invariant, reports closed chains only, and leaves the task
    black unless a cycle was reported. *)
Lemma dfs_spec (fuel : nat) : ∀ path node st,
  (size (d_white st) < fuel)%nat → node ∈ all → dfs_inv graph all path st →
  adjacent_chain graph (path ++ [node]) →
  ∃ st', dfs fuel graph node path st = Ok st' ∧
    dfs_inv graph all path st' ∧ dfs_extends graph st st' ∧
    (d_cycles st' = [] → node ∈ d_black st').
Proof.
  induction fuel as [|fuel IH]; intros path node st Hfuel Hnode Hinv Hchain; [lia|].
  rewrite dfs_unfold. destruct Hinv as (Hunion & Hgray & Hdisj & Hblack).
  destruct (decide (node ∈ d_gray st)) as [Hg|Hg].
  { rewrite Hgray, elem_of_list_to_set in Hg.
    destruct (list_index_spec path node Hg) as (i & -> & Hi). rewrite bind_Ok.
    eexists. split; [done|]. split_and!.
    - split_and!; [done|done|done|]. simpl. intros Hnil.
      by apply app_eq_nil in Hnil as [_ ?].
    - split_and!; [done|done|]. simpl. eexists. split; [done|].
      constructor; [|constructor]. split.
      + exists node, (drop (S i) path). by rewrite (drop_S _ _ _ Hi).
      + rewrite <- drop_app_le by (apply lookup_lt_Some in Hi; lia).
        by apply adjacent_chain_drop.
    - simpl. intros Hnil. by apply app_eq_nil in Hnil as [_ ?]. }
  destruct (decide (node ∈ d_black st)) as [Hb|Hb].
  { exists st. split_and!; [done|done|apply dfs_extends_refl|done]. }
  destruct (decide (node ∈ d_white st)) as [Hw|Hw]; [|set_solver].
  set (st1 := mk_dfs (d_white st ∖ {[node]}) (d_gray st ∪ {[node]}) (d_black st)
                (d_cycles st)).
  assert (size (d_white st ∖ {[node]}) < size (d_white st))%nat as Hsize.
  { apply subset_size. set_solver. }
  destruct (dfs_neighbors fuel (path ++ [node]) (IH (path ++ [node]))
              (dl_get graph node) st1) as (st2 & -> & Hinv2 & Hext2 & Hblack2).
  { simpl. lia. }
  { split_and!; simpl.
    - rewrite <- Hunion. apply set_eq. intros x.
      destruct (decide (x = node)) as [->|]; set_solver.
    - rewrite Hgray, list_to_set_app_L. set_solver.
    - set_solver.
    - done. }
  { intros n Hn. split; [by eapply graph_closed|].
    apply adjacent_chain_snoc; done. }
  rewrite bind_Ok.
  destruct Hinv2 as (Hunion2 & Hgray2 & Hdisj2 & Hclosed2).
  assert (node ∈ d_gray st2) as Hg2.
  { rewrite Hgray2, list_to_set_app_L. set_solver. }
  rewrite decide_True by done.
  destruct Hext2 as (Hw2 & Hb2 & new & Hc2 & Hnew). simpl in Hw2, Hb2, Hc2.
  eexists. split; [done|]. split_and!.
  - split_and!; simpl.
    + rewrite <- Hunion2. apply set_eq. intros x.
      destruct (decide (x = node)) as [->|]; set_solver.
    + rewrite Hgray2, list_to_set_app_L, <- Hgray. set_solver.
    + set_solver.
    + intros Hnil. destruct (Hclosed2 Hnil) as [Hcl Hacyc].
      specialize (Hblack2 Hnil).
      assert (∀ x y, x ∈ d_black st2 → tc (λ a b, b ∈ dl_get graph a) x y →
                     y ∈ d_black st2) as Hreach.
      { intros x y Hx Hxy. induction Hxy as [x y Hxy|x y z Hxy _ IHtc].
        - by apply (Hcl x).
        - apply IHtc. by apply (Hcl x). }
      split.
      * intros b n [Hbl| ->%elem_of_singleton]%elem_of_union Hn.
        -- apply elem_of_union_l. by apply (Hcl b).
        -- apply elem_of_union_l. by apply Hblack2.
      * intros x [Hx| ->%elem_of_singleton]%elem_of_union; [by apply Hacyc|].
        intros Hcycle.
        assert (node ∈ d_black st2) as Hcontra; [|set_solver].
        inversion Hcycle as [? ? Hedge|? n ? Hedge Hrest]; subst.
        -- by apply Hblack2.
        -- apply (Hreach n); [by apply Hblack2|done].
  - split_and!; simpl; [set_solver|set_solver|]. by exists new.
  - simpl. set_solver.
Qed.

(** The loop of [find_cycles] over the tasks. *)
Lemma dfs_all (fuel : nat) : ∀ white_list st,
  (size all < fuel)%nat → dfs_inv graph all [] st →
  ∃ st', for_each (λ st task_id,
                     if decide (task_id ∈ d_white st)
                     then dfs fuel graph task_id [] st
                     else Ok st) st white_list = Ok st' ∧
    dfs_inv graph all [] st' ∧ dfs_extends graph st st' ∧
    (d_cycles st' = [] → ∀ t, t ∈ white_list → t ∈ all → t ∈ d_black st').
Proof.
  induction white_list as [|t white_list IH]; intros st Hfuel Hinv.
  - exists st. split_and!; [done|done|apply dfs_extends_refl|].
    by intros _ t ?%elem_of_nil.
  - rewrite for_each_cons.
    assert (∃ st1, (if decide (t ∈ d_white st) then dfs fuel graph t [] st else Ok st)
                     = Ok st1 ∧
              dfs_inv graph all [] st1 ∧ dfs_extends graph st st1 ∧
              (d_cycles st1 = [] → t ∈ all → t ∈ d_black st1))
      as (st1 & -> & Hinv1 & Hext1 & Hblack1).
    { destruct (decide (t ∈ d_white st)) as [Hw|Hw].
      - destruct (dfs_spec fuel [] t st) as (st1 & Hrun & Hinv1 & Hext1 & Hblack1).
        + destruct Hinv as (Hunion & _).
          assert (size (d_white st) ≤ size all)%nat; [|lia].
          apply subseteq_size. set_solver.
        + destruct Hinv as (Hunion & _). set_solver.
        + done.
        + intros i a b Ha Hb. by destruct i.
        + exists st1. split_and!; [done|done|done|by intros ? _; apply Hblack1].
      - exists st. split_and!; [done|done|apply dfs_extends_refl|].
        intros _ Ht. destruct Hinv as (Hunion & Hgray & _). simpl in Hgray. set_solver. }
    rewrite bind_Ok.
    destruct (IH st1 Hfuel Hinv1) as (st2 & Hrun & Hinv2 & Hext2 & Hblack2).
    exists st2. split_and!; [done|done|by eapply dfs_extends_trans|].
    intros Hnil t' [->|Ht']%elem_of_cons Hall; [|by apply Hblack2].
    pose proof (dfs_extends_no_cycles _ _ _ Hext2 Hnil) as Hnil1.
    destruct Hext2 as (_ & Hb & _). by apply Hb, Hblack1.
Qed.
End Search.
End CycleSearch.

Section FindCycles.
Import DependencyGraph TaskDependency.

Lemma add_cycle_edge_spec (deps : list TaskDependency.t) : ∀ acc,
  (∀ d, d ∈ deps → is_blocking d = true → is_Some (acc !! to_task_id d)) →
  ∃ graph, for_each add_cycle_edge acc deps = Ok graph ∧
    ∀ a b, b ∈ dl_get graph a ↔
           b ∈ dl_get acc a ∨
           ∃ d, d ∈ deps ∧ is_blocking d = true ∧ from_task_id d = b ∧ to_task_id d = a.
Proof.
  induction deps as [|d deps IH]; intros acc Hkeys.
  - exists acc. split; [done|]. intros a b. split; [by left|].
    by intros [?|(d & ?%elem_of_nil & _)].
  - rewrite for_each_cons.
    destruct (is_blocking d) eqn:Hb.
    + destruct (Hkeys d ltac:(by left) Hb) as [succs Hsuccs].
      assert (add_cycle_edge acc d
                = Ok (<[to_task_id d := succs ++ [from_task_id d]]> acc)) as ->.
      { unfold add_cycle_edge, dict_get. by rewrite Hb, Hsuccs. }
      rewrite bind_Ok.
      destruct (IH (<[to_task_id d := succs ++ [from_task_id d]]> acc))
        as (graph & -> & Hgraph).
      { intros d' Hd' Hb'. rewrite lookup_insert. case_decide; [by eexists|].
        apply Hkeys; [by right|done]. }
      exists graph. split; [done|]. intros a b. rewrite Hgraph. unfold dl_get.
      rewrite lookup_insert. case_decide as Ha.
      * subst a. rewrite Hsuccs. simpl. rewrite elem_of_app, list_elem_of_singleton.
        split.
        -- intros [[?| ->]|(d' & Hd' & ?)]; [by left| |].
           ++ right. exists d. split_and!; [by left|done|done|done].
           ++ right. exists d'. split; [by right|done].
        -- intros [?|(d' & [->|Hd']%elem_of_cons & Hb' & Hf & Ht)]; [by left;left| |].
           ++ left. by right.
           ++ right. by exists d'.
      * split.
        -- intros [?|(d' & Hd' & ?)]; [by left|]. right. exists d'. split; [by right|done].
        -- intros [?|(d' & [->|Hd']%elem_of_cons & Hb' & Hf & Ht)]; [by left|done|].
           right. by exists d'.
    + assert (add_cycle_edge acc d = Ok acc) as ->.
      { unfold add_cycle_edge. by rewrite Hb. }
      rewrite bind_Ok. destruct (IH acc) as (graph & -> & Hgraph).
      { intros d' Hd' Hb'. apply Hkeys; [by right|done]. }
      exists graph. split; [done|]. intros a b. rewrite Hgraph. split.
      * intros [?|(d' & Hd' & ?)]; [by left|]. right. exists d'. split; [by right|done].
      * intros [?|(d' & [->|Hd']%elem_of_cons & Hb' & Hf & Ht)]; [by left|congruence|].
        right. by exists d'.
Qed.

(** The verdict of [validate_acyclic] on a graph of distinct tasks whose
    blocking dependencies join tasks of the graph. *)
Lemma validate_acyclic_verdict (g : DependencyGraph.t) :
  NoDup (tasks g) → ends_resolve g →
  ∃ b : bool, validate_acyclic g = Ok b ∧ (b = true ↔ acyclic g).
Proof.
  intros Hnd Hends.
  destruct (validate_acyclic_order g Hnd Hends) as (order & in_degree & Heq & Hinv).
  eexists. split; [exact Heq|].
  rewrite bool_decide_eq_true, <- (kahn_inv_final g order in_degree Hnd Hends Hinv). lia.
Qed.

(** [find_cycles] returns; what it lists are cycles of blocking
    dependencies, and it lists none exactly when there is none. *)
Lemma find_cycles_spec (white_list : list string) (g : DependencyGraph.t) :
  NoDup (tasks g) → ends_resolve g → white_list ≡ₚ tasks g →
  ∃ cycles, find_cycles white_list g = Ok cycles ∧
    Forall (dependency_cycle g) cycles ∧ (cycles = [] ↔ acyclic g).
Proof.
  intros Hnd Hends Hperm.
  destruct (validate_acyclic_verdict g Hnd Hends) as (b & Hb & Hverdict).
  unfold find_cycles. rewrite Hb, bind_Ok. destruct b.
  { exists []. split_and!; [done|constructor|]. split; [intros _; by apply Hverdict|done]. }
  assert (¬ acyclic g) as Hcyclic by (rewrite <- Hverdict; done).
  destruct (add_cycle_edge_spec (dependencies g)
              (list_to_map ((λ id, (id, [])) <$> tasks g))) as (graph & -> & Hgraph).
  { intros d Hd Hbl. rewrite lookup_const_map.
    rewrite decide_True by (by apply (Hends d)). by eexists. }
  rewrite bind_Ok.
  assert (∀ a b, b ∈ dl_get graph a ↔ blocking_dep g b a) as Hedge.
  { intros a b. rewrite Hgraph. unfold dl_get at 1. rewrite lookup_const_map.
    unfold blocking_dep. split.
    - intros [Hnil|?]; [|done]. by case_decide; simpl in Hnil; apply elem_of_nil in Hnil.
    - intros ?. by right. }
  destruct (dfs_all graph (list_to_set (tasks g))) with (fuel := S (length (tasks g)))
    (white_list := white_list) (st := mk_dfs (list_to_set (tasks g)) ∅ ∅ [])
    as (st & -> & Hinv & (_ & _ & new & Hnew & Hclosed) & Hblack).
  { intros a b (d & Hd & Hbl & <- & _)%Hedge. apply elem_of_list_to_set.
    by apply (Hends d). }
  { rewrite size_list_to_set by done. lia. }
  { split_and!; simpl; [set_solver|done|set_solver|]. intros _. split; set_solver. }
  rewrite bind_Ok. simpl in Hnew. subst new. exists (d_cycles st). split_and!; [done| |].
  - eapply Forall_impl; [exact Hclosed|]. intros c [Hshape Hchain]. split; [done|].
    intros i a b Ha Hb'. by apply Hedge, (Hchain i).
  - split; [|done]. intros Hnil. exfalso. apply Hcyclic. intros x Hx.
    destruct Hinv as (_ & _ & _ & Hacyc). destruct (Hacyc Hnil) as [_ Hno].
    assert (x ∈ tasks g) as Hxin.
    { inversion Hx as [? ? (d & Hd & Hbl & <- & _)|? ? ? (d & Hd & Hbl & <- & _) _]; subst;
        by apply (Hends d). }
    apply (Hno x).
    + apply Hblack; [done| |by apply elem_of_list_to_set]. by rewrite Hperm.
    + apply tc_flip in Hx. revert Hx. apply (tc_congruence (λ x, x)).
      intros a b Hab. by apply Hedge.
Qed.
End FindCycles.

Section Validation.
Import ExecutionGraphValidation.

Lemma scan_task_spec (ids : list string) : ∀ (seen : gset string) (found : list issue),
  ∃ repeated,
    foldl scan_task (seen, found) ids =
      (seen ∪ list_to_set ids, found ++ (In_multiple_layers <$> repeated)) ∧
    ∀ id, id ∈ repeated ↔
          ∃ j : nat, ids !! j = Some id ∧
                     (id ∈ seen ∨ ∃ i : nat, (i < j)%nat ∧ ids !! i = Some id).
Proof.
  induction ids as [|id0 ids IH]; intros seen found.
  - exists []. simpl. rewrite app_nil_r, (right_id_L ∅ (∪)). split; [done|].
    intros id. split; [by intros ?%elem_of_nil|]. by intros (j & ? & _).
  - simpl foldl. unfold scan_task at 2. cbn [fst snd].
    destruct (IH (seen ∪ {[id0]})
                (if decide (id0 ∈ seen) then found ++ [In_multiple_layers id0] else found))
      as (repeated & -> & Hrepeated).
    exists ((if decide (id0 ∈ seen) then [id0] else []) ++ repeated). split.
    + f_equal; [set_solver|]. case_decide; [|done].
      by rewrite fmap_app, <- !app_assoc.
    + intros id. rewrite elem_of_app, Hrepeated. split.
      * intros [Hhead|(j & Hj & Hseen)].
        -- case_decide; [|by apply elem_of_nil in Hhead].
           apply list_elem_of_singleton in Hhead as ->. exists 0%nat. split; [done|by left].
        -- exists (S j). split; [done|].
           destruct Hseen as [[?| ->%elem_of_singleton]%elem_of_union|(i & Hi & Hlook)].
           ++ by left.
           ++ right. exists 0%nat. split; [lia|done].
           ++ right. exists (S i). split; [lia|done].
      * intros ([|j] & Hj & Hseen).
        -- injection Hj as ->. destruct Hseen as [Hseen|(i & Hi & _)]; [|lia].
           left. rewrite decide_True by done. by left.
        -- right. exists j. split; [done|].
           destruct Hseen as [Hseen|([|i] & Hi & Hlook)].
           ++ left. set_solver.
           ++ injection Hlook as ->. left. set_solver.
           ++ right. exists i. split; [lia|done].
Qed.

Lemma NoDup_occurs_twice (ids : list string) :
  NoDup ids ↔ ∀ id, ¬ occurs_twice ids id.
Proof.
  rewrite NoDup_alt. split.
  - intros Hnd id (i & j & Hij & Hi & Hj). specialize (Hnd i j id Hi Hj). lia.
  - intros Hno i j id Hi Hj. destruct (Nat.lt_trichotomy i j) as [Hlt|[->|Hlt]]; [|done|].
    + destruct (Hno id). by exists i, j.
    + destruct (Hno id). by exists j, i.
Qed.

(** The report of [validate_execution_graph], part by part. *)
Lemma validate_execution_graph_shape (white_list : list string) (g : ExecutionGraph.t) :
  let dg := ExecutionGraph.dependency_graph g in
  let ids := concat (ExecutionLayer.get_task_ids <$> ExecutionGraph.execution_layers g) in
  let all_task_ids : gset string := list_to_set (DependencyGraph.tasks dg) in
  let task_ids_in_layers : gset string := list_to_set ids in
  NoDup (DependencyGraph.tasks dg) → ends_resolve dg →
  white_list ≡ₚ DependencyGraph.tasks dg →
  ∃ (b : bool) cycles repeated report,
    validate_execution_graph white_list g = Ok report ∧
    is_valid report = b ∧
    (b = true ↔ acyclic dg) ∧
    (b = false → cycles ≠ []) ∧
    Forall (dependency_cycle dg) cycles ∧
    (∀ id, id ∈ repeated ↔ occurs_twice ids id) ∧
    issues report =
      (if b then [] else Contains_cycles :: (Cycle_detected <$> cycles))
      ++ (In_multiple_layers <$> repeated)
      ++ (if decide (all_task_ids ∖ task_ids_in_layers = ∅) then []
          else [Missing_from_layers (all_task_ids ∖ task_ids_in_layers)])
      ++ (if decide (task_ids_in_layers ∖ all_task_ids = ∅) then []
          else [Extra_in_layers (task_ids_in_layers ∖ all_task_ids)]).
Proof.
  intros dg ids all_task_ids task_ids_in_layers Hnd Hends Hperm.
  destruct (validate_acyclic_verdict dg Hnd Hends) as (b & Hb & Hverdict).
  destruct (find_cycles_spec white_list dg Hnd Hends Hperm)
    as (cycles & Hcycles & Hreal & Hnone).
  set (found := if b then [] else Contains_cycles :: (Cycle_detected <$> cycles)).
  destruct (scan_task_spec ids ∅ found) as (repeated & Hscan & Hrepeated).
  rewrite (left_id_L ∅ (∪)) in Hscan.
  exists b, cycles, repeated. unfold validate_execution_graph.
  fold dg. rewrite Hb, bind_Ok.
  assert ((if b then Ok []
           else DependencyGraph.find_cycles white_list dg
                  ≫= λ cycles, Ok (Contains_cycles :: (Cycle_detected <$> cycles)))
          = Ok found) as ->.
  { subst found. destruct b; [done|]. by rewrite Hcycles. }
  rewrite bind_Ok. cbv zeta. fold ids. rewrite Hscan.
  eexists. split; [done|]. cbn [is_valid issues]. split_and!; [done|done| |done| |].
  - intros -> Hnil%Hnone. by apply Hverdict in Hnil.
  - intros id. rewrite Hrepeated. unfold occurs_twice. split.
    + intros (j & Hj & [?%elem_of_empty|(i & Hi & Hlook)]); [done|]. by exists i, j.
    + intros (i & j & Hij & Hi & Hj). exists j. split; [done|]. right. by exists i.
  - fold all_task_ids task_ids_in_layers.
    destruct (decide (task_ids_in_layers = all_task_ids)) as [Heq|Hne].
    + rewrite Heq, !decide_True by set_solver. by rewrite !app_nil_r.
    + by rewrite <- !app_assoc.
Qed.

(** X30.  The report of [validate_execution_graph] on a graph of distinct
    tasks whose blocking dependencies join tasks of the graph.  The call
    returns.  [is_valid] is [True] exactly when the blocking dependencies
    have no cycle: what the layers hold has no influence on it.  When there
    is a cycle the issues say so and list at least one cycle, and every
    cycle listed is a closed chain of blocking dependencies.  A task is
    reported as appearing in multiple layers exactly when its identifier
    stands at two positions of the layers; the tasks of the graph that no
    layer holds and the identifiers in layers that are no task of the graph
    are reported as sets, when there are any.  There is no issue exactly
    when the graph has no cycle and the layers hold every task of the
    graph once and nothing else. *)
Theorem validation_report (white_list : list string) (g : ExecutionGraph.t) :
  let dg := ExecutionGraph.dependency_graph g in
  let ids := concat (ExecutionLayer.get_task_ids <$> ExecutionGraph.execution_layers g) in
  NoDup (DependencyGraph.tasks dg) → ends_resolve dg →
  white_list ≡ₚ DependencyGraph.tasks dg →
  ∃ report, validate_execution_graph white_list g = Ok report ∧
    (is_valid report = true ↔ acyclic dg) ∧
    (Contains_cycles ∈ issues report ↔ ¬ acyclic dg) ∧
    (¬ acyclic dg → ∃ cycle, Cycle_detected cycle ∈ issues report) ∧
    (∀ cycle, Cycle_detected cycle ∈ issues report → dependency_cycle dg cycle) ∧
    (∀ id, In_multiple_layers id ∈ issues report ↔ occurs_twice ids id) ∧
    (∀ missing, Missing_from_layers missing ∈ issues report ↔
       missing ≠ ∅ ∧
       ∀ id, id ∈ missing ↔ id ∈ DependencyGraph.tasks dg ∧ id ∉ ids) ∧
    (∀ extra, Extra_in_layers extra ∈ issues report ↔
       extra ≠ ∅ ∧
       ∀ id, id ∈ extra ↔ id ∈ ids ∧ id ∉ DependencyGraph.tasks dg) ∧
    (issues report = [] ↔
       acyclic dg ∧ NoDup ids ∧ ∀ id, id ∈ ids ↔ id ∈ DependencyGraph.tasks dg).
Proof.
  intros dg ids Hnd Hends Hperm.
  destruct (validate_execution_graph_shape white_list g Hnd Hends Hperm)
    as (b & cycles & repeated & report & Hrun & Hvalid & Hverdict & Hsome & Hreal &
        Hrepeated & Hissues).
  fold dg ids in Hverdict, Hreal, Hrepeated, Hissues.
  set (all_task_ids := list_to_set (DependencyGraph.tasks dg) : gset string) in Hissues.
  set (task_ids_in_layers := list_to_set ids : gset string) in Hissues.
  assert (∀ (s : gset string) (l : list string) (t : gset string),
            s = list_to_set l ∖ t ↔ ∀ id, id ∈ s ↔ id ∈ l ∧ id ∉ t) as Hdiff.
  { intros s l t. rewrite set_eq. apply forall_proper. intros id.
    by rewrite elem_of_difference, elem_of_list_to_set. }
  exists report. split; [done|]. rewrite Hissues, Hvalid. clear Hissues Hvalid Hrun.
  split_and!.
  - done.
  - rewrite <- Hverdict. rewrite !elem_of_app, list_elem_of_fmap.
    destruct b; repeat case_decide; split;
      rewrite ?elem_of_cons, ?list_elem_of_fmap, ?elem_of_nil; naive_solver.
  - intros Hcyclic. destruct b; [by destruct Hcyclic; apply Hverdict|].
    destruct cycles as [|cycle cycles]; [by destruct Hsome|].
    exists cycle. apply elem_of_app. left. right. rewrite fmap_cons. by left.
  - intros cycle. rewrite Forall_forall in Hreal.
    rewrite !elem_of_app, list_elem_of_fmap.
    destruct b; repeat case_decide;
      rewrite ?elem_of_cons, ?list_elem_of_fmap, ?elem_of_nil; naive_solver.
  - intros id. rewrite <- Hrepeated. rewrite !elem_of_app, list_elem_of_fmap.
    destruct b; repeat case_decide; split;
      rewrite ?elem_of_cons, ?list_elem_of_fmap, ?elem_of_nil; naive_solver.
  - intros missing.
    assert ((∀ id, id ∈ missing ↔ id ∈ DependencyGraph.tasks dg ∧ id ∉ ids) ↔
            missing = all_task_ids ∖ task_ids_in_layers) as ->.
    { unfold all_task_ids. rewrite Hdiff. apply forall_proper. intros id.
      unfold task_ids_in_layers. by rewrite elem_of_list_to_set. }
    rewrite !elem_of_app, list_elem_of_fmap.
    destruct b; repeat case_decide; split;
      rewrite ?elem_of_cons, ?list_elem_of_fmap, ?elem_of_nil; naive_solver.
  - intros extra.
    assert ((∀ id, id ∈ extra ↔ id ∈ ids ∧ id ∉ DependencyGraph.tasks dg) ↔
            extra = task_ids_in_layers ∖ all_task_ids) as ->.
    { unfold task_ids_in_layers. rewrite Hdiff. apply forall_proper. intros id.
      unfold all_task_ids. by rewrite elem_of_list_to_set. }
    rewrite !elem_of_app, list_elem_of_fmap.
    destruct b; repeat case_decide; split;
      rewrite ?elem_of_cons, ?list_elem_of_fmap, ?elem_of_nil; naive_solver.
  - rewrite NoDup_occurs_twice, <- Hverdict.
    assert ((∀ id, id ∈ ids ↔ id ∈ DependencyGraph.tasks dg) ↔
            all_task_ids ∖ task_ids_in_layers = ∅ ∧ task_ids_in_layers ∖ all_task_ids = ∅)
      as ->.
    { unfold all_task_ids, task_ids_in_layers. rewrite !set_eq. split.
      - intros Hsame. split; intros id;
          rewrite elem_of_difference, !elem_of_list_to_set, Hsame; set_solver.
      - intros [Hmissing Hextra] id.
        specialize (Hmissing id). specialize (Hextra id).
        rewrite elem_of_difference, !elem_of_list_to_set in Hmissing, Hextra.
        destruct (decide (id ∈ ids)), (decide (id ∈ DependencyGraph.tasks dg));
          set_solver. }
    split.
    + intros Hnil. apply app_eq_nil in Hnil as [Hfound Hnil].
      apply app_eq_nil in Hnil as [Hrep Hnil]. apply app_eq_nil in Hnil as [Hm He].
      split_and!.
      * by destruct b.
      * intros id Hid%Hrepeated. apply fmap_nil_inv in Hrep. subst repeated.
        by apply elem_of_nil in Hid.
      * by destruct (decide (all_task_ids ∖ task_ids_in_layers = ∅)).
      * by destruct (decide (task_ids_in_layers ∖ all_task_ids = ∅)).
    + intros (-> & Hno & Hm & He). rewrite !decide_True by done.
      destruct repeated as [|id repeated]; [done|].
      destruct (Hno id). apply Hrepeated. by left.
Qed.

Lemma validation_report_witness :
  let dg := ExecutionGraph.dependency_graph Samples.graph_with_cycle in
  ∃ report,
    validate_execution_graph ["D"; "B"; "C"; "A"] Samples.graph_with_cycle = Ok report ∧
    (is_valid report = true ↔ acyclic dg) ∧
    (¬ acyclic dg → ∃ cycle, Cycle_detected cycle ∈ issues report) ∧
    (∀ cycle, Cycle_detected cycle ∈ issues report → dependency_cycle dg cycle).
Proof.
  intros dg.
  destruct (validation_report ["D"; "B"; "C"; "A"] Samples.graph_with_cycle)
    as (report & Hrun & Hvalid & _ & Hsome & Hreal & _).
  - apply (bool_decide_unpack _). vm_compute. exact I.
  - apply ends_resolve_Forall, (bool_decide_unpack _). vm_compute. exact I.
  - apply (bool_decide_unpack _). vm_compute. exact I.
  - exists report. split; [exact Hrun|]. split; [exact Hvalid|]. split; [exact Hsome|].
    exact Hreal.
Defined.
End Validation.
